(** * Autoposterpro: request orchestration (api.js) and session lifecycle (auth.js)

    A shallow embedding of [ApiService] (src/assets/js/api.js) and
    [AuthService] (src/assets/js/auth.js), followed by the properties of
    the retry loop, the request de-duplication queue, the response cache
    and the persisted session.

    Layout: part I holds the definitions (module [Js] for the fragment of
    JavaScript values and string operations the two files rely on, module
    [Api] for [ApiService], module [Auth] for [AuthService]); part II
    holds the lemmas and theorems. *)

From Stdlib Require Import ZArith String Ascii Lia DecimalString DecimalZ.
From stdpp Require Import base strings gmap list.

Set Warnings "-register-all".

Local Open Scope Z_scope.
Local Open Scope string_scope.
Local Open Scope list_scope.

(* ===================================================================== *)
(** * Part I: definitions                                                  *)
(* ===================================================================== *)

(** ** JavaScript values and the built-ins used by the sources *)

Module Js.

(** The values that flow through the two files: what [JSON.parse] can
    return, plus [undefined] (a missing property, an omitted argument).
    Numbers are modelled as integers; an object is the list of its own
    properties in enumeration order, which for the non-numeric property
    names used by the sources is insertion order. *)
Inductive JsVal : Type :=
| JUndefined
| JNull
| JBool (b : bool)
| JNum (n : Z)
| JStr (s : string)
| JArr (items : list JsVal)
| JObj (props : list (string * JsVal)).

Definition Props : Type := list (string * JsVal).

(** ToBoolean. *)
Definition truthy (v : JsVal) : bool :=
  match v with
  | JUndefined | JNull => false
  | JBool b => b
  | JNum n => negb (Z.eqb n 0)
  | JStr s => negb (String.eqb s "")
  | JArr _ | JObj _ => true
  end.

(** Decimal rendering of an integer, as [Number.prototype.toString] and
    template literals produce it (for magnitudes below 10^21). *)
Definition string_of_Z (n : Z) : string := NilZero.string_of_int (Z.to_int n).

Fixpoint join (sep : string) (l : list string) : string :=
  match l with
  | [] => ""
  | [s] => s
  | s :: rest => s +:+ sep +:+ join sep rest
  end.

(** ToString. *)
Fixpoint ToString (v : JsVal) : string :=
  match v with
  | JUndefined => "undefined"
  | JNull => "null"
  | JBool true => "true"
  | JBool false => "false"
  | JNum n => string_of_Z n
  | JStr s => s
  | JArr items =>
      join "," (map (fun x => match x with
                              | JUndefined | JNull => ""
                              | _ => ToString x
                              end) items)
  | JObj _ => "[object Object]"
  end.

(** Own-property lookup in a property list. *)
Fixpoint props_get (k : string) (props : Props) : option JsVal :=
  match props with
  | [] => None
  | (k', v) :: rest => if String.eqb k k' then Some v else props_get k rest
  end.

(** Property assignment [o[k] = v] for a non-numeric name [k]: an existing
    property keeps its position, a new one is appended. *)
Fixpoint props_set (k : string) (v : JsVal) (props : Props) : Props :=
  match props with
  | [] => [(k, v)]
  | (k', v') :: rest =>
      if String.eqb k k' then (k, v) :: rest else (k', v') :: props_set k v rest
  end.

(** [v.k] for the property names the sources read ([success], [message],
    [user], [profile], [email]): [None] is the TypeError raised on
    [undefined] and [null]; primitives and arrays have no such property. *)
Definition js_get (v : JsVal) (k : string) : option JsVal :=
  match v with
  | JUndefined | JNull => None
  | JObj props => Some (default JUndefined (props_get k props))
  | _ => Some JUndefined
  end.

(** The message of the TypeError thrown by [v.k] on [undefined]/[null]
    (V8 wording). *)
Definition TypeError_read (v : JsVal) (k : string) : string :=
  "Cannot read properties of " +:+ ToString v +:+ " (reading '" +:+ k +:+ "')".

(** [new Error(v).message]: an [undefined] argument leaves the message
    empty, anything else is converted with ToString. *)
Definition Error_message (v : JsVal) : string :=
  match v with
  | JUndefined => ""
  | _ => ToString v
  end.

(** *** JSON.stringify *)

Definition dquote : ascii := "034"%char.

Definition hex_digit (n : nat) : ascii :=
  match n with
  | 0%nat => "0" | 1%nat => "1" | 2%nat => "2" | 3%nat => "3"
  | 4%nat => "4" | 5%nat => "5" | 6%nat => "6" | 7%nat => "7"
  | 8%nat => "8" | 9%nat => "9" | 10%nat => "a" | 11%nat => "b"
  | 12%nat => "c" | 13%nat => "d" | 14%nat => "e" | _ => "f"
  end%char.

(** QuoteJSONString on one code unit: the quote, the backslash and the
    control characters are escaped, everything else is copied. *)
Definition escape_char (c : ascii) : string :=
  let n := nat_of_ascii c in
  if Nat.eqb n 34 then String "\" (String dquote "")
  else if Nat.eqb n 92 then "\\"
  else if Nat.eqb n 8 then "\b"
  else if Nat.eqb n 9 then "\t"
  else if Nat.eqb n 10 then "\n"
  else if Nat.eqb n 12 then "\f"
  else if Nat.eqb n 13 then "\r"
  else if Nat.ltb n 32 then
    "\u00" +:+ String (hex_digit (n / 16)) (String (hex_digit (n mod 16)) "")
  else String c "".

Fixpoint escape (s : string) : string :=
  match s with
  | EmptyString => ""
  | String c rest => escape_char c +:+ escape rest
  end.

Definition quote (s : string) : string :=
  String dquote (escape s +:+ String dquote "").

(** Reading one escaped code unit back from the front of a text: the
    inverse of [escape_char], used to tell quoted names apart. A raw
    quote is no escaped code unit. *)
Definition hex_value (c : ascii) : nat :=
  let n := nat_of_ascii c in
  if Nat.leb 97 n then (n - 87)%nat else (n - 48)%nat.

Definition unescape_char (s : string) : option (ascii * string) :=
  match s with
  | EmptyString => None
  | String c rest =>
      if Ascii.eqb c dquote then None
      else if Ascii.eqb c "\" then
        match rest with
        | EmptyString => None
        | String x rest1 =>
            if Ascii.eqb x dquote then Some (dquote, rest1)
            else if Ascii.eqb x "\" then Some ("\"%char, rest1)
            else if Ascii.eqb x "b" then Some (ascii_of_nat 8, rest1)
            else if Ascii.eqb x "t" then Some (ascii_of_nat 9, rest1)
            else if Ascii.eqb x "n" then Some (ascii_of_nat 10, rest1)
            else if Ascii.eqb x "f" then Some (ascii_of_nat 12, rest1)
            else if Ascii.eqb x "r" then Some (ascii_of_nat 13, rest1)
            else
              match rest1 with
              | String _ (String _ (String h1 (String h2 rest2))) =>
                  Some (ascii_of_nat (16 * hex_value h1 + hex_value h2), rest2)
              | _ => None
              end
        end
      else Some (c, rest)
  end.

(** [JSON.stringify v] for a value that is not [undefined]. Inside an
    array [undefined] is written [null]; inside an object a property whose
    value is [undefined] is left out. *)
Fixpoint stringify (v : JsVal) : string :=
  match v with
  | JUndefined | JNull => "null"
  | JBool true => "true"
  | JBool false => "false"
  | JNum n => string_of_Z n
  | JStr s => quote s
  | JArr items => "[" +:+ join "," (map stringify items) +:+ "]"
  | JObj props =>
      "{" +:+
      join "," (flat_map (fun kv => match snd kv with
                                    | JUndefined => []
                                    | _ => [quote (fst kv) +:+ ":" +:+ stringify (snd kv)]
                                    end) props)
      +:+ "}"
  end.

(** [JSON.stringify(v)] interpolated into a template literal or coerced to
    a string: at top level [undefined] yields [undefined]. *)
Definition JSON_stringify (v : JsVal) : string :=
  match v with
  | JUndefined => "undefined"
  | _ => stringify v
  end.

(** *** String.prototype.includes *)

Fixpoint starts_with (sub s : string) : bool :=
  match sub, s with
  | EmptyString, _ => true
  | String a sub', String b s' => Ascii.eqb a b && starts_with sub' s'
  | String _ _, EmptyString => false
  end.

(** [s.includes(sub)]: [sub] occurs in [s] at some position. *)
Fixpoint includes (s sub : string) : bool :=
  starts_with sub s ||
  match s with
  | EmptyString => false
  | String _ s' => includes s' sub
  end.

(** *** parseInt

    A string stands for a JavaScript string whose code units are all
    below 256. [parseInt(s)] with no radix: leading white space is
    skipped, then an optional sign, then an optional [0x]/[0X] prefix
    that selects base 16, then the longest run of digits of the base;
    [None] is [NaN] (no digit found). *)

(** WhiteSpace and LineTerminator code units below 256. *)
Definition is_whitespace (c : ascii) : bool :=
  let n := nat_of_ascii c in
  Nat.eqb n 9 || Nat.eqb n 10 || Nat.eqb n 11 || Nat.eqb n 12 || Nat.eqb n 13
  || Nat.eqb n 32 || Nat.eqb n 160.

Fixpoint trim_start (s : string) : string :=
  match s with
  | EmptyString => EmptyString
  | String c rest => if is_whitespace c then trim_start rest else s
  end.

Fixpoint trim_end (s : string) : string :=
  match s with
  | EmptyString => EmptyString
  | String c rest =>
      let rest' := trim_end rest in
      if is_whitespace c && String.eqb rest' "" then EmptyString else String c rest'
  end.

(** [String.prototype.trim] *)
Definition trim (s : string) : string := trim_end (trim_start s).

(** The lower-case mapping of a code unit below 256: [A]-[Z] and the
    Latin-1 capitals U+00C0-U+00DE (but the multiplication sign U+00D7)
    move up by 32. *)
Definition lower_char (c : ascii) : ascii :=
  let n := nat_of_ascii c in
  if (Nat.leb 65 n && Nat.leb n 90)
     || (Nat.leb 192 n && Nat.leb n 222 && negb (Nat.eqb n 215))
  then ascii_of_nat (n + 32) else c.

(** [String.prototype.toLowerCase] *)
Fixpoint toLowerCase (s : string) : string :=
  match s with
  | EmptyString => EmptyString
  | String c rest => String (lower_char c) (toLowerCase rest)
  end.

(** The value of [c] as a digit of base [radix], if it is one. *)
Definition digit_value (radix : Z) (c : ascii) : option Z :=
  let n := Z.of_nat (nat_of_ascii c) in
  let v :=
    if Z.leb 48 n && Z.leb n 57 then Some (n - 48)
    else if Z.leb 97 n && Z.leb n 122 then Some (n - 87)
    else if Z.leb 65 n && Z.leb n 90 then Some (n - 55)
    else None in
  match v with
  | Some d => if Z.ltb d radix then Some d else None
  | None => None
  end.

(** The longest prefix of digits, read from the left; [seen] tells whether
    a digit was read. *)
Fixpoint digits_acc (radix : Z) (s : string) (acc : Z) (seen : bool) : option Z :=
  match s with
  | EmptyString => if seen then Some acc else None
  | String c rest =>
      match digit_value radix c with
      | Some d => digits_acc radix rest (acc * radix + d) true
      | None => if seen then Some acc else None
      end
  end.

Definition parseInt (s : string) : option Z :=
  let s1 := trim_start s in
  let '(sign, s2) :=
    match s1 with
    | String "-" rest => (-1, rest)
    | String "+" rest => (1, rest)
    | _ => (1, s1)
    end in
  let '(radix, s3) :=
    match s2 with
    | String "0" (String "x" rest) => (16, rest)
    | String "0" (String "X" rest) => (16, rest)
    | _ => (10, s2)
    end in
  match digits_acc radix s3 0 false with
  | Some m => Some (sign * m)
  | None => None
  end.

(** *** Property order

    An array index is the canonical decimal form of an integer from 0 to
    2^32 - 2. An object enumerates its array indices first, in ascending
    numeric order, and its other property names after them, in the
    order of their creation. *)
Definition array_index (k : string) : option Z :=
  match parseInt k with
  | Some n =>
      if String.eqb (string_of_Z n) k && Z.leb 0 n && Z.leb n 4294967294
      then Some n else None
  | None => None
  end.

(** The array index [n], written [k], takes its place among the leading
    array indices of a property list in enumeration order. *)
Fixpoint insert_index (n : Z) (k : string) (v : JsVal) (props : Props) : Props :=
  match props with
  | [] => [(k, v)]
  | (k', v') :: rest =>
      match array_index k' with
      | Some n' =>
          if Z.eqb n n' then (k, v) :: rest
          else if Z.ltb n n' then (k, v) :: props
          else (k', v') :: insert_index n k v rest
      | None => (k, v) :: props
      end
  end.

(** CreateDataProperty on a property list in enumeration order: an
    existing property keeps its position and takes the new value; a new
    array index goes to its numeric place, any other new name to the
    end. *)
Definition define_property (k : string) (v : JsVal) (props : Props) : Props :=
  match array_index k with
  | Some n => insert_index n k v props
  | None => props_set k v props
  end.

End Js.

(** ** ApiService (src/assets/js/api.js) *)

Module Api.
Import Js.

(** *** Options, outcomes, transport *)

(** The [options] argument of [request]; [None] is an absent property. *)
Record Options : Type := mkOptions {
  opt_cacheKey : option string;
  opt_method : option string;
  opt_cacheTime : option Z;
  opt_retries : option Z;
  opt_retryDelay : option Z
}.

Definition no_options : Options := mkOptions None None None None None.

(** [x || d] on an optional string: absent and empty are falsy. *)
Definition or_string (x : option string) (d : string) : string :=
  match x with
  | Some s => if String.eqb s "" then d else s
  | None => d
  end.

(** [x || d] on an optional number: absent and zero are falsy. *)
Definition or_Z (x : option Z) (d : Z) : Z :=
  match x with
  | Some n => if Z.eqb n 0 then d else n
  | None => d
  end.

(** Truthiness of an optional number ([options.cacheTime]). *)
Definition truthy_Z (x : option Z) : bool :=
  match x with
  | Some n => negb (Z.eqb n 0)
  | None => false
  end.

(** How a promise settles: with a value, or with an [Error] of which only
    the [message] is observed. *)
Inductive Settled : Type :=
| Fulfilled (v : JsVal)
| Rejected (message : string).

(** What [response.text()] followed by [JSON.parse] gives: the read may
    reject, and a text is represented by its parse ([None]: the text is
    not JSON). *)
Inductive ResponseText : Type :=
| TextRejects (message : string)
| TextIs (parsed : option JsVal).

(** What one [fetch] gives: a rejection, or a response with its status. *)
Inductive FetchOutcome : Type :=
| FetchRejects (message : string)
| FetchResponds (status : Z) (statusText : string) (text : ResponseText).

(** [response.ok]: the status is in the range 200-299. *)
Definition response_ok (status : Z) : bool :=
  Z.leb 200 status && Z.leb status 299.

(** The environment of one [_makeRequest] run: the answer to the exchange
    of attempt number [attempt] carrying [body]. *)
Definition Transport : Type := Z -> string -> FetchOutcome.

(** The observable effects of a run, in order. *)
Inductive Event : Type :=
| EvFetch (url body : string)
| EvConsoleError (text message : string)
| EvSleep (ms : Z).

Definition baseUrl : string :=
  "https://script.google.com/macros/s/AKfycbyjlF8fcu-oXtSPB9MFgtjcRbt8BlheyqR22ADeeK0ijTsTt8oxLBiAB0GzJMzBy2fv-A/exec".

Definition apiKey : string := "MySuperSecretKeyForAutoPostr2025!".

(** *** _generateCacheKey (api.js 168-170) *)

Definition _generateCacheKey (endpoint : string) (data : Props) : string :=
  endpoint +:+ "_" +:+ JSON_stringify (JObj data).

(** *** _makeRequest (api.js 54-106) *)

(** The request body: [JSON.stringify({...data, action: endpoint})]. *)
Definition request_body (endpoint : string) (data : Props) : string :=
  JSON_stringify (JObj (props_set "action" (JStr endpoint) data)).

Definition request_url : string := baseUrl +:+ "?key=" +:+ apiKey.

(** The body of the [try] block (lines 60-93) once [fetch] has answered:
    [inr result] is the [return result], [inl message] the message of the
    error that reaches the [catch]. *)
Definition classify (answer : FetchOutcome) : string + JsVal :=
  match answer with
  | FetchRejects message => inl message
  | FetchResponds status statusText text =>
      if negb (response_ok status)
      then inl ("HTTP " +:+ string_of_Z status +:+ ": " +:+ statusText)
      else
        match text with
        | TextRejects message => inl message
        | TextIs None => inl "Invalid JSON response from server"
        | TextIs (Some result) =>
            match js_get result "success" with
            | None => inl (TypeError_read result "success")
            | Some success =>
                if negb (truthy success)
                then
                  let message := default JUndefined (js_get result "message") in
                  inl (if truthy message then ToString message else "Request failed")
                else inr result
            end
        end
  end.

(** The [for] loop at lines 58-105; [remaining] counts the iterations left
    ([attempt <= maxRetries] holds exactly while it is positive). When the
    loop runs out without returning or throwing, the function returns
    [undefined]. *)
Fixpoint retry_loop (T : Transport) (endpoint : string) (data : Props)
    (maxRetries retryDelay : Z) (remaining : nat) (attempt : Z)
    : Settled * list Event :=
  match remaining with
  | O => (Fulfilled JUndefined, [])
  | S remaining' =>
      let body := request_body endpoint data in
      let sent := EvFetch request_url body in
      match classify (T attempt body) with
      | inr result => (Fulfilled result, [sent])
      | inl message =>
          let logged :=
            EvConsoleError
              ("API Request failed (attempt " +:+ string_of_Z attempt +:+ "/"
               +:+ string_of_Z maxRetries +:+ "):") message in
          if Z.eqb attempt maxRetries
          then (Rejected ("API request failed after " +:+ string_of_Z maxRetries
                          +:+ " attempts: " +:+ message),
                [sent; logged])
          else
            let '(outcome, events) :=
              retry_loop T endpoint data maxRetries retryDelay remaining' (attempt + 1) in
            (outcome,
             sent :: logged :: EvSleep (retryDelay * 2 ^ (attempt - 1)) :: events)
      end
  end.

Definition _makeRequest (T : Transport) (endpoint : string) (data : Props)
    (method : string) (options : Options) : Settled * list Event :=
  let maxRetries := or_Z (opt_retries options) 3 in
  let retryDelay := or_Z (opt_retryDelay options) 1000 in
  retry_loop T endpoint data maxRetries retryDelay (Z.to_nat maxRetries) 1.

(** *** The override installed on the global instance (api.js 227-243)

    After [const API = new ApiService()], the file assigns
    [API._makeRequest] a wrapper that evaluates
    [originalRequest._makeRequest.apply(this, args)] inside a [try].
    [originalRequest] is [API.request.bind(API)], a function object with
    no [_makeRequest] property, so the evaluation throws the TypeError of
    reading [apply] on [undefined] before any exchange is made. The
    [catch] block shows a notification when the message contains one of
    three texts (it contains none) and rethrows. The class method above
    is what the properties of part II are about; this definition records
    what the wrapper computes instead. The second component is the
    notification shown, if any. *)
Definition instance_makeRequest (T : Transport) (endpoint : string) (data : Props)
    (method : string) (options : Options) : Settled * option string :=
  let message := TypeError_read JUndefined "apply" in
  let shown :=
    if includes message "Failed to fetch"
    then Some "Network error: Please check your internet connection"
    else if includes message "Invalid JSON"
    then Some "Server error: Please try again later"
    else if includes message "API request failed"
    then Some "Service temporarily unavailable"
    else None in
  (Rejected message, shown).

(** *** The service state and [request] (api.js 17-49)

    [request] and [_makeRequest] are [async]: a call runs synchronously up
    to its first [await] and is resumed when the awaited promise settles.
    The state below records the two maps of the service, the promises
    returned by [_makeRequest], and the callers suspended on them.  A
    [_makeRequest] run touches neither map, so its whole course is
    determined by the transport it meets; the run is therefore taken in
    one step, [settle], at the moment its promise settles, and its effects
    are logged then. The reactions of the callers suspended on the promise
    are microtasks: they run, in the order in which they were registered
    (the call that started the run first), before any timer callback or
    transport answer is processed, so they belong to the same step. *)

Abbreviation PromiseId := nat.
Abbreviation CallId := nat.

(** A caller suspended on the promise of a run: the call that started the
    run is suspended at [await requestPromise] (line 35) and still has
    lines 37-47 to execute; a call that found the key in [requestQueue]
    returned that promise (line 28) and adopts its outcome. *)
Inductive Waiter : Type :=
| Originator (c : CallId) (cacheKey method : string) (options : Options)
| Follower (c : CallId).

Definition waiter_call (w : Waiter) : CallId :=
  match w with
  | Originator c _ _ _ => c
  | Follower c => c
  end.

(** A [_makeRequest] run in flight: its arguments and its waiters. *)
Record Run : Type := mkRun {
  run_endpoint : string;
  run_data : Props;
  run_method : string;
  run_options : Options;
  run_waiters : list Waiter
}.

Inductive PromiseState : Type :=
| Pending (r : Run)
| Done (outcome : Settled).

Record ApiState : Type := mkApi {
  cache : gmap string JsVal;            (* this.cache *)
  requestQueue : gmap string PromiseId; (* this.requestQueue *)
  promises : gmap PromiseId PromiseState;
  next_promise : PromiseId;
  timers : list (Z * string);           (* pending setTimeout evictions: due time, key *)
  now : Z;                              (* the clock, in ms *)
  settled : gmap CallId Settled;        (* outcome of each settled call to request *)
  next_call : CallId;
  network : list (PromiseId * Event)    (* effects of the settled runs, tagged by run *)
}.

(** The state after the constructor (lines 7-12). *)
Definition init : ApiState :=
  mkApi ∅ ∅ ∅ 0%nat [] 0 ∅ 0%nat [].

Definition set_cache (f : gmap string JsVal -> gmap string JsVal) (st : ApiState) : ApiState :=
  mkApi (f (cache st)) (requestQueue st) (promises st) (next_promise st)
        (timers st) (now st) (settled st) (next_call st) (network st).

Definition set_requestQueue (f : gmap string PromiseId -> gmap string PromiseId)
    (st : ApiState) : ApiState :=
  mkApi (cache st) (f (requestQueue st)) (promises st) (next_promise st)
        (timers st) (now st) (settled st) (next_call st) (network st).

Definition set_promises (f : gmap PromiseId PromiseState -> gmap PromiseId PromiseState)
    (st : ApiState) : ApiState :=
  mkApi (cache st) (requestQueue st) (f (promises st)) (next_promise st)
        (timers st) (now st) (settled st) (next_call st) (network st).

Definition set_timers (f : list (Z * string) -> list (Z * string)) (st : ApiState) : ApiState :=
  mkApi (cache st) (requestQueue st) (promises st) (next_promise st)
        (f (timers st)) (now st) (settled st) (next_call st) (network st).

Definition set_settled (f : gmap CallId Settled -> gmap CallId Settled) (st : ApiState) : ApiState :=
  mkApi (cache st) (requestQueue st) (promises st) (next_promise st)
        (timers st) (now st) (f (settled st)) (next_call st) (network st).

(** The key and the method a call works with (lines 18-19). *)
Definition call_key (endpoint : string) (data : Props) (options : Options) : string :=
  or_string (opt_cacheKey options) (_generateCacheKey endpoint data).

Definition call_method (options : Options) : string :=
  or_string (opt_method options) "POST".

(** The cache lookup at lines 22-24: [Some v] when the call is answered
    from the cache. *)
Definition cache_hit (st : ApiState) (cacheKey method : string) : option JsVal :=
  if String.eqb method "GET" then cache st !! cacheKey else None.

(** [request], up to its first suspension (lines 18-35). The call gets the
    identifier [next_call st]. *)
Definition request (endpoint : string) (data : Props) (options : Options)
    (st : ApiState) : ApiState :=
  let c := next_call st in
  let cacheKey := call_key endpoint data options in
  let method := call_method options in
  let st0 :=
    mkApi (cache st) (requestQueue st) (promises st) (next_promise st)
          (timers st) (now st) (settled st) (S c) (network st) in
  match cache_hit st cacheKey method with
  | Some v => set_settled (insert c (Fulfilled v)) st0
  | None =>
      match requestQueue st !! cacheKey with
      | Some p =>
          match promises st !! p with
          | Some (Pending r) =>
              set_promises
                (insert p (Pending (mkRun (run_endpoint r) (run_data r) (run_method r)
                                          (run_options r)
                                          (run_waiters r ++ [Follower c]))))
                st0
          | Some (Done outcome) => set_settled (insert c outcome) st0
          | None => st0
          end
      | None =>
          let p := next_promise st in
          let r := mkRun endpoint data method options
                         [Originator c cacheKey method options] in
          mkApi (cache st) (<[cacheKey := p]> (requestQueue st))
                (<[p := Pending r]> (promises st)) (S p)
                (timers st) (now st) (settled st) (S c) (network st)
      end
  end.

(** The delay [setTimeout] works with in a browser (HTML, timer
    initialisation steps): the argument is converted to a signed 32-bit
    integer, modulo 2^32, and a negative result counts as 0. From 0 to
    2^31 - 1 the delay is the argument. *)
Definition ToInt32 (n : Z) : Z := (n + 2147483648) mod 4294967296 - 2147483648.

Definition setTimeout_delay (ms : Z) : Z := Z.max 0 (ToInt32 ms).

(** The reaction of one waiter to the outcome of its promise. For the
    originator this is lines 35-47: on success, a [GET] call with a truthy
    [cacheTime] stores the result and schedules its eviction; in either
    case the [finally] block removes the key from [requestQueue]. *)
Definition notify (outcome : Settled) (st : ApiState) (w : Waiter) : ApiState :=
  match w with
  | Follower c => set_settled (insert c outcome) st
  | Originator c cacheKey method options =>
      let st1 :=
        match outcome with
        | Fulfilled result =>
            if String.eqb method "GET" && truthy_Z (opt_cacheTime options)
            then
              set_timers
                (fun ts => ts ++ [(now st + setTimeout_delay (default 0 (opt_cacheTime options)),
                                   cacheKey)])
                (set_cache (insert cacheKey result) st)
            else st
        | Rejected _ => st
        end in
      set_requestQueue (delete cacheKey) (set_settled (insert c outcome) st1)
  end.

(** Whether the originator's continuation stores the result (the test of
    line 38, reached only on success). *)
Definition stores (method : string) (options : Options) (outcome : Settled) : option JsVal :=
  match outcome with
  | Fulfilled result =>
      if String.eqb method "GET" && truthy_Z (opt_cacheTime options) then Some result
      else None
  | Rejected _ => None
  end.

(** The run behind promise [p] meets transport [T] and settles. *)
Definition settle (p : PromiseId) (T : Transport) (st : ApiState) : ApiState :=
  match promises st !! p with
  | Some (Pending r) =>
      let '(outcome, events) :=
        _makeRequest T (run_endpoint r) (run_data r) (run_method r) (run_options r) in
      let st1 :=
        mkApi (cache st) (requestQueue st) (<[p := Done outcome]> (promises st))
              (next_promise st) (timers st) (now st) (settled st) (next_call st)
              (network st ++ map (pair p) events) in
      foldl (notify outcome) st1 (run_waiters r)
  | _ => st
  end.

(** The eviction callback of the [i]-th pending timer (lines 40-42); it
    cannot run before its delay has elapsed. *)
Definition fire_timer (i : nat) (st : ApiState) : ApiState :=
  match timers st !! i with
  | Some (due, cacheKey) =>
      if Z.leb due (now st)
      then set_timers (fun ts => take i ts ++ drop (S i) ts)
                      (set_cache (delete cacheKey) st)
      else st
  | None => st
  end.

(** Time passes. *)
Definition advance (dt : Z) (st : ApiState) : ApiState :=
  mkApi (cache st) (requestQueue st) (promises st) (next_promise st)
        (timers st) (now st + Z.max 0 dt) (settled st) (next_call st) (network st).

(** *** clearUserCache and clearCache (api.js 179-196) *)

Definition cache_clearUserCache (email : string) (c : gmap string JsVal)
    : gmap string JsVal :=
  let keysToDelete := filter (fun key => includes key email = true)
                             (map fst (map_to_list c)) in
  foldl (fun m key => delete key m) c keysToDelete.

Definition clearUserCache (email : string) (st : ApiState) : ApiState :=
  set_cache (cache_clearUserCache email) st.

Definition clearCache (st : ApiState) : ApiState :=
  set_cache (fun _ => ∅) st.

(** *** The named operations used by auth.js (api.js 111-125) *)

Definition registerUser (userData : Props) (st : ApiState) : ApiState :=
  request "user.register" userData no_options st.

Definition loginUser (email : JsVal) (st : ApiState) : ApiState :=
  request "user.login" [("email", email)] no_options st.

Definition getUserProfile_options (email : string) : Options :=
  mkOptions (Some ("profile_" +:+ email)) (Some "GET") (Some 60000) None None.

Definition getUserProfile (email : string) (st : ApiState) : ApiState :=
  request "user.profile" [("email", JStr email)] (getUserProfile_options email) st.

(** *** The other named operations (api.js 127-163) *)

Definition saveToken (tokenData : Props) (st : ApiState) : ApiState :=
  request "token.save" tokenData no_options st.

Definition getUserTokens_options (email : string) : Options :=
  mkOptions (Some ("tokens_" +:+ email)) (Some "GET") (Some 30000) None None.

Definition getUserTokens (email : string) (st : ApiState) : ApiState :=
  request "token.list" [("email", JStr email)] (getUserTokens_options email) st.

Definition schedulePost (postData : Props) (st : ApiState) : ApiState :=
  request "post.create" postData no_options st.

(** [{...src}] spread into an object that already has the properties
    [dst]: each property of [src] is defined on it in turn. *)
Definition spread (src dst : Props) : Props :=
  foldl (fun o kv => define_property (fst kv) (snd kv) o) dst src.

Definition getUserPosts_options (email : string) (filters : Props) : Options :=
  mkOptions (Some ("posts_" +:+ email +:+ "_" +:+ JSON_stringify (JObj filters)))
            (Some "GET") (Some 30000) None None.

Definition getUserPosts (email : string) (filters : Props) (st : ApiState) : ApiState :=
  request "post.list" (spread filters [("email", JStr email)])
          (getUserPosts_options email filters) st.

Definition getUserStats_options (email : string) : Options :=
  mkOptions (Some ("stats_" +:+ email)) (Some "GET") (Some 30000) None None.

Definition getUserStats (email : string) (st : ApiState) : ApiState :=
  request "post.stats" [("email", JStr email)] (getUserStats_options email) st.

(** *** The request interceptor of the global instance (api.js 215-225)

    [API.request] is replaced by a wrapper that, when [localStorage] holds
    a truthy [userEmail] and the payload has no truthy [email], assigns
    [data.email = userEmail] and then calls the original [request]. *)
Definition intercept_data (userEmail : option string) (data : Props) : Props :=
  match userEmail with
  | Some e =>
      if negb (String.eqb e "")
         && negb (truthy (default JUndefined (props_get "email" data)))
      then props_set "email" (JStr e) data
      else data
  | None => data
  end.

Definition instance_request (localStorage : gmap string string)
    (endpoint : string) (data : Props) (options : Options) (st : ApiState) : ApiState :=
  request endpoint (intercept_data (localStorage !! "userEmail") data) options st.

(** *** Histories *)

Inductive Action : Type :=
| ACall (endpoint : string) (data : Props) (options : Options)
| ASettle (p : PromiseId) (T : Transport)
| ATimer (i : nat)
| AAdvance (dt : Z)
| AClearUserCache (email : string)
| AClearCache.

Definition step (st : ApiState) (a : Action) : ApiState :=
  match a with
  | ACall endpoint data options => request endpoint data options st
  | ASettle p T => settle p T st
  | ATimer i => fire_timer i st
  | AAdvance dt => advance dt st
  | AClearUserCache email => clearUserCache email st
  | AClearCache => clearCache st
  end.

Definition run (st : ApiState) (acts : list Action) : ApiState :=
  foldl step st acts.

Definition reachable (st : ApiState) : Prop :=
  exists acts, st = run init acts.

(** [n] calls with the same arguments, one after the other, with nothing
    in between. *)
Fixpoint request_n (n : nat) (endpoint : string) (data : Props) (options : Options)
    (st : ApiState) : ApiState :=
  match n with
  | O => st
  | S n' => request endpoint data options (request_n n' endpoint data options st)
  end.

(** The outcome and the effects of the run behind a pending promise, were
    it to meet transport [T]. *)
Definition run_result (T : Transport) (r : Run) : Settled * list Event :=
  _makeRequest T (run_endpoint r) (run_data r) (run_method r) (run_options r).

(** *** The shape of reachable states *)

Definition is_follower (w : Waiter) : Prop :=
  match w with
  | Follower _ => True
  | Originator _ _ _ _ => False
  end.

(** The run was started by a call working under [cacheKey]: its first
    waiter is that call, suspended at line 35, and all others joined
    through [requestQueue]. *)
Definition originated (r : Run) (cacheKey : string) : Prop :=
  exists c method options followers,
    run_waiters r = Originator c cacheKey method options :: followers /\
    Forall is_follower followers.

(** [requestQueue] holds exactly the runs in flight, each under the key of
    the call that started it; promise identifiers are allocated in order. *)
Record wf (st : ApiState) : Prop := mk_wf {
  wf_queue : forall k p,
    requestQueue st !! k = Some p ->
    exists r, promises st !! p = Some (Pending r) /\ originated r k;
  wf_pending : forall p r,
    promises st !! p = Some (Pending r) ->
    exists k, originated r k /\ requestQueue st !! k = Some p;
  wf_fresh : forall p, is_Some (promises st !! p) -> (p < next_promise st)%nat
}.


(** [call] waits for the promise [p]. *)
Definition waiting (st : ApiState) (call : CallId) (p : PromiseId) : Prop :=
  exists r, promises st !! p = Some (Pending r) /\
            call ∈ map waiter_call (run_waiters r).

(** Every call made so far has settled or waits for a run in flight. *)
Definition tracked (st : ApiState) : Prop :=
  forall call, (call < next_call st)%nat ->
    is_Some (settled st !! call) \/ exists p, waiting st call p.

(** Call identifiers are used once: a settled call and a waiting call
    were both made already, a waiting call has no outcome yet, and it
    waits for one promise only. *)
Record ids_ok (st : ApiState) : Prop := mk_ids_ok {
  ids_settled : forall call, is_Some (settled st !! call) -> (call < next_call st)%nat;
  ids_waiting : forall call p, waiting st call p ->
    (call < next_call st)%nat /\ settled st !! call = None;
  ids_one_promise : forall call p p', waiting st call p -> waiting st call p' -> p = p'
}.

(** An action other than the settlement of promise [p]. *)
Definition leaves_pending (p : PromiseId) (a : Action) : Prop :=
  match a with
  | ASettle p' _ => p' <> p
  | _ => True
  end.


(** The exchanges ([fetch] calls) among a list of effects. *)
Definition is_fetch (e : Event) : bool :=
  match e with
  | EvFetch _ _ => true
  | _ => false
  end.

Definition exchanges (events : list Event) : nat :=
  length (filter (fun e => is_fetch e = true) events).

Definition sleeps (events : list Event) : list Z :=
  flat_map (fun e => match e with EvSleep ms => [ms] | _ => [] end) events.

Definition total (waits : list Z) : Z := foldr Z.add 0 waits.

(** The effects of one failed attempt that is followed by another one:
    the exchange, the console line, the backoff wait. *)
Definition failed_attempt (endpoint : string) (data : Props)
    (maxRetries retryDelay attempt : Z) (message : string) : list Event :=
  [EvFetch request_url (request_body endpoint data);
   EvConsoleError
     ("API Request failed (attempt " +:+ string_of_Z attempt +:+ "/"
      +:+ string_of_Z maxRetries +:+ "):") message;
   EvSleep (retryDelay * 2 ^ (attempt - 1))].

(** The retry policy a call runs under (lines 55-56). *)
Definition maxRetries_of (options : Options) : Z := or_Z (opt_retries options) 3.
Definition retryDelay_of (options : Options) : Z := or_Z (opt_retryDelay options) 1000.

(** The message of the error thrown at line 99. *)
Definition exhausted_message (maxRetries : Z) (cause : string) : string :=
  "API request failed after " +:+ string_of_Z maxRetries +:+ " attempts: " +:+ cause.

End Api.

(** ** AuthService (src/assets/js/auth.js) *)

Module Auth.
Import Js Api.

(** [this.sessionTimeout] (line 9): 24 hours in ms. *)
Definition sessionTimeout : Z := 24 * 60 * 60 * 1000.

(** Effects on the page and on the API service, in order. *)
Inductive Effect : Type :=
| ShowLoading (element : string)
| HideLoading (element : string)
| ShowNotification (message kind : string)
| ConsoleError (text message : string)
| ApiClearCache
| Redirect (href : string).

(** The session: [this.currentUser] ([JNull] when absent) and the
    persistent key-value store. *)
Record AuthState : Type := mkAuth {
  currentUser : JsVal;
  localStorage : gmap string string;
  effects : list Effect
}.

Definition add_effect (e : Effect) (st : AuthState) : AuthState :=
  mkAuth (currentUser st) (localStorage st) (effects st ++ [e]).

(** What [login] and [register] return: [{success: true, user}] or
    [{success: false, error}]. *)
Inductive AuthResult : Type :=
| AuthSuccess (user : JsVal)
| AuthFailure (error : string).

(** [_setUserSession] (lines 131-138) at time [now]. The second component
    is the message of the TypeError thrown by [user.email] when [user] is
    [undefined] or [null]; the assignment to [currentUser] has happened
    by then. *)
Definition _setUserSession (user : JsVal) (now : Z) (st : AuthState)
    : AuthState * option string :=
  let expiry := now + sessionTimeout in
  match js_get user "email" with
  | None => (mkAuth user (localStorage st) (effects st), Some (TypeError_read user "email"))
  | Some email =>
      (mkAuth user
              (<["sessionExpiry" := string_of_Z expiry]>
                 (<["userData" := JSON_stringify user]>
                    (<["userEmail" := ToString email]> (localStorage st))))
              (effects st),
       None)
  end.

(** [login] (lines 25-45), given how [API.loginUser(email)] settles and the
    time at which it does. *)
Definition login (email : string) (now : Z) (api : Settled) (st : AuthState)
    : AuthState * AuthResult :=
  let st0 := add_effect (ShowLoading "loginBtn") st in
  let '(st1, completion) :=
    match api with
    | Rejected message => (st0, inl message)
    | Fulfilled result =>
        match js_get result "success" with
        | None => (st0, inl (TypeError_read result "success"))
        | Some success =>
            if truthy success
            then
              let user := default JUndefined (js_get result "user") in
              match _setUserSession user now st0 with
              | (st', Some message) => (st', inl message)
              | (st', None) =>
                  (add_effect (ShowNotification "Login successful!" "success") st',
                   inr user)
              end
            else
              (st0, inl (Error_message (default JUndefined (js_get result "message"))))
        end
    end in
  match completion with
  | inr user => (add_effect (HideLoading "loginBtn") st1, AuthSuccess user)
  | inl message =>
      (add_effect (HideLoading "loginBtn")
         (add_effect (ShowNotification message "error")
            (add_effect (ConsoleError "Login error:" message) st1)),
       AuthFailure message)
  end.

(** [register] (lines 50-70), given how [API.registerUser(userData)]
    settles. *)
Definition register (userData : Props) (now : Z) (api : Settled) (st : AuthState)
    : AuthState * AuthResult :=
  let st0 := add_effect (ShowLoading "signupBtn") st in
  let '(st1, completion) :=
    match api with
    | Rejected message => (st0, inl message)
    | Fulfilled result =>
        match js_get result "success" with
        | None => (st0, inl (TypeError_read result "success"))
        | Some success =>
            if truthy success
            then
              let user := default JUndefined (js_get result "user") in
              match _setUserSession user now st0 with
              | (st', Some message) => (st', inl message)
              | (st', None) =>
                  (add_effect
                     (ShowNotification "Registration successful! Welcome to AutoPostr."
                                       "success") st',
                   inr user)
              end
            else
              (st0, inl (Error_message (default JUndefined (js_get result "message"))))
        end
    end in
  match completion with
  | inr user => (add_effect (HideLoading "signupBtn") st1, AuthSuccess user)
  | inl message =>
      (add_effect (HideLoading "signupBtn")
         (add_effect (ShowNotification message "error")
            (add_effect (ConsoleError "Registration error:" message) st1)),
       AuthFailure message)
  end.

(** [logout] (lines 75-85). *)
Definition logout (st : AuthState) : AuthState :=
  mkAuth JNull
         (delete "sessionExpiry" (delete "userData" (delete "userEmail" (localStorage st))))
         (effects st ++ [ApiClearCache; Redirect "login.html"]).

(** [refreshUserData] (lines 115-126), given how
    [API.getUserProfile(this.currentUser.email)] settles. When
    [currentUser] is falsy the function returns at line 116 without
    making the call. *)
Definition refreshUserData (now : Z) (api : Settled) (st : AuthState) : AuthState :=
  if negb (truthy (currentUser st)) then st
  else
    let failed st' message :=
      add_effect (ConsoleError "Failed to refresh user data:" message) st' in
    match api with
    | Rejected message => failed st message
    | Fulfilled result =>
        match js_get result "success" with
        | None => failed st (TypeError_read result "success")
        | Some success =>
            if truthy success
            then
              let profile := default JUndefined (js_get result "profile") in
              match js_get profile "user" with
              | None => failed st (TypeError_read profile "user")
              | Some user =>
                  match _setUserSession user now st with
                  | (st', Some message) => failed st' message
                  | (st', None) => st'
                  end
              end
            else st
        end
    end.

(** [_isSessionExpired] (lines 150-155) at time [now]: a missing or empty
    expiry is expired; otherwise [Date.now() > parseInt(expiry)], which is
    false when [parseInt] gives [NaN]. *)
Definition _isSessionExpired (now : Z) (st : AuthState) : bool :=
  match localStorage st !! "sessionExpiry" with
  | None => true
  | Some expiry =>
      if String.eqb expiry "" then true
      else
        match parseInt expiry with
        | Some e => Z.ltb e now
        | None => false
        end
  end.

(** [isAuthenticated] (lines 90-92). *)
Definition isAuthenticated (now : Z) (st : AuthState) : bool :=
  truthy (currentUser st) && negb (_isSessionExpired now st).

(** [getCurrentUser] (lines 97-99). *)
Definition getCurrentUser (st : AuthState) : JsVal := currentUser st.

(** [requireAuth] (lines 104-110). *)
Definition requireAuth (now : Z) (st : AuthState) : AuthState * bool :=
  if negb (isAuthenticated now st) then (logout st, false) else (st, true).

(** [_checkSessionExpiry] (lines 157-162). *)
Definition _checkSessionExpiry (now : Z) (st : AuthState) : AuthState :=
  if _isSessionExpired now st && truthy (currentUser st)
  then
    logout (add_effect
              (ShowNotification "Your session has expired. Please login again." "warning")
              st)
  else st.

(** The callback of the refresh interval (lines 166-170), given how the
    profile call would settle. *)
Definition refresh_tick (now : Z) (api : Settled) (st : AuthState) : AuthState :=
  if isAuthenticated now st then refreshUserData now api st else st.

Section Restore.

(** [JSON.parse], a built-in: [None] is the SyntaxError it throws. *)
Variable JSON_parse : string -> option JsVal.

(** [_loadUserFromStorage] (lines 140-148): [None] when [JSON.parse]
    throws. [getItem] gives [null] for a missing key, and an empty
    string is falsy too. *)
Definition _loadUserFromStorage (st : AuthState) : option AuthState :=
  let present k :=
    match localStorage st !! k with
    | Some x => negb (String.eqb x "")
    | None => false
    end in
  if present "userEmail" && present "userData" && present "sessionExpiry"
  then
    match JSON_parse (default "" (localStorage st !! "userData")) with
    | Some user => Some (mkAuth user (localStorage st) (effects st))
    | None => None
    end
  else Some st.

(** The constructor and [init] (lines 7-20) over the stored fields, at
    time [now]; the two intervals it installs are [refresh_tick] and
    [_checkSessionExpiry]. *)
Definition construct (storage : gmap string string) (now : Z) : option AuthState :=
  match _loadUserFromStorage (mkAuth JNull storage []) with
  | Some st => Some (_checkSessionExpiry now st)
  | None => None
  end.

End Restore.

(** The persisted expiry, as stored. *)
Definition sessionExpiry (st : AuthState) : option string :=
  localStorage st !! "sessionExpiry".

(** Histories of the session. *)
Inductive Action : Type :=
| ALogin (email : string) (now : Z) (api : Settled)
| ARegister (userData : Props) (now : Z) (api : Settled)
| ARefresh (now : Z) (api : Settled)
| ALogout.

Definition step (st : AuthState) (a : Action) : AuthState :=
  match a with
  | ALogin email now api => fst (login email now api st)
  | ARegister userData now api => fst (register userData now api st)
  | ARefresh now api => refreshUserData now api st
  | ALogout => logout st
  end.

Definition run (st : AuthState) (acts : list Action) : AuthState :=
  foldl step st acts.

(** The time ([Date.now()]) at which an action would write the session. *)
Definition action_time (a : Action) : option Z :=
  match a with
  | ALogin _ now _ | ARegister _ now _ | ARefresh now _ => Some now
  | ALogout => None
  end.

(** The state after the constructor when nothing is persisted. *)
Definition anonymous : AuthState := mkAuth JNull ∅ [].

End Auth.

(** ** Utils (src/assets/js/utils.js) *)

Module Utils.
Import Js.

(** [text.substring(0, n)]: a negative [n] counts as 0, an [n] beyond the
    end as the length. *)
Definition substring_to (n : Z) (text : string) : string :=
  String.substring 0 (Z.to_nat n) text.

(** [truncateText] (lines 95-98) on a string. *)
Definition truncateText (text : string) (maxLength : Z) : string :=
  if String.eqb text "" || Z.leb (Z.of_nat (String.length text)) maxLength
  then text
  else substring_to (maxLength - 3) text +:+ "...".

(** [formatRelativeTime] (lines 28-44). The difference [now - date] in
    ms comes from the [Date] built-in ([None]: the date string is not a
    date, the difference is [NaN]); [formatDate] is the function of
    lines 10-23, whose output depends on the locale. *)
Definition formatRelativeTime (formatDate : string -> string) (dateString : string)
    (diffMs : option Z) : string :=
  if String.eqb dateString "" then "N/A"
  else
    match diffMs with
    | None => formatDate dateString
    | Some d =>
        let diffMins := d / 60000 in
        let diffHours := d / 3600000 in
        let diffDays := d / 86400000 in
        if Z.ltb diffMins 1 then "Just now"
        else if Z.ltb diffMins 60 then string_of_Z diffMins +:+ " min ago"
        else if Z.ltb diffHours 24 then string_of_Z diffHours +:+ " hr ago"
        else if Z.ltb diffDays 7
        then string_of_Z diffDays +:+ " day" +:+ (if Z.ltb 1 diffDays then "s" else "")
             +:+ " ago"
        else formatDate dateString
    end.

(** *** Regular expressions, as [RegExp.prototype.test] with [^...$]
    applies them to a whole string *)

Inductive regex : Type :=
| Never
| Eps
| Class (f : ascii -> bool)
| Cat (r1 r2 : regex)
| Alt (r1 r2 : regex)
| Star (r : regex).

(** [r+] *)
Definition Plus (r : regex) : regex := Cat r (Star r).

Fixpoint nullable (r : regex) : bool :=
  match r with
  | Never => false
  | Eps => true
  | Class _ => false
  | Cat r1 r2 => nullable r1 && nullable r2
  | Alt r1 r2 => nullable r1 || nullable r2
  | Star _ => true
  end.

Fixpoint deriv (c : ascii) (r : regex) : regex :=
  match r with
  | Never => Never
  | Eps => Never
  | Class f => if f c then Eps else Never
  | Cat r1 r2 =>
      if nullable r1 then Alt (Cat (deriv c r1) r2) (deriv c r2)
      else Cat (deriv c r1) r2
  | Alt r1 r2 => Alt (deriv c r1) (deriv c r2)
  | Star r1 => Cat (deriv c r1) (Star r1)
  end.

(** The whole of [s] matches [r]. *)
Fixpoint test (r : regex) (s : string) : bool :=
  match s with
  | EmptyString => nullable r
  | String c rest => test (deriv c r) rest
  end.

(** [[^\s@]]: a code unit that is neither white space nor [@]. *)
Definition not_space_at (c : ascii) : bool :=
  negb (is_whitespace c) && negb (Ascii.eqb c "@").

(** [/^[^\s@]+@[^\s@]+\.[^\s@]+$/] (line 50). *)
Definition emailRegex : regex :=
  Cat (Plus (Class not_space_at))
      (Cat (Class (Ascii.eqb "@"))
           (Cat (Plus (Class not_space_at))
                (Cat (Class (Ascii.eqb "."))
                     (Plus (Class not_space_at))))).

(** [isValidEmail] (lines 49-52). *)
Definition isValidEmail (email : string) : bool := test emailRegex email.

(** The strings a regular expression denotes. *)
Inductive Matches : regex -> string -> Prop :=
| MEps : Matches Eps ""
| MClass f c : f c = true -> Matches (Class f) (String c "")
| MCat r1 r2 s1 s2 :
    Matches r1 s1 -> Matches r2 s2 -> Matches (Cat r1 r2) (s1 +:+ s2)
| MAltL r1 r2 s : Matches r1 s -> Matches (Alt r1 r2) s
| MAltR r1 r2 s : Matches r2 s -> Matches (Alt r1 r2) s
| MStar0 r : Matches (Star r) ""
| MStarS r s1 s2 :
    Matches r s1 -> Matches (Star r) s2 -> Matches (Star r) (s1 +:+ s2).

Fixpoint all_chars (f : ascii -> bool) (s : string) : bool :=
  match s with
  | EmptyString => true
  | String c rest => f c && all_chars f rest
  end.

Fixpoint count_char (c : ascii) (s : string) : nat :=
  match s with
  | EmptyString => O
  | String d rest => (if Ascii.eqb d c then 1 else 0) + count_char c rest
  end.

(** A non-empty run of code units that are neither white space nor [@]. *)
Definition word (w : string) : bool :=
  negb (String.eqb w "") && all_chars not_space_at w.

(** Every character class of [r] takes the same value on a code unit
    and on its lower-case form. *)
Fixpoint case_blind (r : regex) : Prop :=
  match r with
  | Never | Eps => True
  | Class f => forall c, f (lower_char c) = f c
  | Cat r1 r2 | Alt r1 r2 => case_blind r1 /\ case_blind r2
  | Star r1 => case_blind r1
  end.

End Utils.

(** ** The login and signup pages (src/assets/js/login.js, signup.js) *)

(** What a validation run has done so far: the flag [isValid] and the
    calls of [showError], oldest first. *)
Record Validation : Type := mkValidation {
  isValid : bool;
  shown : list (string * string)
}.

Definition valid_so_far : Validation := mkValidation true [].

(** [this.showError(field, message); isValid = false;] *)
Definition showError (field message : string) (v : Validation) : Validation :=
  mkValidation false (shown v ++ [(field, message)]).

(** The notification [validateForm] ends with when [isValid] is false. *)
Definition notification (v : Validation) : option string :=
  if isValid v then None else Some "Please fix the errors above".

Module Login.
Import Js Utils.

(** [LoginPage.validateForm] (lines 63-84) on the text of the email
    input. *)
Definition validateForm (emailValue : string) : Validation :=
  let email := trim emailValue in
  let v := valid_so_far in
  if String.eqb email ""
  then showError "email" "Email address is required" v
  else if negb (isValidEmail email)
  then showError "email" "Please enter a valid email address" v
  else v.

(** [LoginPage.handleLogin] (lines 38-61) up to its call of
    [Auth.login]: the argument of that call, if it is made. *)
Definition handleLogin_email (emailValue : string) : option string :=
  if negb (isValid (validateForm emailValue)) then None
  else Some (toLowerCase (trim emailValue)).

End Login.

Module Signup.
Import Js Utils.

(** The name checks of [SignupPage.validateForm] (lines 94-104). *)
Definition check_name (name : string) (v : Validation) : Validation :=
  if String.eqb name ""
  then showError "name" "Full name is required" v
  else if Nat.ltb (String.length name) 2
  then showError "name" "Name must be at least 2 characters long" v
  else if Nat.ltb 100 (String.length name)
  then showError "name" "Name must be less than 100 characters" v
  else v.

(** The email checks (lines 106-113). *)
Definition check_email (email : string) (v : Validation) : Validation :=
  if String.eqb email ""
  then showError "email" "Email address is required" v
  else if negb (isValidEmail email)
  then showError "email" "Please enter a valid email address" v
  else v.

(** The terms check (lines 115-119). *)
Definition check_terms (agreedToTerms : bool) (v : Validation) : Validation :=
  if negb agreedToTerms
  then showError "terms" "You must agree to the terms and conditions" v
  else v.

(** [SignupPage.validateForm] (lines 84-126) on the texts of the two
    inputs and the state of the checkbox. *)
Definition validateForm (nameValue emailValue : string) (checked : bool) : Validation :=
  let name := trim nameValue in
  let email := trim emailValue in
  let agreedToTerms := checked in
  check_terms agreedToTerms (check_email email (check_name name valid_so_far)).

(** [SignupPage.handleSignup] (lines 51-82) up to its call of
    [Auth.register]: the [userData] of that call, if it is made. *)
Definition handleSignup_userData (nameValue emailValue : string) (checked : bool)
    : option (string * string) :=
  if negb (isValid (validateForm nameValue emailValue checked)) then None
  else Some (trim nameValue, toLowerCase (trim emailValue)).

End Signup.

(** ** Concrete inputs used by the examples below *)

Module Scenario.
Import Js Api.

Definition alice : Props := [("email", JStr "a@b.com")].

Definition alice_user : JsVal :=
  JObj [("email", JStr "a@b.com"); ("plan", JStr "free")].

Definition ok_body : JsVal :=
  JObj [("success", JBool true); ("user", alice_user)].

Definition denied_body : JsVal :=
  JObj [("success", JBool false); ("message", JStr "User not found")].

Definition answers_ok : FetchOutcome := FetchResponds 200 "OK" (TextIs (Some ok_body)).

(** A transport that fails every exchange with a server error. *)
Definition always_fails : Transport :=
  fun _ _ => FetchResponds 500 "Internal Server Error" (TextIs None).

(** A transport on which the first two exchanges of a run fail. *)
Definition fails_twice : Transport :=
  fun attempt _ => if Z.ltb attempt 3 then FetchRejects "Failed to fetch" else answers_ok.

(** A transport on which the first exchange of a run fails. *)
Definition fails_once : Transport :=
  fun attempt _ => if Z.ltb attempt 2 then FetchRejects "Failed to fetch" else answers_ok.

Definition always_ok : Transport := fun _ _ => answers_ok.

(** Two registration payloads with the same properties, written in a
    different order: [{email: ..., name: ...}] and [{name: ..., email: ...}]. *)
Definition signup_email_first : Props := [("email", JStr "a@b.com"); ("name", JStr "Al")].
Definition signup_name_first : Props := [("name", JStr "Al"); ("email", JStr "a@b.com")].

(** The body of a successful [user.profile] answer. *)
Definition profile_body : JsVal :=
  JObj [("success", JBool true); ("profile", JObj [("user", alice_user)])].

(** The session right after a successful login at time 0. *)
Definition logged_in : Auth.AuthState :=
  fst (Auth.login "a@b.com" 0 (Fulfilled ok_body) Auth.anonymous).

(** A service with one [user.login] call in flight. *)
Definition login_pending : ApiState := request "user.login" alice no_options init.

(** The profile of a@b.com is fetched and cached at time 0; the cache is
    cleared at time 59000 and the profile fetched and cached again; at
    time 60000 the eviction timer of the first entry fires. *)
Definition refetched : ApiState :=
  settle 1%nat always_ok
    (getUserProfile "a@b.com"
       (clearCache (advance 59000 (settle 0%nat always_ok (getUserProfile "a@b.com" init))))).

Definition stale_timer_fired : ApiState := fire_timer 0 (advance 1000 refetched).



(** A service with one [user.profile] call in flight. *)
Definition profile_pending : ApiState := getUserProfile "a@b.com" init.

(** A stand-in for [JSON.parse] that knows one text, the serialisation of
    [alice_user]. *)
Definition parse_alice (text : string) : option JsVal :=
  if String.eqb text (JSON_stringify alice_user) then Some alice_user else None.

(** A service whose cache holds one entry, for another user. *)
Definition one_cached : ApiState :=
  set_cache (insert "stats_c@d.com" (JObj [("success", JBool true)])) init.

(** A backend that answers every exchange with [success: false]. *)
Definition always_denies : Transport :=
  fun _ _ => FetchResponds 200 "OK" (TextIs (Some denied_body)).

End Scenario.

(* ===================================================================== *)
(** * Part II: properties                                                  *)
(* ===================================================================== *)

Import Js.

(** ** The retry loop *)

Section RetryLoop.
Import Api.

Variable T : Transport.
Variable endpoint : string.
Variable data : Props.
Variables maxRetries retryDelay : Z.

Local Abbreviation body := (request_body endpoint data).
Local Abbreviation loop := (retry_loop T endpoint data maxRetries retryDelay).

Lemma exchanges_cons_fetch url b events :
  exchanges (EvFetch url b :: events) = S (exchanges events).
Proof. reflexivity. Qed.

Lemma exchanges_cons_error t m events :
  exchanges (EvConsoleError t m :: events) = exchanges events.
Proof. reflexivity. Qed.

Lemma exchanges_cons_sleep ms events :
  exchanges (EvSleep ms :: events) = exchanges events.
Proof. reflexivity. Qed.

Lemma exchanges_nil : exchanges [] = 0%nat.
Proof. reflexivity. Qed.

Lemma exchanges_app ev1 ev2 : exchanges (ev1 ++ ev2) = (exchanges ev1 + exchanges ev2)%nat.
Proof. unfold exchanges. by rewrite filter_app, length_app. Qed.

Lemma sleeps_app ev1 ev2 : sleeps (ev1 ++ ev2) = sleeps ev1 ++ sleeps ev2.
Proof. unfold sleeps. apply flat_map_app. Qed.

(** One unfolding of the loop on a failing attempt that is not the last. *)
Lemma loop_fail_continue remaining attempt message :
  classify (T attempt body) = inl message ->
  attempt <> maxRetries ->
  loop (S remaining) attempt =
    (fst (loop remaining (attempt + 1)),
     failed_attempt endpoint data maxRetries retryDelay attempt message
       ++ snd (loop remaining (attempt + 1))).
Proof.
  intros Hc Hne. cbn [retry_loop]. rewrite Hc.
  destruct (Z.eqb_spec attempt maxRetries) as [->|_]; [done|].
  by destruct (retry_loop _ _ _ _ _ remaining (attempt + 1)).
Qed.

Lemma loop_fail_last remaining message :
  classify (T maxRetries body) = inl message ->
  fst (loop (S remaining) maxRetries) = Rejected (exhausted_message maxRetries message) /\
  exchanges (snd (loop (S remaining) maxRetries)) = 1%nat /\
  sleeps (snd (loop (S remaining) maxRetries)) = [].
Proof.
  intros Hc. cbn [retry_loop]. rewrite Hc.
  rewrite Z.eqb_refl. cbn [fst snd].
  by rewrite exchanges_cons_fetch, exchanges_cons_error, exchanges_nil.
Qed.

Lemma loop_success remaining attempt result :
  classify (T attempt body) = inr result ->
  loop (S remaining) attempt = (Fulfilled result, [EvFetch request_url body]).
Proof. intros Hc. cbn [retry_loop]. by rewrite Hc. Qed.

(** The first [k] attempts from [attempt] on all fail and none of them is
    the last: the loop goes through [k] failed rounds and carries on. *)
Lemma loop_failed_prefix (cause : Z -> string) (k : nat) :
  forall remaining attempt,
    (forall a, attempt <= a < attempt + Z.of_nat k ->
               classify (T a body) = inl (cause a)) ->
    attempt + Z.of_nat k <= maxRetries ->
    loop (k + remaining) attempt =
      (fst (loop remaining (attempt + Z.of_nat k)),
       flat_map (fun a => failed_attempt endpoint data maxRetries retryDelay a (cause a))
                (seqZ attempt (Z.of_nat k))
         ++ snd (loop remaining (attempt + Z.of_nat k))).
Proof.
  induction k as [|k IH]; intros remaining attempt Hfail Hle.
  - rewrite Z.add_0_r. cbn. by destruct (loop remaining attempt).
  - replace (S k + remaining)%nat with (S (k + remaining)) by lia.
    rewrite (loop_fail_continue _ _ (cause attempt)); [|apply Hfail; lia|lia].
    rewrite IH; [|intros a Ha; apply Hfail; lia|lia].
    replace (attempt + 1 + Z.of_nat k) with (attempt + Z.of_nat (S k)) by lia.
    cbn [fst snd]. f_equal.
    rewrite (seqZ_cons attempt (Z.of_nat (S k))) by lia.
    replace (Z.pred (Z.of_nat (S k))) with (Z.of_nat k) by lia.
    replace (Z.succ attempt) with (attempt + 1) by lia.
    cbn [flat_map]. by rewrite <- app_assoc.
Qed.

(** The loop never makes more exchanges than it has iterations. *)
Lemma loop_exchanges_le remaining :
  forall attempt, (exchanges (snd (loop remaining attempt)) <= remaining)%nat.
Proof.
  induction remaining as [|remaining IH]; intros attempt; [done|].
  cbn [retry_loop].
  destruct (classify _) as [message|result].
  2: { cbn [snd]. rewrite exchanges_cons_fetch, exchanges_nil. lia. }
  destruct (Z.eqb attempt maxRetries).
  { cbn [snd]. rewrite exchanges_cons_fetch, exchanges_cons_error, exchanges_nil. lia. }
  specialize (IH (attempt + 1)).
  destruct (retry_loop _ _ _ _ _ remaining (attempt + 1)) as [o ev].
  cbn [snd] in *.
  rewrite exchanges_cons_fetch, exchanges_cons_error, exchanges_cons_sleep. lia.
Qed.

End RetryLoop.

Section RetryRun.
Import Api.

Variable T : Transport.
Variable endpoint : string.
Variable data : Props.
Variable method : string.
Variable options : Options.

Local Abbreviation body := (request_body endpoint data).
Local Abbreviation maxRetries := (maxRetries_of options).
Local Abbreviation retryDelay := (retryDelay_of options).
Local Abbreviation the_run := (_makeRequest T endpoint data method options).

Lemma failed_rounds_exchanges (cause : Z -> string) (l : list Z) :
  exchanges (flat_map (fun a => failed_attempt endpoint data maxRetries retryDelay a (cause a)) l)
  = length l.
Proof.
  induction l as [|a l IH]; [done|].
  cbn [flat_map]. rewrite exchanges_app, IH. reflexivity.
Qed.

Lemma failed_rounds_sleeps (cause : Z -> string) (l : list Z) :
  sleeps (flat_map (fun a => failed_attempt endpoint data maxRetries retryDelay a (cause a)) l)
  = map (fun a => retryDelay * 2 ^ (a - 1)) l.
Proof.
  induction l as [|a l IH]; [done|].
  cbn [flat_map]. rewrite sleeps_app, IH. reflexivity.
Qed.

(** A run whose first [k] attempts fail, with [k] below the budget. *)
Lemma makeRequest_failed_prefix (cause : Z -> string) (k : nat) :
  Z.of_nat k < maxRetries ->
  (forall a, 1 <= a <= Z.of_nat k -> classify (T a body) = inl (cause a)) ->
  the_run =
    (fst (retry_loop T endpoint data maxRetries retryDelay
                     (Z.to_nat maxRetries - k) (1 + Z.of_nat k)),
     flat_map (fun a => failed_attempt endpoint data maxRetries retryDelay a (cause a))
              (seqZ 1 (Z.of_nat k))
       ++ snd (retry_loop T endpoint data maxRetries retryDelay
                          (Z.to_nat maxRetries - k) (1 + Z.of_nat k))).
Proof.
  intros Hk Hfail. unfold _makeRequest.
  replace (Z.to_nat (or_Z (opt_retries options) 3))
    with (k + (Z.to_nat maxRetries - k))%nat by (unfold maxRetries_of in *; lia).
  apply loop_failed_prefix; [intros a Ha; apply Hfail; lia | lia].
Qed.

(** Every attempt fails: the budget is used up and the last cause is
    reported. *)
Lemma makeRequest_all_fail (cause : Z -> string) :
  1 <= maxRetries ->
  (forall a, 1 <= a <= maxRetries -> classify (T a body) = inl (cause a)) ->
  fst the_run = Rejected (exhausted_message maxRetries (cause maxRetries)) /\
  exchanges (snd the_run) = Z.to_nat maxRetries /\
  sleeps (snd the_run) = map (fun a => retryDelay * 2 ^ (a - 1)) (seqZ 1 (maxRetries - 1)).
Proof.
  intros Hmax Hfail.
  rewrite (makeRequest_failed_prefix cause (Z.to_nat (maxRetries - 1)));
    [|lia|intros a Ha; apply Hfail; lia].
  replace (Z.to_nat maxRetries - Z.to_nat (maxRetries - 1))%nat with 1%nat by lia.
  replace (1 + Z.of_nat (Z.to_nat (maxRetries - 1))) with maxRetries by lia.
  replace (Z.of_nat (Z.to_nat (maxRetries - 1))) with (maxRetries - 1) by lia.
  destruct (loop_fail_last T endpoint data maxRetries retryDelay 0 (cause maxRetries))
    as (Ho & Hx & Hs); [apply Hfail; lia|].
  cbn [fst snd]. split; [exact Ho|]. split.
  - rewrite exchanges_app, failed_rounds_exchanges, Hx, length_seqZ. lia.
  - rewrite sleeps_app, failed_rounds_sleeps, Hs. apply app_nil_r.
Qed.

(** The first success comes at attempt [j], within the budget. *)
Lemma makeRequest_succeeds_at (cause : Z -> string) (j : Z) (result : JsVal) :
  1 <= j <= maxRetries ->
  (forall a, 1 <= a < j -> classify (T a body) = inl (cause a)) ->
  classify (T j body) = inr result ->
  the_run =
    (Fulfilled result,
     flat_map (fun a => failed_attempt endpoint data maxRetries retryDelay a (cause a))
              (seqZ 1 (j - 1))
       ++ [EvFetch request_url body]).
Proof.
  intros Hj Hfail Hok.
  rewrite (makeRequest_failed_prefix cause (Z.to_nat (j - 1)));
    [|lia|intros a Ha; apply Hfail; lia].
  replace (1 + Z.of_nat (Z.to_nat (j - 1))) with j by lia.
  replace (Z.of_nat (Z.to_nat (j - 1))) with (j - 1) by lia.
  destruct (Z.to_nat maxRetries - Z.to_nat (j - 1))%nat as [|remaining] eqn:E; [lia|].
  by rewrite (loop_success _ _ _ _ _ _ _ result Hok).
Qed.

Lemma makeRequest_exchanges_le :
  (exchanges (snd the_run) <= Z.to_nat maxRetries)%nat.
Proof. apply loop_exchanges_le. Qed.

End RetryRun.

Section RetryShape.
Import Api.

Variable T : Transport.
Variable endpoint : string.
Variable data : Props.
Variables maxRetries retryDelay : Z.

Local Abbreviation loop := (retry_loop T endpoint data maxRetries retryDelay).

(** A result is returned only when its [success] property is truthy. *)
Lemma classify_inr answer result :
  classify answer = inr result ->
  exists success, js_get result "success" = Some success /\ truthy success = true.
Proof.
  unfold classify. destruct answer as [m|status statusText text]; [done|].
  destruct (negb (response_ok status)); [done|].
  destruct text as [m|[r|]]; [done| |done].
  destruct (js_get r "success") as [success|] eqn:E; [|done].
  destruct (truthy success) eqn:Et; cbn [negb]; [|done].
  intros [= <-]. eauto.
Qed.

(** The loop begins with an exchange. *)
Lemma loop_starts_with_fetch remaining attempt :
  exists rest,
    snd (loop (S remaining) attempt)
    = EvFetch request_url (request_body endpoint data) :: rest.
Proof.
  cbn [retry_loop]. destruct (classify _); [|by eexists].
  destruct (Z.eqb attempt maxRetries); [by eexists|].
  destruct (retry_loop _ _ _ _ _ remaining (attempt + 1)). by eexists.
Qed.

(** The shape of every run of the loop whose last iteration is attempt
    [maxRetries]: some number [n] of failed rounds with their waits, then
    either a result or the exhaustion error. *)
Lemma loop_settles remaining :
  forall attempt,
    attempt + Z.of_nat remaining = maxRetries ->
    exists n : nat,
      (n <= remaining)%nat /\
      exchanges (snd (loop (S remaining) attempt)) = S n /\
      sleeps (snd (loop (S remaining) attempt))
      = map (fun a => retryDelay * 2 ^ (a - 1)) (seqZ attempt (Z.of_nat n)) /\
      ((exists result success,
           fst (loop (S remaining) attempt) = Fulfilled result /\
           js_get result "success" = Some success /\ truthy success = true) \/
       (exists cause,
           fst (loop (S remaining) attempt) = Rejected (exhausted_message maxRetries cause) /\
           n = remaining)).
Proof.
  induction remaining as [|remaining IH]; intros attempt Hlast.
  - exists 0%nat. cbn [retry_loop].
    destruct (classify _) as [message|result] eqn:Hc.
    + replace attempt with maxRetries by lia. rewrite Z.eqb_refl. cbn [fst snd].
      split; [lia|]. split; [reflexivity|]. split; [reflexivity|]. right. by exists message.
    + destruct (classify_inr _ _ Hc) as (success & Hs & Ht). cbn [fst snd].
      split; [lia|]. split; [reflexivity|]. split; [reflexivity|]. left. by exists result, success.
  - destruct (classify (T attempt (request_body endpoint data)))
      as [message|result] eqn:Hc.
    + rewrite (loop_fail_continue _ _ _ _ _ _ _ message Hc) by lia.
      destruct (IH (attempt + 1)) as (n & Hn & Hx & Hs & Ho); [lia|].
      exists (S n). cbn [fst snd]. split; [lia|]. split; [|split].
      * rewrite exchanges_app, Hx. reflexivity.
      * rewrite sleeps_app, Hs.
        rewrite (seqZ_cons attempt (Z.of_nat (S n))) by lia.
        replace (Z.pred (Z.of_nat (S n))) with (Z.of_nat n) by lia.
        replace (Z.succ attempt) with (attempt + 1) by lia. reflexivity.
      * destruct Ho as [Ho|(cause & Ho & ->)]; [by left|right]. by exists cause.
    + rewrite (loop_success _ _ _ _ _ _ _ result Hc).
      destruct (classify_inr _ _ Hc) as (success & Hs & Ht). cbn [fst snd].
      exists 0%nat. split; [lia|]. split; [reflexivity|]. split; [reflexivity|].
      left. by exists result, success.
Qed.

(** The waits of [n] failed rounds add up to [retryDelay * (2^n - 1)]. *)
Lemma total_backoff (n : nat) :
  total (map (fun a => retryDelay * 2 ^ (a - 1)) (seqZ 1 (Z.of_nat n)))
  = retryDelay * (2 ^ Z.of_nat n - 1).
Proof.
  assert (Hshift : forall (l : list Z) (z : Z), foldr Z.add z l = foldr Z.add 0 l + z).
  { induction l as [|x l IHl]; intros z; cbn [foldr]; [lia|]. rewrite IHl. lia. }
  induction n as [|n IH].
  { change (seqZ 1 (Z.of_nat 0)) with (@nil Z). change (2 ^ Z.of_nat 0) with 1.
    unfold total. cbn [map foldr]. lia. }
  replace (Z.of_nat (S n)) with (Z.of_nat n + 1) by lia.
  rewrite seqZ_app by lia. rewrite map_app. unfold total in *.
  rewrite foldr_app.
  change (seqZ (1 + Z.of_nat n) 1) with [1 + Z.of_nat n].
  cbn [map foldr].
  replace (1 + Z.of_nat n - 1) with (Z.of_nat n) by lia.
  rewrite Z.pow_add_r by lia.
  rewrite Hshift, IH. lia.
Qed.

End RetryShape.

(** ** Claims about the retry loop *)

(** C2. With a retry budget of 3 and a transport on which every exchange
    fails, [_makeRequest] makes exactly 3 exchanges and rejects with the
    message "API request failed after 3 attempts: " followed by the
    message of the failure of the third attempt. *)
Theorem C2_retry_exhaustion (T : Api.Transport) (endpoint : string) (data : Props)
    (method : string) (options : Api.Options) :
  Api.maxRetries_of options = 3 ->
  (forall attempt b, exists message, Api.classify (T attempt b) = inl message) ->
  exists cause,
    Api.classify (T 3 (Api.request_body endpoint data)) = inl cause /\
    fst (Api._makeRequest T endpoint data method options)
    = Api.Rejected ("API request failed after 3 attempts: " +:+ cause) /\
    Api.exchanges (snd (Api._makeRequest T endpoint data method options)) = 3%nat.
Proof.
  intros Hmax Hfail.
  set (cause := fun a => match Api.classify (T a (Api.request_body endpoint data)) with
                         | inl m => m
                         | inr _ => ""
                         end).
  assert (Hcause : forall a, Api.classify (T a (Api.request_body endpoint data)) = inl (cause a)).
  { intros a. unfold cause. destruct (Hfail a (Api.request_body endpoint data)) as [m ->]. done. }
  destruct (makeRequest_all_fail T endpoint data method options cause) as (Ho & Hx & _).
  - lia.
  - intros a _. apply Hcause.
  - exists (cause 3). split; [apply Hcause|]. rewrite Ho, Hx, Hmax. done.
Qed.

Lemma C2_retry_exhaustion_witness :
  exists cause,
    Api.classify (Scenario.always_fails 3 (Api.request_body "user.login" Scenario.alice))
    = inl cause /\
    fst (Api._makeRequest Scenario.always_fails "user.login" Scenario.alice "POST" Api.no_options)
    = Api.Rejected ("API request failed after 3 attempts: " +:+ cause) /\
    Api.exchanges
      (snd (Api._makeRequest Scenario.always_fails "user.login" Scenario.alice "POST"
                             Api.no_options)) = 3%nat.
Proof.
  apply (C2_retry_exhaustion Scenario.always_fails "user.login" Scenario.alice "POST"
                             Api.no_options).
  - reflexivity.
  - intros attempt b. eexists. reflexivity.
Defined.

(** C3. When attempts 1..i all fail and i is below the budget, the run
    consists of the rounds of attempts 1..i-1, then the exchange of
    attempt i, its console line and a wait of [retryDelay * 2^(i-1)],
    then the exchange of attempt i+1. In particular, with a budget of 3
    and a delay of 1000 ms, a transport that fails twice and then succeeds
    gives a success on the third exchange after waits of 1000 and 2000. *)
Theorem C3_retry_backoff (T : Api.Transport) (endpoint : string) (data : Props)
    (method : string) (options : Api.Options) :
  (forall (i : Z) (cause : Z -> string),
      1 <= i < Api.maxRetries_of options ->
      (forall a, 1 <= a <= i ->
                 Api.classify (T a (Api.request_body endpoint data)) = inl (cause a)) ->
      exists before rest,
        snd (Api._makeRequest T endpoint data method options)
        = before
            ++ Api.failed_attempt endpoint data (Api.maxRetries_of options)
                                  (Api.retryDelay_of options) i (cause i)
            ++ Api.EvFetch Api.request_url (Api.request_body endpoint data) :: rest /\
        Z.of_nat (Api.exchanges before) = i - 1) /\
  (Api.maxRetries_of options = 3 ->
   Api.retryDelay_of options = 1000 ->
   forall (c1 c2 : string) (result : JsVal),
     Api.classify (T 1 (Api.request_body endpoint data)) = inl c1 ->
     Api.classify (T 2 (Api.request_body endpoint data)) = inl c2 ->
     Api.classify (T 3 (Api.request_body endpoint data)) = inr result ->
     fst (Api._makeRequest T endpoint data method options) = Api.Fulfilled result /\
     Api.exchanges (snd (Api._makeRequest T endpoint data method options)) = 3%nat /\
     Api.sleeps (snd (Api._makeRequest T endpoint data method options)) = [1000; 2000]).
Proof.
  split.
  - intros i cause Hi Hfail.
    rewrite (makeRequest_failed_prefix T endpoint data method options cause (Z.to_nat i));
      [|lia|intros a Ha; apply Hfail; lia].
    replace (Z.of_nat (Z.to_nat i)) with ((i - 1) + 1) by lia.
    rewrite seqZ_app by lia.
    change (seqZ (1 + (i - 1)) 1) with [1 + (i - 1)].
    replace (1 + (i - 1)) with i by lia.
    destruct (Z.to_nat (Api.maxRetries_of options) - Z.to_nat i)%nat
      as [|remaining] eqn:E; [lia|].
    destruct (loop_starts_with_fetch T endpoint data (Api.maxRetries_of options)
                (Api.retryDelay_of options) remaining (1 + (i - 1 + 1))) as [rest Hrest].
    cbn [snd]. rewrite Hrest, flat_map_app. cbn [flat_map].
    rewrite app_nil_r, <- app_assoc.
    eexists _, rest. split; [reflexivity|].
    rewrite failed_rounds_exchanges, length_seqZ. lia.
  - intros Hmax Hdelay c1 c2 result H1 H2 H3.
    set (cause := fun a : Z => if Z.eqb a 1 then c1 else c2).
    rewrite (makeRequest_succeeds_at T endpoint data method options cause 3 result);
      [|lia| |exact H3].
    + cbn [fst snd]. split; [reflexivity|]. split.
      * rewrite exchanges_app, failed_rounds_exchanges. reflexivity.
      * rewrite sleeps_app, failed_rounds_sleeps, Hdelay. reflexivity.
    + intros a Ha. assert (a = 1 \/ a = 2) as [-> | ->] by lia; assumption.
Qed.

Lemma C3_retry_backoff_witness :
  (exists before rest,
      snd (Api._makeRequest Scenario.fails_twice "user.login" Scenario.alice "POST"
                            Api.no_options)
      = before
          ++ Api.failed_attempt "user.login" Scenario.alice 3 1000 2 "Failed to fetch"
          ++ Api.EvFetch Api.request_url (Api.request_body "user.login" Scenario.alice)
             :: rest /\
      Z.of_nat (Api.exchanges before) = 2 - 1) /\
  fst (Api._makeRequest Scenario.fails_twice "user.login" Scenario.alice "POST" Api.no_options)
  = Api.Fulfilled Scenario.ok_body /\
  Api.exchanges
    (snd (Api._makeRequest Scenario.fails_twice "user.login" Scenario.alice "POST"
                           Api.no_options)) = 3%nat /\
  Api.sleeps
    (snd (Api._makeRequest Scenario.fails_twice "user.login" Scenario.alice "POST"
                           Api.no_options)) = [1000; 2000].
Proof.
  split.
  - apply (proj1 (C3_retry_backoff Scenario.fails_twice "user.login" Scenario.alice "POST"
                                   Api.no_options) 2 (fun _ => "Failed to fetch")).
    + change (Api.maxRetries_of Api.no_options) with 3. lia.
    + intros a Ha. assert (a = 1 \/ a = 2) as [-> | ->] by lia; reflexivity.
  - apply (proj2 (C3_retry_backoff Scenario.fails_twice "user.login" Scenario.alice "POST"
                                   Api.no_options))
      with (c1 := "Failed to fetch") (c2 := "Failed to fetch"); reflexivity.
Defined.

(** C5. [_makeRequest] returns a body only when its [success] property is
    truthy (for a boolean indicator: [true]); a body with [success: false]
    is an attempt failure whose message is the backend's [message] (or
    "Request failed" when there is none); and when every attempt ends in
    such a logical failure the run uses the whole budget, exactly as for
    transport failures, and rejects with the backend's message in the
    exhaustion error. *)
Theorem C5_logical_failure :
  (forall (answer : Api.FetchOutcome) (result : JsVal),
      Api.classify answer = inr result ->
      (exists success, js_get result "success" = Some success /\ truthy success = true) /\
      (forall b, js_get result "success" = Some (JBool b) -> b = true)) /\
  (forall (status : Z) (statusText : string) (props : Props),
      Api.response_ok status = true ->
      props_get "success" props = Some (JBool false) ->
      (forall message,
          props_get "message" props = Some (JStr message) -> message <> "" ->
          Api.classify (Api.FetchResponds status statusText (Api.TextIs (Some (JObj props))))
          = inl message) /\
      (props_get "message" props = None ->
       Api.classify (Api.FetchResponds status statusText (Api.TextIs (Some (JObj props))))
       = inl "Request failed")) /\
  (forall (T : Api.Transport) (endpoint : string) (data : Props) (method : string)
          (options : Api.Options) (message : string),
      1 <= Api.maxRetries_of options ->
      message <> "" ->
      (forall attempt,
          1 <= attempt <= Api.maxRetries_of options ->
          exists status statusText props,
            T attempt (Api.request_body endpoint data)
            = Api.FetchResponds status statusText (Api.TextIs (Some (JObj props))) /\
            Api.response_ok status = true /\
            props_get "success" props = Some (JBool false) /\
            props_get "message" props = Some (JStr message)) ->
      fst (Api._makeRequest T endpoint data method options)
      = Api.Rejected (Api.exhausted_message (Api.maxRetries_of options) message) /\
      Api.exchanges (snd (Api._makeRequest T endpoint data method options))
      = Z.to_nat (Api.maxRetries_of options)) /\
  (forall (T : Api.Transport) (endpoint : string) (data : Props) (method : string)
          (options : Api.Options) (cause : Z -> string),
      1 <= Api.maxRetries_of options ->
      (forall attempt,
          1 <= attempt <= Api.maxRetries_of options ->
          Api.classify (T attempt (Api.request_body endpoint data)) = inl (cause attempt)) ->
      Api.exchanges (snd (Api._makeRequest T endpoint data method options))
      = Z.to_nat (Api.maxRetries_of options)).
Proof.
  assert (Hdenied : forall status statusText props message,
             Api.response_ok status = true ->
             props_get "success" props = Some (JBool false) ->
             props_get "message" props = Some (JStr message) -> message <> "" ->
             Api.classify (Api.FetchResponds status statusText
                                             (Api.TextIs (Some (JObj props))))
             = inl message).
  { intros status statusText props message Hok Hs Hm Hne.
    unfold Api.classify. rewrite Hok. cbn [negb js_get]. rewrite Hs, Hm.
    cbn. destruct (String.eqb_spec message ""); [done|reflexivity]. }
  split; [|split; [|split]].
  - intros answer result Hc.
    destruct (classify_inr _ _ Hc) as (success & Hs & Ht).
    split; [by exists success|].
    intros b Hb. rewrite Hs in Hb. injection Hb as ->. exact Ht.
  - intros status statusText props Hok Hs. split.
    + intros message Hm Hne. by apply Hdenied.
    + intros Hm. unfold Api.classify. rewrite Hok. cbn [negb js_get]. by rewrite Hs, Hm.
  - intros T endpoint data method options message Hmax Hne Hall.
    destruct (makeRequest_all_fail T endpoint data method options (fun _ => message))
      as (Ho & Hx & _); [exact Hmax| |by split].
    intros a Ha. destruct (Hall a Ha) as (status & statusText & props & -> & Hok & Hs & Hm).
    by apply Hdenied.
  - intros T endpoint data method options cause Hmax Hall.
    by destruct (makeRequest_all_fail T endpoint data method options cause)
      as (_ & Hx & _).
Qed.

Lemma C5_logical_failure_witness :
  ((exists success,
       js_get Scenario.ok_body "success" = Some success /\ truthy success = true) /\
   (forall b, js_get Scenario.ok_body "success" = Some (JBool b) -> b = true)) /\
  Api.classify (Api.FetchResponds 200 "OK" (Api.TextIs (Some Scenario.denied_body)))
  = inl "User not found" /\
  Api.classify (Api.FetchResponds 200 "OK"
                  (Api.TextIs (Some (JObj [("success", JBool false)]))))
  = inl "Request failed" /\
  (fst (Api._makeRequest Scenario.always_denies "user.login" Scenario.alice "POST"
                         Api.no_options)
   = Api.Rejected "API request failed after 3 attempts: User not found" /\
   Api.exchanges
     (snd (Api._makeRequest Scenario.always_denies "user.login" Scenario.alice "POST"
                            Api.no_options)) = 3%nat) /\
  Api.exchanges
    (snd (Api._makeRequest Scenario.always_fails "user.login" Scenario.alice "POST"
                           Api.no_options)) = 3%nat.
Proof.
  destruct C5_logical_failure as (Ha & Hb & Hc & Hd).
  split; [|split; [|split; [|split]]].
  - apply (Ha Scenario.answers_ok Scenario.ok_body). reflexivity.
  - apply (proj1 (Hb 200 "OK" [("success", JBool false); ("message", JStr "User not found")]
                     eq_refl eq_refl)); [reflexivity|discriminate].
  - apply (proj2 (Hb 200 "OK" [("success", JBool false)] eq_refl eq_refl)). reflexivity.
  - apply (Hc Scenario.always_denies "user.login" Scenario.alice "POST" Api.no_options
              "User not found").
    + change (Api.maxRetries_of Api.no_options) with 3. lia.
    + discriminate.
    + intros attempt _.
      exists 200, "OK", [("success", JBool false); ("message", JStr "User not found")].
      repeat split.
  - apply (Hd Scenario.always_fails "user.login" Scenario.alice "POST" Api.no_options
              (fun _ => "HTTP 500: Internal Server Error")).
    + change (Api.maxRetries_of Api.no_options) with 3. lia.
    + intros attempt _. reflexivity.
Defined.

(** ** Strings: [includes] finds exactly the substrings *)

Lemma starts_with_spec (sub s : string) :
  starts_with sub s = true <-> exists post, s = sub +:+ post.
Proof.
  revert s. induction sub as [|a sub IH]; intros s; cbn [starts_with].
  - split; [intros _; by exists s|done].
  - destruct s as [|b s].
    + split; [done|]. intros [post H]. discriminate H.
    + rewrite andb_true_iff, IH. split.
      * intros [Hab [post ->]]. apply Ascii.eqb_eq in Hab as ->. by exists post.
      * intros [post H]. cbn in H. injection H as -> ->.
        split; [apply Ascii.eqb_refl|by exists post].
Qed.

Lemma includes_spec (s sub : string) :
  includes s sub = true <-> exists pre post, s = pre +:+ sub +:+ post.
Proof.
  induction s as [|c s IH]; cbn [includes].
  - rewrite orb_false_r, starts_with_spec. split.
    + intros [post H]. by exists "", post.
    + intros (pre & post & H). destruct pre; [by exists post|discriminate H].
  - rewrite orb_true_iff, starts_with_spec, IH. split.
    + intros [[post H]|(pre & post & ->)].
      * by exists "", post.
      * by exists (String c pre), post.
    + intros (pre & post & H). destruct pre as [|c' pre].
      * left. by exists post.
      * right. cbn in H. injection H as -> ->. by exists pre, post.
Qed.

(** ** The cache *)

Section Cache.
Import Api.

Lemma lookup_foldl_delete (keys : list string) :
  forall (c : gmap string JsVal) (key : string),
    foldl (fun m k => delete k m) c keys !! key
    = if decide (key ∈ keys) then None else c !! key.
Proof.
  induction keys as [|k keys IH]; intros c key; cbn [foldl].
  - case_decide as H; [by apply not_elem_of_nil in H|done].
  - rewrite IH.
    destruct (decide (key ∈ keys)) as [Hin|Hout],
             (decide (key ∈ k :: keys)) as [Hin'|Hout']; try done.
    + exfalso. apply Hout'. by apply list_elem_of_further.
    + apply elem_of_cons in Hin' as [->|Hin']; [|done].
      apply lookup_delete_eq.
    + apply lookup_delete_ne. intros ->. apply Hout'. apply list_elem_of_here.
Qed.

Lemma lookup_clearUserCache (email : string) (c : gmap string JsVal) (key : string) :
  cache_clearUserCache email c !! key = if includes key email then None else c !! key.
Proof.
  unfold cache_clearUserCache. rewrite lookup_foldl_delete.
  destruct (includes key email) eqn:E.
  - case_decide as H; [done|].
    destruct (c !! key) as [v|] eqn:Hv; [|done].
    exfalso. apply H. apply list_elem_of_filter. split; [exact E|].
    change (map fst (map_to_list c)) with ((map_to_list c).*1).
    apply list_elem_of_fmap. exists (key, v). split; [done|].
    by apply elem_of_map_to_list.
  - case_decide as H; [|done].
    apply list_elem_of_filter in H as [H _]. congruence.
Qed.

End Cache.

(** C10. [clearUserCache(email)] removes exactly the cache entries whose
    key contains [email] as a substring and keeps every other entry with
    its value; it touches nothing but the cache, and changes nothing when
    no key contains [email]. The key built by [getUserProfile] for
    "aa@b.com" contains "a@b.com", so clearing for "a@b.com" removes that
    entry of the other user. *)
Theorem C10_clearUserCache :
  (forall (email : string) (st : Api.ApiState) (key : string),
      Api.cache (Api.clearUserCache email st) !! key
      = if includes key email then None else Api.cache st !! key) /\
  (forall (email key : string),
      includes key email = true <-> exists pre post, key = pre +:+ email +:+ post) /\
  (forall (email : string) (st : Api.ApiState),
      (forall key, is_Some (Api.cache st !! key) -> includes key email = false) ->
      Api.clearUserCache email st = st) /\
  (forall (email : string) (st : Api.ApiState),
      Api.requestQueue (Api.clearUserCache email st) = Api.requestQueue st /\
      Api.promises (Api.clearUserCache email st) = Api.promises st /\
      Api.timers (Api.clearUserCache email st) = Api.timers st /\
      Api.settled (Api.clearUserCache email st) = Api.settled st) /\
  (forall (st : Api.ApiState) (v : JsVal),
      Api.call_key "user.profile" [("email", JStr "aa@b.com")]
                   (Api.getUserProfile_options "aa@b.com") = "profile_aa@b.com" /\
      Api.cache (Api.clearUserCache "a@b.com"
                   (Api.set_cache (insert "profile_aa@b.com" v) st))
        !! "profile_aa@b.com" = None).
Proof.
  split; [|split; [|split; [|split]]].
  - intros email st key. apply lookup_clearUserCache.
  - intros email key. apply includes_spec.
  - intros email [c q ps np ts t s nc nw] Hnone. unfold Api.clearUserCache, Api.set_cache.
    cbn [Api.cache Api.requestQueue Api.promises Api.next_promise Api.timers Api.now
         Api.settled Api.next_call Api.network] in *.
    f_equal. apply map_eq. intros key. rewrite lookup_clearUserCache.
    destruct (includes key email) eqn:E; [|done].
    destruct (c !! key) as [v|] eqn:Hv; [|done].
    rewrite Hnone in E; [done|]. by exists v.
  - intros email st. by repeat split.
  - intros st v. split; [reflexivity|].
    cbn [Api.clearUserCache Api.set_cache Api.cache]. by rewrite lookup_clearUserCache.
Qed.

Lemma C10_clearUserCache_witness :
  Api.clearUserCache "a@b.com" Scenario.one_cached = Scenario.one_cached.
Proof.
  apply (proj1 (proj2 (proj2 C10_clearUserCache)) "a@b.com" Scenario.one_cached).
  intros key [v Hv]. unfold Scenario.one_cached in Hv.
  cbn [Api.set_cache Api.cache Api.init] in Hv.
  apply lookup_insert_Some in Hv as [[<- _]|[_ Hv]]; [reflexivity|].
  by rewrite lookup_empty in Hv.
Defined.

(** ** The cache key *)

Section Strings.
Import Js Utils.

Lemma append_length (s t : string) :
  String.length (s +:+ t) = (String.length s + String.length t)%nat.
Proof. induction s as [|a s IH]; [done|]. simpl. f_equal. exact IH. Qed.

Lemma append_empty_r (s : string) : s +:+ "" = s.
Proof.
  induction s as [|a s IH]; [done|].
  change (String a (s +:+ "") = String a s). by rewrite IH.
Qed.

Lemma append_assoc (s t u : string) : (s +:+ t) +:+ u = s +:+ (t +:+ u).
Proof.
  induction s as [|a s IH]; [done|].
  change (String a ((s +:+ t) +:+ u) = String a (s +:+ (t +:+ u))). by rewrite IH.
Qed.

Lemma append_eq_empty (s t : string) : s +:+ t = "" -> s = "" /\ t = "".
Proof. destruct s; cbn; [done|discriminate]. Qed.

Lemma substring0_length (n : nat) (s : string) :
  String.length (substring 0 n s) = Nat.min n (String.length s).
Proof.
  revert s. induction n as [|n IH]; intros [|a s]; cbn; try done.
  by rewrite IH.
Qed.

Lemma substring0_prefix (n : nat) (s : string) :
  exists rest, s = substring 0 n s +:+ rest.
Proof.
  revert s. induction n as [|n IH]; intros [|a s]; cbn.
  - by exists "".
  - by exists (String a s).
  - by exists "".
  - destruct (IH s) as [rest E]. exists rest.
    change (String a s = String a (substring 0 n s +:+ rest)). by rewrite <- E.
Qed.

Lemma eqb_empty (s : string) : String.eqb s "" = true <-> s = "".
Proof. by destruct s. Qed.

End Strings.

Section CacheKey.

Local Abbreviation entries d :=
  (flat_map (fun kv : string * JsVal =>
               match snd kv with
               | JUndefined => []
               | _ => [quote (fst kv) +:+ ":" +:+ stringify (snd kv)]
               end) d).

Lemma unescape_escape_char (c : ascii) (X : string) :
  unescape_char (escape_char c +:+ X) = Some (c, X).
Proof. destruct c as [[] [] [] [] [] [] [] []]; reflexivity. Qed.

(** A quoted name can be read back from the front of a text: two texts
    that begin with quoted names and are equal begin with the same name. *)
Lemma escape_prefix (a : string) :
  forall b X Y,
    escape a +:+ String dquote X = escape b +:+ String dquote Y -> a = b /\ X = Y.
Proof.
  induction a as [|c a IH]; intros [|d b] X Y H.
  - change (String dquote X = String dquote Y) in H. by injection H as ->.
  - exfalso. change (String dquote X = (escape_char d +:+ escape b) +:+ String dquote Y) in H.
    rewrite append_assoc in H. apply (f_equal unescape_char) in H.
    rewrite unescape_escape_char in H. discriminate H.
  - exfalso. change ((escape_char c +:+ escape a) +:+ String dquote X = String dquote Y) in H.
    rewrite append_assoc in H. apply (f_equal unescape_char) in H.
    rewrite unescape_escape_char in H. discriminate H.
  - change ((escape_char c +:+ escape a) +:+ String dquote X
            = (escape_char d +:+ escape b) +:+ String dquote Y) in H.
    rewrite !append_assoc in H. apply (f_equal unescape_char) in H.
    rewrite !unescape_escape_char in H. injection H as -> H.
    by destruct (IH b X Y H) as [-> ->].
Qed.

Lemma quote_prefix (k1 k2 X Y : string) :
  quote k1 +:+ X = quote k2 +:+ Y -> k1 = k2 /\ X = Y.
Proof.
  unfold quote. intros H.
  change (String dquote ((escape k1 +:+ String dquote "") +:+ X)
          = String dquote ((escape k2 +:+ String dquote "") +:+ Y)) in H.
  injection H as H. rewrite !append_assoc in H. by apply escape_prefix.
Qed.

Lemma entries_cons (k : string) (v : JsVal) (d : Props) :
  v <> JUndefined ->
  entries ((k, v) :: d) = (quote k +:+ ":" +:+ stringify v) :: entries d.
Proof. intros Hv. by destruct v. Qed.

Lemma join_cons_append (e : string) (es : list string) (X : string) :
  join "," (e :: es) +:+ X
  = e +:+ match es with
          | [] => X
          | _ => "," +:+ join "," es +:+ X
          end.
Proof.
  destruct es as [|e' es]; [done|].
  change (join "," (e :: e' :: es)) with (e +:+ "," +:+ join "," (e' :: es)).
  by rewrite !append_assoc.
Qed.

Lemma props_get_fresh (k : string) (d : Props) : k ∉ map fst d -> props_get k d = None.
Proof.
  induction d as [|[k' v] d IH]; intros Hout; [done|]. cbn [props_get].
  destruct (String.eqb_spec k k') as [->|Hne].
  - exfalso. apply Hout. cbn. apply list_elem_of_here.
  - apply IH. intros Hin. apply Hout. cbn. by apply list_elem_of_further.
Qed.

(** The text between the braces tells the order of the properties: two
    payloads that are equal as mappings and are written to the same text
    list their properties in the same order. *)
Lemma object_body_order (d1 : Props) :
  forall (d2 : Props) (X Y : string),
    NoDup (map fst d1) -> NoDup (map fst d2) ->
    Forall (fun kv => snd kv <> JUndefined) d1 ->
    Forall (fun kv => snd kv <> JUndefined) d2 ->
    (forall k, props_get k d1 = props_get k d2) ->
    join "," (entries d1) +:+ X = join "," (entries d2) +:+ Y ->
    d1 = d2.
Proof.
  induction d1 as [|[k1 v1] r1 IH]; intros [|[k2 v2] r2] X Y Hn1 Hn2 Hd1 Hd2 Hget Hs.
  - done.
  - specialize (Hget k2). cbn [props_get] in Hget. by rewrite String.eqb_refl in Hget.
  - specialize (Hget k1). cbn [props_get] in Hget. by rewrite String.eqb_refl in Hget.
  - cbn [map fst] in Hn1, Hn2.
    apply NoDup_cons in Hn1 as [Hf1 Hn1]. apply NoDup_cons in Hn2 as [Hf2 Hn2].
    apply Forall_cons in Hd1 as [Hv1 Hd1]. apply Forall_cons in Hd2 as [Hv2 Hd2].
    cbn [snd] in Hv1, Hv2.
    rewrite (entries_cons k1 v1 r1 Hv1), (entries_cons k2 v2 r2 Hv2) in Hs.
    rewrite !join_cons_append, !append_assoc in Hs.
    apply quote_prefix in Hs as [<- Hs].
    pose proof (Hget k1) as Hk. cbn [props_get] in Hk. rewrite String.eqb_refl in Hk.
    injection Hk as <-.
    apply (String.app_inj ":") in Hs. apply (String.app_inj (stringify v1)) in Hs.
    assert (Hrest : forall k, props_get k r1 = props_get k r2).
    { intros k. specialize (Hget k). cbn [props_get] in Hget.
      destruct (String.eqb_spec k k1) as [Ek|Hne]; [|done].
      rewrite Ek. by rewrite (props_get_fresh k1 r1 Hf1), (props_get_fresh k1 r2 Hf2). }
    f_equal.
    destruct r1 as [|[ka va] r1], r2 as [|[kb vb] r2].
    + done.
    + specialize (Hrest kb). cbn [props_get] in Hrest.
      by rewrite String.eqb_refl in Hrest.
    + specialize (Hrest ka). cbn [props_get] in Hrest.
      by rewrite String.eqb_refl in Hrest.
    + pose proof (Forall_inv Hd1) as Hva. pose proof (Forall_inv Hd2) as Hvb.
      cbn [snd] in Hva, Hvb.
      rewrite (entries_cons ka va r1 Hva), (entries_cons kb vb r2 Hvb) in Hs.
      apply (String.app_inj ",") in Hs.
      rewrite <- (entries_cons ka va r1 Hva), <- (entries_cons kb vb r2 Hvb) in Hs.
      by apply (IH _ X Y).
Qed.

End CacheKey.

(** C6, as stated, fails: two payloads with the same properties written
    in a different order get different keys. *)
Lemma C6_key_order_counterexample :
  (forall k, props_get k Scenario.signup_email_first
             = props_get k Scenario.signup_name_first) /\
  Api._generateCacheKey "user.register" Scenario.signup_email_first
  <> Api._generateCacheKey "user.register" Scenario.signup_name_first.
Proof.
  split.
  - intros k. unfold Scenario.signup_email_first, Scenario.signup_name_first.
    cbn [props_get].
    destruct (String.eqb_spec k "email") as [->|He]; [reflexivity|].
    destruct (String.eqb_spec k "name") as [->|Hn]; reflexivity.
  - vm_compute. discriminate.
Qed.

(** C6, amended. The key computed from (operation, payload) is
    [operation + "_" + JSON.stringify(payload)], and the order of the
    payload's properties does affect it: two payloads that are equal as
    mappings (distinct property names, no [undefined] value) get the same
    key exactly when they list their properties in the same order; the
    same holds of the key a call without [options.cacheKey] works under.
    A call that passes a non-empty [options.cacheKey] is keyed by that
    string whatever its payload. *)
Theorem C6_key_order_sensitive :
  (forall (endpoint : string) (data : Props),
      Api._generateCacheKey endpoint data
      = endpoint +:+ "_" +:+ JSON_stringify (JObj data)) /\
  (forall (endpoint : string) (d1 d2 : Props),
      NoDup (map fst d1) -> NoDup (map fst d2) ->
      Forall (fun kv => snd kv <> JUndefined) d1 ->
      Forall (fun kv => snd kv <> JUndefined) d2 ->
      (forall k, props_get k d1 = props_get k d2) ->
      (Api._generateCacheKey endpoint d1 = Api._generateCacheKey endpoint d2 <-> d1 = d2) /\
      (Api.call_key endpoint d1 Api.no_options = Api.call_key endpoint d2 Api.no_options
       <-> d1 = d2)) /\
  (forall (endpoint : string) (d1 d2 : Props) (options : Api.Options) (key : string),
      Api.opt_cacheKey options = Some key -> key <> "" ->
      Api.call_key endpoint d1 options = key /\
      Api.call_key endpoint d2 options = key).
Proof.
  split; [reflexivity|]. split.
  - intros endpoint d1 d2 Hn1 Hn2 Hd1 Hd2 Hget.
    assert (Hkey : Api._generateCacheKey endpoint d1 = Api._generateCacheKey endpoint d2
                   <-> d1 = d2).
    { split; [|by intros ->]. unfold Api._generateCacheKey. intros H.
      apply (String.app_inj endpoint) in H. apply (String.app_inj "_") in H.
      injection H as H. by apply (object_body_order d1 d2 "}" "}"). }
    split; [exact Hkey|exact Hkey].
  - intros endpoint d1 d2 options key Hkey Hne. unfold Api.call_key. rewrite Hkey.
    cbn [Api.or_string]. by destruct (String.eqb_spec key "").
Qed.

Lemma C6_key_order_sensitive_witness :
  Api._generateCacheKey "user.register" Scenario.signup_email_first
  <> Api._generateCacheKey "user.register" Scenario.signup_name_first.
Proof.
  assert (Hnd : forall a b : string, a <> b -> NoDup [a; b]).
  { intros a b Hab. apply NoDup_cons. split; [|apply NoDup_singleton].
    intros H. by apply list_elem_of_singleton in H. }
  destruct (proj1 (proj2 C6_key_order_sensitive) "user.register"
              Scenario.signup_email_first Scenario.signup_name_first) as [[Hto _] _].
  - by apply Hnd.
  - by apply Hnd.
  - by repeat constructor.
  - by repeat constructor.
  - intros k. unfold Scenario.signup_email_first, Scenario.signup_name_first.
    cbn [props_get].
    destruct (String.eqb_spec k "email") as [->|He]; [reflexivity|].
    destruct (String.eqb_spec k "name") as [->|Hn]; reflexivity.
  - intros H. discriminate (Hto H).
Defined.

(** ** The session *)

Section Session.
Import Auth.

Lemma sessionExpiry_add_effect e st : sessionExpiry (add_effect e st) = sessionExpiry st.
Proof. reflexivity. Qed.

(** What [_setUserSession] does to the persisted expiry. *)
Lemma setUserSession_expiry user now st :
  (snd (_setUserSession user now st) = None /\
   sessionExpiry (fst (_setUserSession user now st))
   = Some (string_of_Z (now + sessionTimeout))) \/
  (snd (_setUserSession user now st) <> None /\
   localStorage (fst (_setUserSession user now st)) = localStorage st).
Proof.
  unfold _setUserSession. destruct (js_get user "email") as [email|].
  - left. split; [done|]. unfold sessionExpiry. cbn [fst localStorage].
    apply lookup_insert_eq.
  - right. by split.
Qed.

Lemma setUserSession_success user email now st :
  js_get user "email" = Some email ->
  _setUserSession user now st
  = (mkAuth user
            (<["sessionExpiry" := string_of_Z (now + sessionTimeout)]>
               (<["userData" := JSON_stringify user]>
                  (<["userEmail" := ToString email]> (localStorage st))))
            (effects st),
     None).
Proof. intros H. unfold _setUserSession. by rewrite H. Qed.

(** Each operation leaves the persisted expiry alone, removes it, or sets
    it to the time of the operation plus [sessionTimeout]. *)
Lemma step_expiry st a :
  sessionExpiry (step st a) = sessionExpiry st \/
  sessionExpiry (step st a) = None \/
  exists now, action_time a = Some now /\
              sessionExpiry (step st a) = Some (string_of_Z (now + sessionTimeout)).
Proof.
  destruct a as [email now api|userData now api|now api|]; cbn [step action_time].
  - unfold login.
    destruct api as [result|message]; [|by left].
    destruct (js_get result "success") as [success|]; [|by left].
    destruct (truthy success); [|by left].
    destruct (setUserSession_expiry (default JUndefined (js_get result "user")) now
                (add_effect (ShowLoading "loginBtn") st)) as [[H1 H2]|[H1 H2]];
      destruct (_setUserSession _ now _) as [st' [m|]]; cbn [fst snd] in *; try done.
    + right; right. by exists now.
    + left. unfold sessionExpiry. cbn [fst localStorage add_effect]. by rewrite H2.
  - unfold register.
    destruct api as [result|message]; [|by left].
    destruct (js_get result "success") as [success|]; [|by left].
    destruct (truthy success); [|by left].
    destruct (setUserSession_expiry (default JUndefined (js_get result "user")) now
                (add_effect (ShowLoading "signupBtn") st)) as [[H1 H2]|[H1 H2]];
      destruct (_setUserSession _ now _) as [st' [m|]]; cbn [fst snd] in *; try done.
    + right; right. by exists now.
    + left. unfold sessionExpiry. cbn [fst localStorage add_effect]. by rewrite H2.
  - unfold refreshUserData.
    destruct (negb (truthy (currentUser st))); [by left|].
    destruct api as [result|message]; [|by left].
    destruct (js_get result "success") as [success|]; [|by left].
    destruct (truthy success); [|by left].
    destruct (js_get (default JUndefined (js_get result "profile")) "user") as [user|];
      [|by left].
    destruct (setUserSession_expiry user now st) as [[H1 H2]|[H1 H2]];
      destruct (_setUserSession user now st) as [st' [m|]]; cbn [fst snd] in *; try done.
    + right; right. by exists now.
    + left. unfold sessionExpiry. cbn [localStorage add_effect]. by rewrite H2.
  - right; left. unfold sessionExpiry, logout. cbn [localStorage].
    apply lookup_delete_eq.
Qed.

(** Over a whole history: a persisted expiry that was not there at the
    start was written by some operation of the history, as the time of
    that operation plus [sessionTimeout], and no later operation of the
    history changed it. *)
Lemma history_expiry (acts : list Action) :
  forall st, sessionExpiry st = None ->
    sessionExpiry (run st acts) = None \/
    exists before a after now,
      acts = before ++ a :: after /\
      action_time a = Some now /\
      sessionExpiry (run st acts) = Some (string_of_Z (now + sessionTimeout)) /\
      forall k, sessionExpiry (run st (before ++ a :: take k after))
                = sessionExpiry (run st acts).
Proof.
  induction acts as [|a acts IH] using rev_ind; intros st Hst; [by left|].
  unfold run in *. rewrite foldl_app. cbn [foldl].
  destruct (step_expiry (foldl step st acts) a) as [Hsame|[Hnone|(now & Ht & Hset)]].
  - rewrite Hsame. destruct (IH st Hst) as [Hn|(before & a0 & after & now & -> & Ht & He & Hk)];
      [by left|right].
    exists before, a0, (after ++ [a]), now. split; [by rewrite <- app_assoc|].
    split; [done|]. split; [done|]. intros k.
    destruct (decide (k <= length after)%nat) as [Hle|Hgt].
    + rewrite take_app_le by done. apply Hk.
    + rewrite take_ge by (rewrite length_app; cbn; lia).
      rewrite app_comm_cons, app_assoc, foldl_app. cbn [foldl]. exact Hsame.
  - by left.
  - right. exists acts, a, [], now. split; [done|]. split; [done|]. split; [done|].
    intros k. rewrite take_nil, foldl_app. reflexivity.
Qed.

End Session.

(** C7, as stated, fails: a successful refresh moves the persisted expiry.
    After a login at time 0 the expiry is 86400000; a successful refresh
    five minutes later sets it to 86700000. *)
Lemma C7_refresh_extends_counterexample :
  truthy (Auth.currentUser Scenario.logged_in) = true /\
  Auth.sessionExpiry Scenario.logged_in = Some "86400000" /\
  Auth.sessionExpiry
    (Auth.refreshUserData 300000 (Api.Fulfilled Scenario.profile_body) Scenario.logged_in)
  = Some "86700000" /\
  Auth.sessionExpiry
    (Auth.refreshUserData 300000 (Api.Fulfilled Scenario.profile_body) Scenario.logged_in)
  <> Auth.sessionExpiry Scenario.logged_in.
Proof.
  assert (H0 : Auth.sessionExpiry Scenario.logged_in = Some "86400000").
  { unfold Auth.sessionExpiry. vm_compute. reflexivity. }
  assert (H1 : Auth.sessionExpiry
                 (Auth.refreshUserData 300000 (Api.Fulfilled Scenario.profile_body)
                                       Scenario.logged_in) = Some "86700000").
  { unfold Auth.sessionExpiry. vm_compute. reflexivity. }
  split; [reflexivity|]. split; [exact H0|]. split; [exact H1|].
  rewrite H0, H1. discriminate.
Qed.

(** C7, amended. A successful refresh overwrites the session, the expiry
    included: the current user and the three persisted fields are those
    of the returned user, and the expiry is the time of the refresh plus
    [sessionTimeout], exactly as on login and register. Every operation
    either leaves the persisted expiry alone, removes it, or sets it to
    its own time plus [sessionTimeout]; so over any history that starts
    without a session, a persisted expiry is the time of some login,
    register or refresh of the history plus [sessionTimeout], unchanged
    by every later operation. *)
Theorem C7_refresh_resets_expiry :
  (forall (now : Z) (result success user email : JsVal) (st : Auth.AuthState),
      truthy (Auth.currentUser st) = true ->
      js_get result "success" = Some success -> truthy success = true ->
      js_get (default JUndefined (js_get result "profile")) "user" = Some user ->
      js_get user "email" = Some email ->
      Auth.refreshUserData now (Api.Fulfilled result) st
      = Auth.mkAuth user
          (<["sessionExpiry" := string_of_Z (now + Auth.sessionTimeout)]>
             (<["userData" := JSON_stringify user]>
                (<["userEmail" := ToString email]> (Auth.localStorage st))))
          (Auth.effects st) /\
      Auth.sessionExpiry (Auth.refreshUserData now (Api.Fulfilled result) st)
      = Some (string_of_Z (now + Auth.sessionTimeout))) /\
  (forall (st : Auth.AuthState) (a : Auth.Action),
      Auth.sessionExpiry (Auth.step st a) = Auth.sessionExpiry st \/
      Auth.sessionExpiry (Auth.step st a) = None \/
      exists now, Auth.action_time a = Some now /\
                  Auth.sessionExpiry (Auth.step st a)
                  = Some (string_of_Z (now + Auth.sessionTimeout))) /\
  (forall (st : Auth.AuthState) (acts : list Auth.Action),
      Auth.sessionExpiry st = None ->
      Auth.sessionExpiry (Auth.run st acts) = None \/
      exists before a after now,
        acts = before ++ a :: after /\
        Auth.action_time a = Some now /\
        Auth.sessionExpiry (Auth.run st acts)
        = Some (string_of_Z (now + Auth.sessionTimeout)) /\
        forall k, Auth.sessionExpiry (Auth.run st (before ++ a :: take k after))
                  = Auth.sessionExpiry (Auth.run st acts)).
Proof.
  split; [|split].
  - intros now result success user email st Hcur Hs Ht Hu He.
    assert (Hrun : Auth.refreshUserData now (Api.Fulfilled result) st
                   = Auth.mkAuth user
                       (<["sessionExpiry" := string_of_Z (now + Auth.sessionTimeout)]>
                          (<["userData" := JSON_stringify user]>
                             (<["userEmail" := ToString email]> (Auth.localStorage st))))
                       (Auth.effects st)).
    { unfold Auth.refreshUserData. rewrite Hcur. cbn [negb]. rewrite Hs, Ht, Hu.
      by rewrite (setUserSession_success user email now st He). }
    split; [exact Hrun|]. rewrite Hrun. unfold Auth.sessionExpiry. cbn [Auth.localStorage].
    apply lookup_insert_eq.
  - apply step_expiry.
  - intros st acts Hst. by apply history_expiry.
Qed.

Lemma C7_refresh_resets_expiry_witness :
  Auth.sessionExpiry
    (Auth.refreshUserData 300000 (Api.Fulfilled Scenario.profile_body) Scenario.logged_in)
  = Some (string_of_Z (300000 + Auth.sessionTimeout)) /\
  (Auth.sessionExpiry
     (Auth.run Auth.anonymous
        [Auth.ALogin "a@b.com" 0 (Api.Fulfilled Scenario.ok_body);
         Auth.ARefresh 300000 (Api.Fulfilled Scenario.profile_body)]) = None \/
   exists before a after now,
     [Auth.ALogin "a@b.com" 0 (Api.Fulfilled Scenario.ok_body);
      Auth.ARefresh 300000 (Api.Fulfilled Scenario.profile_body)]
     = before ++ a :: after /\
     Auth.action_time a = Some now /\
     Auth.sessionExpiry
       (Auth.run Auth.anonymous
          [Auth.ALogin "a@b.com" 0 (Api.Fulfilled Scenario.ok_body);
           Auth.ARefresh 300000 (Api.Fulfilled Scenario.profile_body)])
     = Some (string_of_Z (now + Auth.sessionTimeout)) /\
     forall k,
       Auth.sessionExpiry (Auth.run Auth.anonymous (before ++ a :: take k after))
       = Auth.sessionExpiry
           (Auth.run Auth.anonymous
              [Auth.ALogin "a@b.com" 0 (Api.Fulfilled Scenario.ok_body);
               Auth.ARefresh 300000 (Api.Fulfilled Scenario.profile_body)])).
Proof.
  destruct C7_refresh_resets_expiry as (Ha & _ & Hc). split.
  - apply (Ha 300000 Scenario.profile_body (JBool true) Scenario.alice_user
              (JStr "a@b.com") Scenario.logged_in); reflexivity.
  - apply (Hc Auth.anonymous). reflexivity.
Defined.

(** C8. When [API.loginUser] rejects (the transport failed or the backend
    answered [success: false], both of which [_makeRequest] turns into a
    rejection), or resolves with a body whose [success] is falsy, [login]
    leaves [currentUser] and the persisted fields as they were and
    returns [{success: false, error}] with the message of the failure. *)
Theorem C8_login_failure (email : string) (now : Z) (st : Auth.AuthState) :
  (forall message,
      Auth.currentUser (fst (Auth.login email now (Api.Rejected message) st))
      = Auth.currentUser st /\
      Auth.localStorage (fst (Auth.login email now (Api.Rejected message) st))
      = Auth.localStorage st /\
      snd (Auth.login email now (Api.Rejected message) st) = Auth.AuthFailure message) /\
  (forall (T : Api.Transport) (cause : Z -> string),
      (forall attempt,
          1 <= attempt <= 3 ->
          Api.classify (T attempt (Api.request_body "user.login" [("email", JStr email)]))
          = inl (cause attempt)) ->
      let api := fst (Api._makeRequest T "user.login" [("email", JStr email)] "POST"
                                       Api.no_options) in
      Auth.currentUser (fst (Auth.login email now api st)) = Auth.currentUser st /\
      Auth.localStorage (fst (Auth.login email now api st)) = Auth.localStorage st /\
      snd (Auth.login email now api st)
      = Auth.AuthFailure ("API request failed after 3 attempts: " +:+ cause 3)) /\
  (forall result success,
      js_get result "success" = Some success -> truthy success = false ->
      Auth.currentUser (fst (Auth.login email now (Api.Fulfilled result) st))
      = Auth.currentUser st /\
      Auth.localStorage (fst (Auth.login email now (Api.Fulfilled result) st))
      = Auth.localStorage st /\
      snd (Auth.login email now (Api.Fulfilled result) st)
      = Auth.AuthFailure (Error_message (default JUndefined (js_get result "message")))).
Proof.
  split; [|split].
  - intros message. by repeat split.
  - intros T cause Hfail api.
    destruct (makeRequest_all_fail T "user.login" [("email", JStr email)] "POST"
                Api.no_options cause) as (Ho & _ & _).
    + change (Api.maxRetries_of Api.no_options) with 3. lia.
    + exact Hfail.
    + subst api. rewrite Ho. by repeat split.
  - intros result success Hs Ht. unfold Auth.login. rewrite Hs, Ht. by repeat split.
Qed.

Lemma C8_login_failure_witness :
  (Auth.currentUser
     (fst (Auth.login "a@b.com" 5
             (fst (Api._makeRequest Scenario.always_denies "user.login"
                                    [("email", JStr "a@b.com")] "POST" Api.no_options))
             Scenario.logged_in))
   = Auth.currentUser Scenario.logged_in /\
   Auth.localStorage
     (fst (Auth.login "a@b.com" 5
             (fst (Api._makeRequest Scenario.always_denies "user.login"
                                    [("email", JStr "a@b.com")] "POST" Api.no_options))
             Scenario.logged_in))
   = Auth.localStorage Scenario.logged_in /\
   snd (Auth.login "a@b.com" 5
          (fst (Api._makeRequest Scenario.always_denies "user.login"
                                 [("email", JStr "a@b.com")] "POST" Api.no_options))
          Scenario.logged_in)
   = Auth.AuthFailure "API request failed after 3 attempts: User not found") /\
  (Auth.currentUser
     (fst (Auth.login "a@b.com" 5 (Api.Fulfilled Scenario.denied_body) Scenario.logged_in))
   = Auth.currentUser Scenario.logged_in /\
   Auth.localStorage
     (fst (Auth.login "a@b.com" 5 (Api.Fulfilled Scenario.denied_body) Scenario.logged_in))
   = Auth.localStorage Scenario.logged_in /\
   snd (Auth.login "a@b.com" 5 (Api.Fulfilled Scenario.denied_body) Scenario.logged_in)
   = Auth.AuthFailure
       (Error_message (default JUndefined (js_get Scenario.denied_body "message")))).
Proof.
  split.
  - apply (proj1 (proj2 (C8_login_failure "a@b.com" 5 Scenario.logged_in))
                 Scenario.always_denies (fun _ => "User not found")).
    intros attempt _. reflexivity.
  - apply (proj2 (proj2 (C8_login_failure "a@b.com" 5 Scenario.logged_in))
                 Scenario.denied_body (JBool false)); reflexivity.
Defined.

(** A body that says [success: true] but carries no [user] is not covered
    by C8: [_setUserSession] has assigned [currentUser] before [user.email]
    throws, so the call returns a failure after changing [currentUser];
    the persisted fields stay as they were. *)
Lemma login_success_without_user (email : string) (now : Z) (st : Auth.AuthState) :
  Auth.currentUser
    (fst (Auth.login email now (Api.Fulfilled (JObj [("success", JBool true)])) st))
  = JUndefined /\
  Auth.localStorage
    (fst (Auth.login email now (Api.Fulfilled (JObj [("success", JBool true)])) st))
  = Auth.localStorage st /\
  snd (Auth.login email now (Api.Fulfilled (JObj [("success", JBool true)])) st)
  = Auth.AuthFailure "Cannot read properties of undefined (reading 'email')".
Proof. by repeat split. Qed.

(** ** The request queue and the cache: shape of the reachable states *)

Section Service.
Import Api.

(** *** [request], case by case *)

Lemma request_cached endpoint data options st v :
  cache_hit st (call_key endpoint data options) (call_method options) = Some v ->
  request endpoint data options st
  = mkApi (cache st) (requestQueue st) (promises st) (next_promise st) (timers st) (now st)
          (<[next_call st := Fulfilled v]> (settled st)) (S (next_call st)) (network st).
Proof. intros H. unfold request. by rewrite H. Qed.

Lemma request_join endpoint data options st p r :
  cache_hit st (call_key endpoint data options) (call_method options) = None ->
  requestQueue st !! call_key endpoint data options = Some p ->
  promises st !! p = Some (Pending r) ->
  request endpoint data options st
  = mkApi (cache st) (requestQueue st)
          (<[p := Pending (mkRun (run_endpoint r) (run_data r) (run_method r) (run_options r)
                                 (run_waiters r ++ [Follower (next_call st)]))]>
             (promises st))
          (next_promise st) (timers st) (now st) (settled st) (S (next_call st))
          (network st).
Proof. intros Hc Hq Hp. unfold request. by rewrite Hc, Hq, Hp. Qed.

Lemma request_start endpoint data options st :
  cache_hit st (call_key endpoint data options) (call_method options) = None ->
  requestQueue st !! call_key endpoint data options = None ->
  request endpoint data options st
  = mkApi (cache st)
          (<[call_key endpoint data options := next_promise st]> (requestQueue st))
          (<[next_promise st :=
               Pending (mkRun endpoint data (call_method options) options
                              [Originator (next_call st) (call_key endpoint data options)
                                          (call_method options) options])]>
             (promises st))
          (S (next_promise st)) (timers st) (now st) (settled st) (S (next_call st))
          (network st).
Proof. intros Hc Hq. unfold request. by rewrite Hc, Hq. Qed.

(** [request] never touches the cache, the timers, the clock or the
    network. *)
Lemma request_frame endpoint data options st :
  cache (request endpoint data options st) = cache st /\
  timers (request endpoint data options st) = timers st /\
  now (request endpoint data options st) = now st /\
  network (request endpoint data options st) = network st /\
  next_call (request endpoint data options st) = S (next_call st).
Proof.
  unfold request. destruct (cache_hit _ _ _); [done|].
  destruct (requestQueue st !! _) as [p|]; [|done].
  destruct (promises st !! p) as [[r|o]|]; done.
Qed.

(** *** [settle] on a run with its originator and followers *)

Lemma notify_followers outcome (ws : list Waiter) :
  Forall is_follower ws ->
  forall st,
    foldl (notify outcome) st ws
    = set_settled (fun s => foldl (fun s w => <[waiter_call w := outcome]> s) s ws) st.
Proof.
  induction 1 as [|w ws Hw _ IH]; intros st; cbn [foldl].
  - by destruct st.
  - destruct w as [|c]; [done|]. rewrite IH. by destruct st.
Qed.

Lemma lookup_settled_waiters outcome (ws : list Waiter) :
  forall (s : gmap CallId Settled) (c : CallId),
    foldl (fun s w => <[waiter_call w := outcome]> s) s ws !! c
    = if decide (c ∈ map waiter_call ws) then Some outcome else s !! c.
Proof.
  induction ws as [|w ws IH]; intros s c; cbn [foldl map].
  - case_decide as H; [by apply not_elem_of_nil in H|done].
  - rewrite IH.
    destruct (decide (c ∈ map waiter_call ws)) as [Hin|Hout],
             (decide (c ∈ waiter_call w :: map waiter_call ws)) as [Hin'|Hout']; try done.
    + exfalso. apply Hout'. by apply list_elem_of_further.
    + apply elem_of_cons in Hin' as [->|Hin']; [|done]. apply lookup_insert_eq.
    + apply lookup_insert_ne. intros <-. apply Hout'. apply list_elem_of_here.
Qed.

Lemma setTimeout_delay_small (ms : Z) :
  0 <= ms <= 2147483647 -> setTimeout_delay ms = ms.
Proof.
  intros H. unfold setTimeout_delay, ToInt32.
  rewrite Z.mod_small by lia. lia.
Qed.

Lemma settle_originated p T st r c key method options followers :
  promises st !! p = Some (Pending r) ->
  run_waiters r = Originator c key method options :: followers ->
  Forall is_follower followers ->
  let outcome := fst (_makeRequest T (run_endpoint r) (run_data r) (run_method r)
                                   (run_options r)) in
  let events := snd (_makeRequest T (run_endpoint r) (run_data r) (run_method r)
                                  (run_options r)) in
  settle p T st
  = mkApi (match stores method options outcome with
           | Some result => <[key := result]> (cache st)
           | None => cache st
           end)
          (delete key (requestQueue st))
          (<[p := Done outcome]> (promises st))
          (next_promise st)
          (match stores method options outcome with
           | Some _ =>
               timers st ++ [(now st + setTimeout_delay (default 0 (opt_cacheTime options)), key)]
           | None => timers st
           end)
          (now st)
          (foldl (fun s w => <[waiter_call w := outcome]> s) (settled st) (run_waiters r))
          (next_call st)
          (network st ++ map (pair p) events).
Proof.
  intros Hp Hw Hf outcome events. unfold settle. rewrite Hp.
  subst outcome events.
  destruct (_makeRequest T _ _ _ _) as [outcome events]. cbn [fst snd].
  rewrite Hw. cbn [foldl]. rewrite (notify_followers outcome followers Hf).
  unfold notify, stores.
  destruct outcome as [result|message]; [|done].
  by destruct (String.eqb method "GET" && truthy_Z (opt_cacheTime options)).
Qed.

End Service.

Section Invariant.
Import Api.

Lemma originated_inj r k k' : originated r k -> originated r k' -> k = k'.
Proof.
  intros (c & m & o & fs & Hw & _) (c' & m' & o' & fs' & Hw' & _).
  rewrite Hw in Hw'. by injection Hw'.
Qed.

Lemma originated_join r k c :
  originated r k ->
  originated (mkRun (run_endpoint r) (run_data r) (run_method r) (run_options r)
                    (run_waiters r ++ [Follower c])) k.
Proof.
  intros (c0 & m & o & fs & Hw & Hf). exists c0, m, o, (fs ++ [Follower c]).
  cbn [run_waiters]. rewrite Hw. split; [done|].
  apply Forall_app. split; [done|]. by apply Forall_singleton.
Qed.

Lemma wf_init : wf init.
Proof.
  split; cbn [init requestQueue promises next_promise].
  - intros k p H. by rewrite lookup_empty in H.
  - intros p r H. by rewrite lookup_empty in H.
  - intros p [x H]. by rewrite lookup_empty in H.
Qed.

(** The invariant only reads the queue, the promises and the allocator. *)
Lemma wf_same st st' :
  requestQueue st' = requestQueue st ->
  promises st' = promises st ->
  next_promise st' = next_promise st ->
  wf st -> wf st'.
Proof.
  intros Hq Hp Hn [H1 H2 H3]. split; rewrite ?Hq, ?Hp, ?Hn; assumption.
Qed.

Lemma wf_request endpoint data options st :
  wf st -> wf (request endpoint data options st).
Proof.
  intros Hwf.
  destruct (cache_hit st (call_key endpoint data options) (call_method options))
    as [v|] eqn:Hc.
  { rewrite (request_cached _ _ _ _ v Hc). by apply (wf_same st). }
  destruct (requestQueue st !! call_key endpoint data options) as [p|] eqn:Hq.
  - destruct (wf_queue st Hwf _ _ Hq) as (r & Hp & Hor).
    rewrite (request_join _ _ _ _ p r Hc Hq Hp).
    destruct Hwf as [H1 H2 H3].
    split; cbn [requestQueue promises next_promise].
    + intros k0 p0 Hk0. destruct (H1 k0 p0 Hk0) as (r0 & Hp0 & Hor0).
      destruct (decide (p0 = p)) as [->|Hne].
      * rewrite lookup_insert_eq. eexists. split; [done|].
        rewrite Hp in Hp0. injection Hp0 as <-. by apply originated_join.
      * rewrite lookup_insert_ne by done. by exists r0.
    + intros p0 r0 Hp0. destruct (decide (p0 = p)) as [->|Hne].
      * rewrite lookup_insert_eq in Hp0. injection Hp0 as <-.
        destruct (H2 p r Hp) as (k & Hk & Hkq). exists k. split; [|done].
        by apply originated_join.
      * rewrite lookup_insert_ne in Hp0 by done. by apply H2.
    + intros p0 Hs. apply H3. destruct (decide (p0 = p)) as [->|Hne].
      * by rewrite Hp.
      * by rewrite lookup_insert_ne in Hs.
  - rewrite (request_start _ _ _ _ Hc Hq).
    destruct Hwf as [H1 H2 H3].
    split; cbn [requestQueue promises next_promise].
    + intros k0 p0 Hk0.
      destruct (decide (k0 = call_key endpoint data options)) as [->|Hne].
      * rewrite lookup_insert_eq in Hk0. injection Hk0 as <-.
        rewrite lookup_insert_eq. eexists. split; [done|].
        eexists _, _, _, []. by split.
      * rewrite lookup_insert_ne in Hk0 by done.
        destruct (H1 k0 p0 Hk0) as (r0 & Hp0 & Hor0).
        assert (p0 < next_promise st)%nat by (apply H3; by rewrite Hp0).
        rewrite lookup_insert_ne by lia. by exists r0.
    + intros p0 r0 Hp0. destruct (decide (p0 = next_promise st)) as [->|Hne].
      * rewrite lookup_insert_eq in Hp0. injection Hp0 as <-.
        exists (call_key endpoint data options). split.
        -- eexists _, _, _, []. by split.
        -- apply lookup_insert_eq.
      * rewrite lookup_insert_ne in Hp0 by done.
        destruct (H2 p0 r0 Hp0) as (k & Hk & Hkq). exists k. split; [done|].
        rewrite lookup_insert_ne; [done|]. intros <-. congruence.
    + intros p0 Hs. destruct (decide (p0 = next_promise st)) as [->|Hne]; [lia|].
      rewrite lookup_insert_ne in Hs by done. specialize (H3 p0 Hs). lia.
Qed.

Lemma wf_settle p T st : wf st -> wf (settle p T st).
Proof.
  intros Hwf.
  destruct (promises st !! p) as [[r|o]|] eqn:Hp;
    [|unfold settle; by rewrite Hp..].
  destruct (wf_pending st Hwf p r Hp) as (k & Hor & Hkq).
  pose proof Hor as (c & m & o & fs & Hw & Hf).
  rewrite (settle_originated p T st r c k m o fs Hp Hw Hf).
  destruct Hwf as [H1 H2 H3].
  split; cbn [requestQueue promises next_promise].
  - intros k0 p0 Hk0. apply lookup_delete_Some in Hk0 as [Hne Hk0].
    destruct (H1 k0 p0 Hk0) as (r0 & Hp0 & Hor0).
    assert (p0 <> p).
    { intros ->. rewrite Hp in Hp0. injection Hp0 as <-.
      apply Hne. by apply (originated_inj r). }
    rewrite lookup_insert_ne by done. by exists r0.
  - intros p0 r0 Hp0. destruct (decide (p0 = p)) as [->|Hne].
    { by rewrite lookup_insert_eq in Hp0. }
    rewrite lookup_insert_ne in Hp0 by done.
    destruct (H2 p0 r0 Hp0) as (k0 & Hk0 & Hkq0). exists k0. split; [done|].
    rewrite lookup_delete_ne; [done|]. intros <-. congruence.
  - intros p0 Hs. apply H3. destruct (decide (p0 = p)) as [->|Hne].
    + by rewrite Hp.
    + by rewrite lookup_insert_ne in Hs.
Qed.

Lemma wf_step st a : wf st -> wf (step st a).
Proof.
  intros Hwf. destruct a as [endpoint data options|p T|i|dt|email|]; cbn [step].
  - by apply wf_request.
  - by apply wf_settle.
  - unfold fire_timer. destruct (timers st !! i) as [[due k]|]; [|done].
    destruct (Z.leb due (now st)); [|done]. by apply (wf_same st).
  - by apply (wf_same st).
  - by apply (wf_same st).
  - by apply (wf_same st).
Qed.

Lemma wf_run acts : forall st, wf st -> wf (run st acts).
Proof.
  induction acts as [|a acts IH]; intros st Hwf; [done|].
  apply IH. by apply wf_step.
Qed.

Lemma reachable_wf st : reachable st -> wf st.
Proof. intros [acts ->]. apply wf_run, wf_init. Qed.

End Invariant.

(** ** De-duplication *)

Section Dedup.
Import Api.

Lemma notify_settled outcome st w :
  settled (notify outcome st w) = <[waiter_call w := outcome]> (settled st) /\
  promises (notify outcome st w) = promises st /\
  next_promise (notify outcome st w) = next_promise st /\
  network (notify outcome st w) = network st.
Proof.
  destruct w as [c k m o|c]; [|done]. unfold notify.
  destruct outcome as [result|message]; [|done].
  by destruct (String.eqb m "GET" && truthy_Z (opt_cacheTime o)).
Qed.

Lemma foldl_notify outcome (ws : list Waiter) :
  forall st,
    settled (foldl (notify outcome) st ws)
    = foldl (fun s w => <[waiter_call w := outcome]> s) (settled st) ws /\
    promises (foldl (notify outcome) st ws) = promises st /\
    next_promise (foldl (notify outcome) st ws) = next_promise st /\
    network (foldl (notify outcome) st ws) = network st.
Proof.
  induction ws as [|w ws IH]; intros st; cbn [foldl]; [done|].
  destruct (IH (notify outcome st w)) as (H1 & H2 & H3 & H4).
  destruct (notify_settled outcome st w) as (E1 & E2 & E3 & E4).
  rewrite H1, H2, H3, H4, E1, E2, E3, E4. done.
Qed.

(** What settling a pending promise does, whatever its waiters. *)
Lemma settle_pending p T st r :
  promises st !! p = Some (Pending r) ->
  promises (settle p T st) = <[p := Done (fst (run_result T r))]> (promises st) /\
  next_promise (settle p T st) = next_promise st /\
  network (settle p T st) = network st ++ map (pair p) (snd (run_result T r)) /\
  forall c, settled (settle p T st) !! c
            = if decide (c ∈ map waiter_call (run_waiters r))
              then Some (fst (run_result T r)) else settled st !! c.
Proof.
  intros Hp. unfold settle, run_result. rewrite Hp.
  destruct (_makeRequest T _ _ _ _) as [outcome events]. cbn [fst snd].
  match goal with |- context [foldl (notify outcome) ?s _] =>
    destruct (foldl_notify outcome (run_waiters r) s) as (H1 & H2 & H3 & H4) end.
  rewrite H1, H2, H3, H4. cbn [settled promises next_promise network].
  repeat split. intros c. apply lookup_settled_waiters.
Qed.

Lemma settle_not_pending p T st :
  (forall r, promises st !! p <> Some (Pending r)) -> settle p T st = st.
Proof.
  intros H. unfold settle. destruct (promises st !! p) as [[r|o]|] eqn:E; try done.
  by destruct (H r).
Qed.

(** A step that is not the settlement of [p] keeps the run behind [p] in
    flight with the same arguments, keeps its waiters, and keeps its entry
    in [requestQueue]. *)
Lemma fire_timer_frame i st :
  requestQueue (fire_timer i st) = requestQueue st /\
  promises (fire_timer i st) = promises st /\
  next_promise (fire_timer i st) = next_promise st /\
  settled (fire_timer i st) = settled st /\
  network (fire_timer i st) = network st /\
  now (fire_timer i st) = now st.
Proof.
  unfold fire_timer. destruct (timers st !! i) as [[due k]|]; [|done].
  by destruct (Z.leb due (now st)).
Qed.

Lemma step_leaves_pending st a p r :
  wf st ->
  promises st !! p = Some (Pending r) ->
  leaves_pending p a ->
  exists r',
    promises (step st a) !! p = Some (Pending r') /\
    (forall T, run_result T r' = run_result T r) /\
    (forall c, c ∈ map waiter_call (run_waiters r) ->
               c ∈ map waiter_call (run_waiters r')).
Proof.
  intros Hwf Hp Hlp.
  destruct a as [endpoint data options|p0 T0|i|dt|email|]; cbn [step leaves_pending] in *.
  - destruct (cache_hit st (call_key endpoint data options) (call_method options))
      as [v|] eqn:Hc.
    { rewrite (request_cached _ _ _ _ v Hc). by exists r. }
    destruct (requestQueue st !! call_key endpoint data options) as [p0|] eqn:Hq.
    + destruct (wf_queue st Hwf _ _ Hq) as (r0 & Hp0 & _).
      rewrite (request_join _ _ _ _ p0 r0 Hc Hq Hp0). cbn [promises].
      destruct (decide (p0 = p)) as [->|Hne].
      * rewrite lookup_insert_eq. rewrite Hp in Hp0. injection Hp0 as <-.
        eexists. split; [reflexivity|]. split; [done|].
        intros c Hin. cbn [run_waiters]. rewrite map_app. apply elem_of_app. by left.
      * rewrite lookup_insert_ne by done. by exists r.
    + rewrite (request_start _ _ _ _ Hc Hq). cbn [promises].
      assert (p < next_promise st)%nat by (apply (wf_fresh st Hwf); by rewrite Hp).
      rewrite lookup_insert_ne by lia. by exists r.
  - destruct (promises st !! p0) as [[r0|o0]|] eqn:Hp0.
    + destruct (settle_pending p0 T0 st r0 Hp0) as (-> & _).
      rewrite lookup_insert_ne by done. by exists r.
    + rewrite settle_not_pending; [by exists r|]. intros r1. by rewrite Hp0.
    + rewrite settle_not_pending; [by exists r|]. intros r1. by rewrite Hp0.
  - destruct (fire_timer_frame i st) as (_ & -> & _). by exists r.
  - by exists r.
  - by exists r.
  - by exists r.
Qed.

Lemma step_keeps_queue st a k p :
  wf st ->
  requestQueue st !! k = Some p ->
  leaves_pending p a ->
  requestQueue (step st a) !! k = Some p.
Proof.
  intros Hwf Hk Hlp.
  destruct a as [endpoint data options|p0 T0|i|dt|email|]; cbn [step leaves_pending] in *.
  - destruct (cache_hit st (call_key endpoint data options) (call_method options))
      as [v|] eqn:Hc.
    { by rewrite (request_cached _ _ _ _ v Hc). }
    destruct (requestQueue st !! call_key endpoint data options) as [p0|] eqn:Hq.
    + destruct (wf_queue st Hwf _ _ Hq) as (r0 & Hp0 & _).
      by rewrite (request_join _ _ _ _ p0 r0 Hc Hq Hp0).
    + rewrite (request_start _ _ _ _ Hc Hq). cbn [requestQueue].
      rewrite lookup_insert_ne; [done|]. intros E. rewrite E in Hq. congruence.
  - destruct (promises st !! p0) as [[r0|o0]|] eqn:Hp0.
    + destruct (wf_pending st Hwf p0 r0 Hp0) as (k0 & (c & m & o & fs & Hw & Hf) & Hk0).
      rewrite (settle_originated p0 T0 st r0 c k0 m o fs Hp0 Hw Hf). cbn [requestQueue].
      rewrite lookup_delete_ne; [done|]. intros <-. congruence.
    + rewrite settle_not_pending; [done|]. intros r1. by rewrite Hp0.
    + rewrite settle_not_pending; [done|]. intros r1. by rewrite Hp0.
  - by destruct (fire_timer_frame i st) as (-> & _).
  - done.
  - done.
  - done.
Qed.

(** The same over a whole history. *)
Lemma run_leaves_pending acts :
  forall st k p r,
    wf st ->
    requestQueue st !! k = Some p ->
    promises st !! p = Some (Pending r) ->
    Forall (leaves_pending p) acts ->
    wf (run st acts) /\
    requestQueue (run st acts) !! k = Some p /\
    exists r',
      promises (run st acts) !! p = Some (Pending r') /\
      (forall T, run_result T r' = run_result T r) /\
      (forall c, c ∈ map waiter_call (run_waiters r) ->
                 c ∈ map waiter_call (run_waiters r')).
Proof.
  induction acts as [|a acts IH]; intros st k p r Hwf Hk Hp Hall.
  - split; [done|]. split; [done|]. by exists r.
  - apply Forall_cons in Hall as [Ha Hall]. cbn [run foldl].
    destruct (step_leaves_pending st a p r Hwf Hp Ha) as (r1 & Hp1 & Hres1 & Hin1).
    destruct (IH (step st a) k p r1 (wf_step st a Hwf)
                 (step_keeps_queue st a k p Hwf Hk Ha) Hp1 Hall)
      as (Hwf' & Hk' & r' & Hp' & Hres' & Hin').
    split; [done|]. split; [done|]. exists r'. split; [done|]. split.
    + intros T. by rewrite Hres', Hres1.
    + intros c Hc. by apply Hin', Hin1.
Qed.

End Dedup.

Section Progress.
Import Api.

Lemma settle_next_call p T st : next_call (settle p T st) = next_call st.
Proof.
  unfold settle. destruct (promises st !! p) as [[r|o]|]; [|done..].
  destruct (_makeRequest T _ _ _ _) as [outcome events].
  match goal with |- context [foldl (notify outcome) ?s _] =>
    assert (H : forall ws s', next_call (foldl (notify outcome) s' ws) = next_call s') end.
  { induction ws as [|w ws IH]; intros s'; cbn [foldl]; [done|]. rewrite IH.
    destruct w as [c k m o|c]; [|done]. unfold notify.
    destruct outcome as [result|message]; [|done].
    by destruct (String.eqb m "GET" && truthy_Z (opt_cacheTime o)). }
  by rewrite H.
Qed.

(** A settled call stays settled. *)
Lemma settled_step st a call :
  is_Some (settled st !! call) -> is_Some (settled (step st a) !! call).
Proof.
  intros Hs. destruct a as [endpoint data options|p T|i|dt|email|]; cbn [step]; try done.
  - unfold request. destruct (cache_hit _ _ _) as [v|].
    { cbn [set_settled settled]. apply lookup_insert_is_Some'. by right. }
    destruct (requestQueue st !! _) as [p|]; [|done].
    destruct (promises st !! p) as [[r|o]|]; [done| |done].
    cbn [set_settled settled]. apply lookup_insert_is_Some'. by right.
  - destruct (promises st !! p) as [[r|o]|] eqn:Hp.
    + destruct (settle_pending p T st r Hp) as (_ & _ & _ & ->). by case_decide.
    + rewrite settle_not_pending; [done|]. intros r1. by rewrite Hp.
    + rewrite settle_not_pending; [done|]. intros r1. by rewrite Hp.
  - by destruct (fire_timer_frame i st) as (_ & _ & _ & -> & _).
Qed.

Lemma tracked_step st a : wf st -> tracked st -> tracked (step st a).
Proof.
  intros Hwf Htr call Hcall.
  assert (Hold : (call < next_call st)%nat ->
                 is_Some (settled (step st a) !! call) \/
                 exists p, waiting (step st a) call p).
  { intros Hlt. destruct (Htr call Hlt) as [Hs|(p & r & Hp & Hin)].
    { left. by apply settled_step. }
    assert (Hcases : leaves_pending p a \/ exists T, a = ASettle p T).
    { destruct a as [endpoint data options|p0 T|i|dt|email|]; cbn [leaves_pending];
        try (left; exact I).
      destruct (decide (p0 = p)) as [->|Hne]; [right; by exists T|by left]. }
    destruct Hcases as [Hlp|[T ->]].
    - right. exists p.
      destruct (step_leaves_pending st a p r Hwf Hp Hlp) as (r' & Hp' & _ & Hin').
      exists r'. split; [exact Hp'|by apply Hin'].
    - left. cbn [step]. destruct (settle_pending p T st r Hp) as (_ & _ & _ & ->).
      by rewrite decide_True. }
  destruct a as [endpoint data options|p0 T|i|dt|email|]; cbn [step] in Hcall.
  - destruct (request_frame endpoint data options st) as (_ & _ & _ & _ & Hn).
    rewrite Hn in Hcall.
    destruct (decide (call = next_call st)) as [->|Hne]; [|apply Hold; lia].
    cbn [step].
    destruct (cache_hit st (call_key endpoint data options) (call_method options))
      as [v|] eqn:Hc.
    { left. rewrite (request_cached _ _ _ _ v Hc). cbn [settled].
      rewrite lookup_insert_eq. by eexists. }
    right. destruct (requestQueue st !! call_key endpoint data options) as [p|] eqn:Hq.
    + destruct (wf_queue st Hwf _ _ Hq) as (r & Hp & _).
      rewrite (request_join _ _ _ _ p r Hc Hq Hp). exists p. eexists.
      cbn [promises]. split; [apply lookup_insert_eq|].
      cbn [run_waiters]. rewrite map_app. apply elem_of_app. right.
      apply list_elem_of_here.
    + rewrite (request_start _ _ _ _ Hc Hq). exists (next_promise st). eexists.
      cbn [promises]. split; [apply lookup_insert_eq|]. apply list_elem_of_here.
  - rewrite settle_next_call in Hcall. by apply Hold.
  - apply Hold. unfold fire_timer in Hcall.
    destruct (timers st !! i) as [[due k]|]; [|done].
    by destruct (Z.leb due (now st)).
  - by apply Hold.
  - by apply Hold.
  - by apply Hold.
Qed.

Lemma tracked_reachable st : reachable st -> tracked st.
Proof.
  intros [acts ->].
  assert (H : forall acts st, wf st -> tracked st -> tracked (run st acts)).
  { clear. induction acts as [|a acts IH]; intros st Hwf Htr; [done|].
    cbn [run foldl]. apply IH; [by apply wf_step|by apply tracked_step]. }
  apply H; [apply wf_init|]. intros call Hcall. cbn [init next_call] in Hcall. lia.
Qed.

End Progress.

Section Concurrent.
Import Api.

Variable endpoint : string.
Variable data : Props.
Variable options : Options.

Local Abbreviation key := (call_key endpoint data options).
Local Abbreviation method := (call_method options).

(** The state after [n + 1] successive calls with the same arguments, the
    first of which found neither a cache entry nor a pending request: one
    run, started by the first call, with the other [n] calls as
    followers. *)
Lemma request_n_started (n : nat) (st : ApiState) :
  cache_hit st key method = None ->
  requestQueue st !! key = None ->
  request_n (S n) endpoint data options st
  = mkApi (cache st)
          (<[key := next_promise st]> (requestQueue st))
          (<[next_promise st :=
               Pending (mkRun endpoint data method options
                              (Originator (next_call st) key method options
                                 :: map Follower (seq (S (next_call st)) n)))]>
             (promises st))
          (S (next_promise st)) (timers st) (now st) (settled st)
          (S n + next_call st) (network st).
Proof.
  intros Hc Hq. induction n as [|n IH].
  - cbn [request_n]. by rewrite (request_start _ _ _ _ Hc Hq).
  - change (request_n (S (S n)) endpoint data options st)
      with (request endpoint data options (request_n (S n) endpoint data options st)).
    rewrite IH.
    erewrite request_join; cycle 1.
    + unfold cache_hit in *. exact Hc.
    + cbn [requestQueue]. apply lookup_insert_eq.
    + cbn [promises]. apply lookup_insert_eq.
    + cbn [cache requestQueue promises next_promise timers now settled next_call network
           run_endpoint run_data run_method run_options run_waiters].
      rewrite insert_insert_eq. f_equal. f_equal. f_equal. f_equal.
      rewrite seq_S, map_app. cbn [map].
      replace (S (next_call st) + n)%nat with (S n + next_call st)%nat by lia.
      reflexivity.
Qed.

Lemma waiter_calls_started (c0 n : nat) :
  map waiter_call (Originator c0 key method options :: map Follower (seq (S c0) n))
  = seq c0 (S n).
Proof.
  cbn [map waiter_call seq]. f_equal. rewrite map_map. cbn [waiter_call]. apply map_id.
Qed.

Lemma Forall_map_Follower (l : list nat) : Forall is_follower (map Follower l).
Proof. induction l as [|c l IH]; cbn [map]; by constructor. Qed.

End Concurrent.

(** C9. Every call settles. A run of [_makeRequest] with a budget of at
    least 1 and a non-negative delay makes at least one and at most
    [maxRetries] exchanges, its waits add up to at most
    [retryDelay * (2^(maxRetries-1) - 1)], and it ends either with a body
    whose [success] is truthy or with an error whose message is
    "API request failed after N attempts: " followed by a cause. In every
    reachable state of the service each call made so far has settled or
    waits for a run in flight, and it settles, with the outcome of that
    run, as soon as the run ends. *)
Theorem C9_call_settles :
  (forall (T : Api.Transport) (endpoint : string) (data : Props) (method : string)
          (options : Api.Options),
      1 <= Api.maxRetries_of options ->
      0 <= Api.retryDelay_of options ->
      exists (outcome : Api.Settled) (events : list Api.Event),
        Api._makeRequest T endpoint data method options = (outcome, events) /\
        (1 <= Api.exchanges events <= Z.to_nat (Api.maxRetries_of options))%nat /\
        Api.total (Api.sleeps events)
        <= Api.retryDelay_of options * (2 ^ (Api.maxRetries_of options - 1) - 1) /\
        ((exists result success,
             outcome = Api.Fulfilled result /\
             js_get result "success" = Some success /\ truthy success = true) \/
         (exists cause,
             outcome
             = Api.Rejected (Api.exhausted_message (Api.maxRetries_of options) cause)))) /\
  (forall (st : Api.ApiState) (call : nat),
      Api.reachable st ->
      (call < Api.next_call st)%nat ->
      is_Some (Api.settled st !! call) \/ exists p, Api.waiting st call p) /\
  (forall (st : Api.ApiState) (call p : nat) (T : Api.Transport),
      Api.waiting st call p ->
      exists r,
        Api.promises st !! p = Some (Api.Pending r) /\
        Api.settled (Api.settle p T st) !! call = Some (fst (Api.run_result T r))).
Proof.
  split; [|split].
  - intros T endpoint data method options Hmax Hdelay.
    destruct (Api._makeRequest T endpoint data method options) as [outcome events] eqn:E.
    exists outcome, events. split; [reflexivity|].
    unfold Api._makeRequest in E. fold (Api.maxRetries_of options) in E.
    fold (Api.retryDelay_of options) in E.
    destruct (Z.to_nat (Api.maxRetries_of options)) as [|remaining] eqn:Er; [lia|].
    destruct (loop_settles T endpoint data (Api.maxRetries_of options)
                (Api.retryDelay_of options) remaining 1) as (n & Hn & Hx & Hs & Ho); [lia|].
    rewrite E in Hx, Hs, Ho. cbn [fst snd] in Hx, Hs, Ho.
    split; [lia|]. split.
    + rewrite Hs, total_backoff.
      apply Z.mul_le_mono_nonneg_l; [exact Hdelay|].
      assert (2 ^ Z.of_nat n <= 2 ^ (Api.maxRetries_of options - 1)); [|lia].
      apply Z.pow_le_mono_r; lia.
    + destruct Ho as [(result & success & -> & Hs' & Ht)|(cause & -> & _)].
      * left. by exists result, success.
      * right. by exists cause.
  - intros st call Hreach Hcall. by apply tracked_reachable.
  - intros st call p T (r & Hp & Hin). exists r. split; [done|].
    destruct (settle_pending p T st r Hp) as (_ & _ & _ & ->).
    by rewrite decide_True.
Qed.

Lemma C9_call_settles_witness :
  (exists (outcome : Api.Settled) (events : list Api.Event),
      Api._makeRequest Scenario.always_fails "user.login" Scenario.alice "POST"
                       Api.no_options
      = (outcome, events) /\
      (1 <= Api.exchanges events <= Z.to_nat (Api.maxRetries_of Api.no_options))%nat /\
      Api.total (Api.sleeps events)
      <= Api.retryDelay_of Api.no_options
         * (2 ^ (Api.maxRetries_of Api.no_options - 1) - 1) /\
      ((exists result success,
           outcome = Api.Fulfilled result /\
           js_get result "success" = Some success /\ truthy success = true) \/
       (exists cause,
           outcome
           = Api.Rejected (Api.exhausted_message (Api.maxRetries_of Api.no_options)
                                                 cause)))) /\
  (is_Some (Api.settled Scenario.login_pending !! 0%nat) \/
   exists p, Api.waiting Scenario.login_pending 0%nat p) /\
  (exists r,
      Api.promises Scenario.login_pending !! 0%nat = Some (Api.Pending r) /\
      Api.settled (Api.settle 0%nat Scenario.always_fails Scenario.login_pending) !! 0%nat
      = Some (fst (Api.run_result Scenario.always_fails r))).
Proof.
  destruct C9_call_settles as (H1 & H2 & H3).
  split; [|split].
  - apply (H1 Scenario.always_fails "user.login" Scenario.alice "POST" Api.no_options).
    + change (Api.maxRetries_of Api.no_options) with 3. lia.
    + change (Api.retryDelay_of Api.no_options) with 1000. lia.
  - apply (H2 Scenario.login_pending 0%nat).
    + exists [Api.ACall "user.login" Scenario.alice Api.no_options]. reflexivity.
    + change (0 < 1)%nat. lia.
  - apply (H3 Scenario.login_pending 0%nat 0%nat Scenario.always_fails).
    eexists. split; [reflexivity|]. apply list_elem_of_here.
Defined.

(** C1, as stated, fails in its count of exchanges: two concurrent calls
    with the same arguments share one run, but when the first exchange of
    that run fails the run retries, so two exchanges occur (and both
    callers get the same result). *)
Lemma C1_two_exchanges_counterexample :
  Api.settled
    (Api.settle 0%nat Scenario.fails_once
       (Api.request_n 2 "user.login" Scenario.alice Api.no_options Api.init)) !! 0%nat
  = Some (Api.Fulfilled Scenario.ok_body) /\
  Api.settled
    (Api.settle 0%nat Scenario.fails_once
       (Api.request_n 2 "user.login" Scenario.alice Api.no_options Api.init)) !! 1%nat
  = Some (Api.Fulfilled Scenario.ok_body) /\
  Api.exchanges
    (map snd
       (Api.network
          (Api.settle 0%nat Scenario.fails_once
             (Api.request_n 2 "user.login" Scenario.alice Api.no_options Api.init))))
  = 2%nat /\
  Api.exchanges
    (map snd
       (Api.network
          (Api.settle 0%nat Scenario.fails_once
             (Api.request_n 2 "user.login" Scenario.alice Api.no_options Api.init))))
  <> 1%nat.
Proof. vm_compute. repeat split; discriminate. Qed.

(** C1, amended. (1) A call that is not answered from the cache and finds
    its key in [requestQueue] starts no run and no exchange: it becomes a
    waiter of the pending promise. (2) Whatever happens before that
    promise settles, its queue entry stays, its waiters stay, and when it
    settles every waiter receives the outcome of the one run behind it.
    (3) N = n + 1 successive calls with the same arguments, the first of
    which finds neither a cache entry nor a pending request, start exactly
    one [_makeRequest] run; the exchanges made are those of that single
    run (at most [maxRetries], exactly one when its first attempt
    succeeds); all N callers receive the same outcome; the queue entry is
    removed on settlement, and a later call that is not answered from the
    cache starts a fresh run. *)
Theorem C1_dedup_single_run :
  (forall (st : Api.ApiState) (endpoint : string) (data : Props) (options : Api.Options)
          (p : nat),
      Api.reachable st ->
      Api.cache_hit st (Api.call_key endpoint data options) (Api.call_method options) = None ->
      Api.requestQueue st !! Api.call_key endpoint data options = Some p ->
      Api.waiting (Api.request endpoint data options st) (Api.next_call st) p /\
      Api.next_promise (Api.request endpoint data options st) = Api.next_promise st /\
      Api.network (Api.request endpoint data options st) = Api.network st /\
      Api.requestQueue (Api.request endpoint data options st) = Api.requestQueue st) /\
  (forall (st : Api.ApiState) (k : string) (p c : nat) (acts : list Api.Action)
          (T : Api.Transport),
      Api.reachable st ->
      Api.requestQueue st !! k = Some p ->
      Api.waiting st c p ->
      Forall (Api.leaves_pending p) acts ->
      Api.requestQueue (Api.run st acts) !! k = Some p /\
      Api.waiting (Api.run st acts) c p /\
      exists r,
        Api.promises st !! p = Some (Api.Pending r) /\
        Api.settled (Api.settle p T (Api.run st acts)) !! c
        = Some (fst (Api.run_result T r))) /\
  (forall (st : Api.ApiState) (endpoint : string) (data : Props) (options : Api.Options)
          (n : nat) (T : Api.Transport),
      Api.cache_hit st (Api.call_key endpoint data options) (Api.call_method options) = None ->
      Api.requestQueue st !! Api.call_key endpoint data options = None ->
      let p := Api.next_promise st in
      let started := Api.request_n (S n) endpoint data options st in
      let final := Api.settle p T started in
      let outcome :=
        fst (Api._makeRequest T endpoint data (Api.call_method options) options) in
      let events :=
        snd (Api._makeRequest T endpoint data (Api.call_method options) options) in
      Api.next_promise started = S (Api.next_promise st) /\
      Api.next_promise final = S (Api.next_promise st) /\
      Api.network final = Api.network st ++ map (pair p) events /\
      (Api.exchanges events <= Z.to_nat (Api.maxRetries_of options))%nat /\
      (forall result,
          1 <= Api.maxRetries_of options ->
          Api.classify (T 1 (Api.request_body endpoint data)) = inr result ->
          Api.exchanges events = 1%nat) /\
      (forall i, (i <= n)%nat ->
                 Api.settled final !! (Api.next_call st + i)%nat = Some outcome) /\
      Api.requestQueue final !! Api.call_key endpoint data options = None /\
      (Api.cache_hit final (Api.call_key endpoint data options) (Api.call_method options)
       = None ->
       Api.requestQueue (Api.request endpoint data options final)
         !! Api.call_key endpoint data options = Some (Api.next_promise final) /\
       Api.next_promise (Api.request endpoint data options final)
       = S (Api.next_promise final))).
Proof.
  split; [|split].
  - intros st endpoint data options p Hreach Hc Hq.
    pose proof (reachable_wf st Hreach) as Hwf.
    destruct (Api.wf_queue st Hwf _ _ Hq) as (r & Hp & _).
    rewrite (request_join _ _ _ _ p r Hc Hq Hp).
    cbn [Api.next_promise Api.network Api.requestQueue].
    split; [|done]. unfold Api.waiting. eexists. cbn [Api.promises].
    split; [apply lookup_insert_eq|].
    cbn [Api.run_waiters]. rewrite map_app. apply elem_of_app. right.
    cbn. apply list_elem_of_here.
  - intros st k p c acts T Hreach Hk (r & Hp & Hc) Hall.
    destruct (run_leaves_pending acts st k p r (reachable_wf st Hreach) Hk Hp Hall)
      as (_ & Hk' & r' & Hp' & Hres & Hin).
    split; [done|]. split; [exists r'; split; [done|by apply Hin]|].
    exists r. split; [done|].
    destruct (settle_pending p T (Api.run st acts) r' Hp') as (_ & _ & _ & Hs).
    rewrite Hs, Hres. by rewrite decide_True by auto.
  - intros st endpoint data options n T Hc Hq p started final outcome events.
    subst started final. rewrite (request_n_started endpoint data options n st Hc Hq).
    cbn [Api.next_promise Api.network].
    split; [done|].
    erewrite settle_originated; cycle 1.
    + cbn [Api.promises]. apply lookup_insert_eq.
    + reflexivity.
    + apply Forall_map_Follower.
    + cbn [Api.next_promise Api.network Api.requestQueue Api.settled Api.promises
           Api.run_endpoint Api.run_data Api.run_method Api.run_options Api.run_waiters].
      fold outcome events.
      split; [done|]. split; [done|].
      split; [apply makeRequest_exchanges_le|].
      split.
      { intros result Hmax Hok. subst events.
        rewrite (makeRequest_succeeds_at T endpoint data (Api.call_method options) options
                   (fun _ => "") 1 result); [reflexivity|lia|intros a Ha; lia|exact Hok]. }
      split.
      { intros i Hi.
        rewrite (lookup_settled_waiters outcome), waiter_calls_started.
        rewrite decide_True; [done|]. apply list_elem_of_In, in_seq. lia. }
      split.
      { apply lookup_delete_eq. }
      intros Hc'.
      rewrite (request_start endpoint data options _ Hc'); [|apply lookup_delete_eq].
      cbn [Api.requestQueue Api.next_promise]. split; [|done]. apply lookup_insert_eq.
Qed.

Lemma C1_dedup_single_run_witness :
  (Api.waiting (Api.request "user.login" Scenario.alice Api.no_options Scenario.login_pending)
               1%nat 0%nat /\
   Api.next_promise
     (Api.request "user.login" Scenario.alice Api.no_options Scenario.login_pending)
   = Api.next_promise Scenario.login_pending) /\
  (Api.waiting
     (Api.run Scenario.login_pending
        [Api.ACall "user.login" Scenario.alice Api.no_options; Api.AAdvance 10])
     0%nat 0%nat /\
   exists r,
     Api.promises Scenario.login_pending !! 0%nat = Some (Api.Pending r) /\
     Api.settled
       (Api.settle 0%nat Scenario.fails_once
          (Api.run Scenario.login_pending
             [Api.ACall "user.login" Scenario.alice Api.no_options; Api.AAdvance 10]))
       !! 0%nat
     = Some (fst (Api.run_result Scenario.fails_once r))) /\
  (Api.exchanges
     (snd (Api._makeRequest Scenario.always_ok "user.login" Scenario.alice
                            (Api.call_method Api.no_options) Api.no_options)) = 1%nat /\
   Api.settled
     (Api.settle 0%nat Scenario.always_ok
        (Api.request_n 2 "user.login" Scenario.alice Api.no_options Api.init)) !! 1%nat
   = Some (fst (Api._makeRequest Scenario.always_ok "user.login" Scenario.alice
                                 (Api.call_method Api.no_options) Api.no_options)) /\
   Api.next_promise
     (Api.request "user.login" Scenario.alice Api.no_options
        (Api.settle 0%nat Scenario.always_ok
           (Api.request_n 2 "user.login" Scenario.alice Api.no_options Api.init)))
   = 2%nat).
Proof.
  destruct C1_dedup_single_run as (H1 & H2 & H3).
  assert (Hreach : Api.reachable Scenario.login_pending).
  { exists [Api.ACall "user.login" Scenario.alice Api.no_options]. reflexivity. }
  split; [|split].
  - destruct (H1 Scenario.login_pending "user.login" Scenario.alice Api.no_options 0%nat
                 Hreach eq_refl eq_refl) as (Hw & Hn & _).
    split; [exact Hw|exact Hn].
  - destruct (H2 Scenario.login_pending
                 (Api.call_key "user.login" Scenario.alice Api.no_options) 0%nat 0%nat
                 [Api.ACall "user.login" Scenario.alice Api.no_options; Api.AAdvance 10]
                 Scenario.fails_once Hreach eq_refl) as (_ & Hw & Hr).
    + eexists. split; [reflexivity|]. apply list_elem_of_here.
    + repeat constructor.
    + split; [exact Hw|exact Hr].
  - destruct (H3 Api.init "user.login" Scenario.alice Api.no_options 1%nat
                 Scenario.always_ok eq_refl eq_refl)
      as (_ & _ & _ & _ & Hone & Hall & _ & Hfresh).
    split; [|split].
    + apply (Hone Scenario.ok_body); [|reflexivity].
      change (Api.maxRetries_of Api.no_options) with 3. lia.
    + apply (Hall 1%nat). lia.
    + apply Hfresh. reflexivity.
Defined.

(** ** The cache within the time to live *)

Section Live.
Import Api.



Variable cacheKey : string.
Variable v : JsVal.
Variable t_end : Z.





End Live.




(** The same on the states of [Scenario]: an eviction timer is not
    cancelled when its entry is cleared. If the entry is cleared and stored again, the timer of
    the first entry removes the second one when it fires, here 1000 ms
    after it was stored with a time to live of 60000 ms, and the next
    call goes to the transport. *)
Lemma stale_timer_evicts_fresh_entry :
  Api.cache Scenario.refetched !! "profile_a@b.com" = Some Scenario.ok_body /\
  Api.timers Scenario.refetched
  = [(60000, "profile_a@b.com"); (119000, "profile_a@b.com")] /\
  Api.now Scenario.stale_timer_fired = 60000 /\
  Api.cache Scenario.stale_timer_fired !! "profile_a@b.com" = None /\
  Api.next_promise (Api.getUserProfile "a@b.com" Scenario.stale_timer_fired)
  = S (Api.next_promise Scenario.stale_timer_fired).
Proof. vm_compute. repeat split. Qed.

(** ** The override on the global instance *)

(** The wrapper assigned to [API._makeRequest] rejects every call with
    the TypeError, whatever the transport would answer, and shows no
    notification. *)
Lemma instance_makeRequest_rejects (T : Api.Transport) (endpoint : string) (data : Props)
    (method : string) (options : Api.Options) :
  Api.instance_makeRequest T endpoint data method options
  = (Api.Rejected "Cannot read properties of undefined (reading 'apply')", None).
Proof. reflexivity. Qed.

(* ===================================================================== *)
(** * Part III: further properties of the code                             *)
(* ===================================================================== *)

(** ** The request payload and the retry policy *)

Section Payload.
Import Api.

Lemma props_get_set_eq (k : string) (v : JsVal) (props : Props) :
  props_get k (props_set k v props) = Some v.
Proof.
  induction props as [|[k' v'] props IH]; cbn [props_set props_get].
  - by rewrite String.eqb_refl.
  - destruct (String.eqb_spec k k') as [->|Hne]; cbn [props_get].
    + by rewrite String.eqb_refl.
    + destruct (String.eqb_spec k k'); [done|exact IH].
Qed.

Lemma props_get_set_ne (k k0 : string) (v : JsVal) (props : Props) :
  k0 <> k -> props_get k0 (props_set k v props) = props_get k0 props.
Proof.
  intros Hne. induction props as [|[k' v'] props IH]; cbn [props_set props_get].
  - by destruct (String.eqb_spec k0 k).
  - destruct (String.eqb_spec k k') as [->|Hne']; cbn [props_get].
    + by destruct (String.eqb_spec k0 k').
    + by rewrite IH.
Qed.

Lemma props_set_keys (k : string) (v : JsVal) (props : Props) :
  map fst (props_set k v props)
  = if decide (k ∈ map fst props) then map fst props else map fst props ++ [k].
Proof.
  induction props as [|[k' v'] props IH]; cbn [props_set map fst].
  - case_decide as H; [by apply not_elem_of_nil in H|done].
  - destruct (String.eqb_spec k k') as [->|Hne]; cbn [map fst].
    + rewrite decide_True; [done|apply list_elem_of_here].
    + rewrite IH. destruct (decide (k ∈ map fst props)) as [Hin|Hout].
      * rewrite decide_True; [done|by apply list_elem_of_further].
      * rewrite decide_False; [done|].
        intros Hin. apply elem_of_cons in Hin as [->|Hin]; done.
Qed.

(** The object sent to the backend, [{...data, action: endpoint}], always
    says [action: endpoint], whatever [action] the caller put in [data];
    every other property of [data] is sent with its value, and no
    property is added besides [action]. *)
Theorem payload_action (endpoint : string) (data : Props) :
  props_get "action" (props_set "action" (JStr endpoint) data) = Some (JStr endpoint) /\
  (forall k, k <> "action" ->
             props_get k (props_set "action" (JStr endpoint) data) = props_get k data) /\
  map fst (props_set "action" (JStr endpoint) data)
  = (if decide ("action" ∈ map fst data) then map fst data else map fst data ++ ["action"]) /\
  request_body endpoint data
  = JSON_stringify (JObj (props_set "action" (JStr endpoint) data)).
Proof.
  split; [apply props_get_set_eq|]. split; [intros k Hk; by apply props_get_set_ne|].
  split; [apply props_set_keys|reflexivity].
Qed.

(** A negative [retries] option makes [_makeRequest] resolve with
    [undefined] without a single exchange: the loop body never runs. A
    zero or absent [retries] means 3 attempts, a zero or absent
    [retryDelay] means 1000 ms. *)
Theorem negative_retries_resolve_undefined (T : Transport) (endpoint : string)
    (data : Props) (method : string) (options : Options) (n : Z) :
  opt_retries options = Some n -> n < 0 ->
  _makeRequest T endpoint data method options = (Fulfilled JUndefined, []).
Proof.
  intros Hn Hneg. unfold _makeRequest. rewrite Hn. cbn [or_Z].
  destruct (Z.eqb_spec n 0) as [->|_]; [lia|].
  by replace (Z.to_nat n) with 0%nat by lia.
Qed.

Lemma negative_retries_resolve_undefined_witness :
  _makeRequest Scenario.always_ok "user.login" Scenario.alice "POST"
               (mkOptions None None None (Some (-1)) None)
  = (Fulfilled JUndefined, []).
Proof.
  apply (negative_retries_resolve_undefined Scenario.always_ok "user.login" Scenario.alice
           "POST" (mkOptions None None None (Some (-1)) None) (-1)); [reflexivity|lia].
Defined.

(** [retries: 0] does not mean "no retry": zero is falsy, so the budget
    is the default 3. Over a transport on which every exchange fails the
    run makes 3 exchanges and reports 3 attempts. *)
Theorem zero_retries_means_three (T : Transport) (endpoint : string) (data : Props)
    (method : string) (options : Options) (cause : Z -> string) :
  opt_retries options = Some 0 ->
  (forall attempt, 1 <= attempt <= 3 ->
                   classify (T attempt (request_body endpoint data)) = inl (cause attempt)) ->
  exchanges (snd (_makeRequest T endpoint data method options)) = 3%nat /\
  fst (_makeRequest T endpoint data method options)
  = Rejected ("API request failed after 3 attempts: " +:+ cause 3).
Proof.
  intros H0 Hfail.
  assert (Hmax : maxRetries_of options = 3) by (unfold maxRetries_of; by rewrite H0).
  destruct (makeRequest_all_fail T endpoint data method options cause) as (Ho & Hx & _).
  - lia.
  - rewrite Hmax. exact Hfail.
  - rewrite Ho, Hx, Hmax. by split.
Qed.

Lemma zero_retries_means_three_witness :
  exchanges (snd (_makeRequest Scenario.always_denies "user.login" Scenario.alice "POST"
                               (mkOptions None None None (Some 0) None))) = 3%nat /\
  fst (_makeRequest Scenario.always_denies "user.login" Scenario.alice "POST"
                    (mkOptions None None None (Some 0) None))
  = Rejected "API request failed after 3 attempts: User not found".
Proof.
  apply (zero_retries_means_three Scenario.always_denies "user.login" Scenario.alice "POST"
           (mkOptions None None None (Some 0) None) (fun _ => "User not found"));
    [reflexivity|intros attempt _; reflexivity].
Defined.

(** Whatever the transport answers, a run with a budget of at least 1
    waits exactly once between two consecutive exchanges and never after
    the last one: with [k] exchanges made, the waits are
    [retryDelay * 2^0, ..., retryDelay * 2^(k-2)]. *)
Theorem waits_between_exchanges (T : Transport) (endpoint : string) (data : Props)
    (method : string) (options : Options) :
  1 <= maxRetries_of options ->
  sleeps (snd (_makeRequest T endpoint data method options))
  = map (fun a => retryDelay_of options * 2 ^ (a - 1))
        (seqZ 1 (Z.of_nat (exchanges (snd (_makeRequest T endpoint data method options)))
                 - 1)).
Proof.
  intros Hmax. unfold _makeRequest. fold (maxRetries_of options) (retryDelay_of options).
  destruct (Z.to_nat (maxRetries_of options)) as [|remaining] eqn:Er; [lia|].
  destruct (loop_settles T endpoint data (maxRetries_of options) (retryDelay_of options)
              remaining 1) as (n & _ & Hx & Hs & _); [lia|].
  rewrite Hs, Hx. by replace (Z.of_nat (S n) - 1) with (Z.of_nat n) by lia.
Qed.

Lemma waits_between_exchanges_witness :
  sleeps (snd (_makeRequest Scenario.fails_once "user.login" Scenario.alice "POST" no_options))
  = map (fun a => retryDelay_of no_options * 2 ^ (a - 1))
        (seqZ 1 (Z.of_nat
                   (exchanges (snd (_makeRequest Scenario.fails_once "user.login"
                                                 Scenario.alice "POST" no_options)))
                 - 1)).
Proof.
  apply (waits_between_exchanges Scenario.fails_once "user.login" Scenario.alice "POST"
                                 no_options).
  change (maxRetries_of no_options) with 3. lia.
Defined.

End Payload.

(** ** What gets into the cache, and when it leaves *)

Section CacheContents.
Import Api.

Lemma loop_fulfilled T endpoint data maxRetries retryDelay (remaining : nat) :
  forall attempt v,
    fst (retry_loop T endpoint data maxRetries retryDelay remaining attempt) = Fulfilled v ->
    v = JUndefined \/
    exists success, js_get v "success" = Some success /\ truthy success = true.
Proof.
  induction remaining as [|remaining IH]; intros attempt v; cbn [retry_loop].
  - intros [= <-]. by left.
  - destruct (classify _) as [message|result] eqn:Hc.
    + destruct (Z.eqb attempt maxRetries); [done|].
      specialize (IH (attempt + 1) v).
      destruct (retry_loop _ _ _ _ _ remaining (attempt + 1)) as [o ev]. exact IH.
    + intros [= <-]. right. by apply (classify_inr _ _ Hc).
Qed.

(** A step puts a value into the cache only by settling a run that was
    started by a [GET] call with a truthy [cacheTime] and that succeeded:
    calls with another method, failed runs, timers and invalidations never
    add or change an entry. *)
Theorem cache_written_only_by_successful_get (st : ApiState) (a : Action)
    (key : string) (v : JsVal) :
  wf st ->
  cache (step st a) !! key = Some v ->
  cache st !! key = Some v \/
  exists p T r c options followers,
    a = ASettle p T /\
    promises st !! p = Some (Pending r) /\
    run_waiters r = Originator c key "GET" options :: followers /\
    truthy_Z (opt_cacheTime options) = true /\
    fst (run_result T r) = Fulfilled v.
Proof.
  intros Hwf Hv.
  destruct a as [endpoint data options|p T|i|dt|email|]; cbn [step] in Hv.
  - destruct (request_frame endpoint data options st) as (Ec & _). rewrite Ec in Hv.
    by left.
  - destruct (promises st !! p) as [[r|o]|] eqn:Hp;
      [|rewrite settle_not_pending in Hv; [by left|intros r1; by rewrite Hp]..].
    destruct (wf_pending st Hwf p r Hp) as (k & (c & m & o & fs & Hw & Hf) & Hk).
    rewrite (settle_originated p T st r c k m o fs Hp Hw Hf) in Hv. cbn [cache] in Hv.
    destruct (stores m o _) as [result|] eqn:Hs; [|by left].
    destruct (decide (k = key)) as [->|Hne];
      [|rewrite lookup_insert_ne in Hv by done; by left].
    rewrite lookup_insert_eq in Hv. injection Hv as ->.
    right. unfold stores in Hs.
    destruct (fst (_makeRequest T _ _ _ _)) as [result|message] eqn:Ho; [|done].
    destruct (String.eqb_spec m "GET") as [->|_]; [|done].
    destruct (truthy_Z (opt_cacheTime o)) eqn:Ht; [|done].
    cbn in Hs. injection Hs as ->.
    exists p, T, r, c, o, fs. by repeat split.
  - left. unfold fire_timer in Hv. destruct (timers st !! i) as [[due k]|]; [|done].
    destruct (Z.leb due (now st)); [|done]. cbn [set_timers set_cache cache] in Hv.
    by apply lookup_delete_Some in Hv as [_ Hv].
  - by left.
  - left. cbn [clearUserCache set_cache cache] in Hv. rewrite lookup_clearUserCache in Hv.
    by destruct (includes key email).
  - cbn [clearCache set_cache cache] in Hv. by rewrite lookup_empty in Hv.
Qed.

Lemma cache_written_only_by_successful_get_witness :
  cache Scenario.profile_pending !! "profile_a@b.com" = Some Scenario.ok_body \/
  exists p T r c options followers,
    ASettle 0%nat Scenario.always_ok = ASettle p T /\
    promises Scenario.profile_pending !! p = Some (Pending r) /\
    run_waiters r = Originator c "profile_a@b.com" "GET" options :: followers /\
    truthy_Z (opt_cacheTime options) = true /\
    fst (run_result T r) = Fulfilled Scenario.ok_body.
Proof.
  apply (cache_written_only_by_successful_get Scenario.profile_pending
           (ASettle 0%nat Scenario.always_ok) "profile_a@b.com" Scenario.ok_body).
  - apply reachable_wf. exists [ACall "user.profile" [("email", JStr "a@b.com")]
                                      (getUserProfile_options "a@b.com")]. reflexivity.
  - vm_compute. reflexivity.
Defined.

(** In every reachable state each cached value is a body the backend
    marked as a success (its [success] property is truthy), or [undefined]
    when it comes from a run with a non-positive budget: the cache never
    holds a failure. *)
Theorem cache_holds_successes (st : ApiState) (key : string) (v : JsVal) :
  reachable st ->
  cache st !! key = Some v ->
  v = JUndefined \/
  exists success, js_get v "success" = Some success /\ truthy success = true.
Proof.
  intros [acts ->]. revert key v.
  assert (H : forall acts st,
             wf st ->
             (forall key v, cache st !! key = Some v ->
                v = JUndefined \/
                exists success, js_get v "success" = Some success /\ truthy success = true) ->
             forall key v, cache (run st acts) !! key = Some v ->
                v = JUndefined \/
                exists success, js_get v "success" = Some success /\ truthy success = true).
  { clear. induction acts as [|a acts IH]; intros st Hwf Hst; [exact Hst|].
    cbn [run foldl]. apply IH; [by apply wf_step|].
    intros key v Hv.
    destruct (cache_written_only_by_successful_get st a key v Hwf Hv)
      as [Hold|(p & T & r & c & o & fs & _ & _ & _ & _ & Hres)]; [by apply (Hst key)|].
    by apply (loop_fulfilled T (run_endpoint r) (run_data r)
                (or_Z (opt_retries (run_options r)) 3)
                (or_Z (opt_retryDelay (run_options r)) 1000)
                (Z.to_nat (or_Z (opt_retries (run_options r)) 3)) 1). }
  apply H; [apply wf_init|]. intros key v Hv. cbn [init cache] in Hv.
  by rewrite lookup_empty in Hv.
Qed.

Lemma cache_holds_successes_witness :
  Scenario.ok_body = JUndefined \/
  exists success,
    js_get Scenario.ok_body "success" = Some success /\ truthy success = true.
Proof.
  apply (cache_holds_successes (settle 0%nat Scenario.always_ok Scenario.profile_pending)
                               "profile_a@b.com" Scenario.ok_body).
  - exists [ACall "user.profile" [("email", JStr "a@b.com")]
                  (getUserProfile_options "a@b.com");
            ASettle 0%nat Scenario.always_ok]. reflexivity.
  - vm_compute. reflexivity.
Defined.

(** The eviction timer of an entry (lines 40-42). A [GET] call with
    [cacheTime = ttl], from 1 to 2^31 - 1 ms (the delays [setTimeout]
    takes as they are), that goes to the transport and succeeds stores its
    result and schedules one timer, due [ttl] after the store. The
    callback cannot take the entry away before that; once [ttl] has
    elapsed it removes the entry, and the same call made next starts a
    new run. *)
Theorem eviction_after_ttl (st : ApiState) (endpoint : string) (data : Props)
    (options : Options) (ttl : Z) (T : Transport) (v : JsVal) :
  call_method options = "GET" ->
  opt_cacheTime options = Some ttl -> 0 < ttl <= 2147483647 ->
  cache st !! call_key endpoint data options = None ->
  requestQueue st !! call_key endpoint data options = None ->
  fst (_makeRequest T endpoint data (call_method options) options) = Fulfilled v ->
  let first := settle (next_promise st) T (request endpoint data options st) in
  cache first !! call_key endpoint data options = Some v /\
  timers first = timers st ++ [(now st + ttl, call_key endpoint data options)] /\
  (forall dt, Z.max 0 dt < ttl ->
              fire_timer (length (timers st)) (advance dt first) = advance dt first) /\
  (forall dt, ttl <= Z.max 0 dt ->
              let evicted := fire_timer (length (timers st)) (advance dt first) in
              cache evicted !! call_key endpoint data options = None /\
              timers evicted = timers st /\
              requestQueue (request endpoint data options evicted)
                !! call_key endpoint data options = Some (next_promise evicted) /\
              next_promise (request endpoint data options evicted)
              = S (next_promise evicted)).
Proof.
  intros Hm Httl Hnz Hcache Hq Hok first.
  assert (Hc : cache_hit st (call_key endpoint data options) (call_method options) = None).
  { unfold cache_hit. by rewrite Hm. }
  assert (Hstores : stores (call_method options) options (Fulfilled v) = Some v).
  { unfold stores, truthy_Z. rewrite Hm, Httl. destruct (Z.eqb_spec ttl 0); [lia|done]. }
  assert (Hfirst :
            first
            = mkApi
                (<[call_key endpoint data options := v]> (cache st))
                (delete (call_key endpoint data options)
                        (<[call_key endpoint data options := next_promise st]>
                           (requestQueue st)))
                (<[next_promise st := Done (Fulfilled v)]>
                   (<[next_promise st :=
                        Pending
                          (mkRun endpoint data (call_method options) options
                             [Originator (next_call st) (call_key endpoint data options)
                                (call_method options) options])]>
                      (promises st)))
                (S (next_promise st))
                (timers st ++ [(now st + ttl, call_key endpoint data options)])
                (now st)
                (<[next_call st := Fulfilled v]> (settled st))
                (S (next_call st))
                (network st
                   ++ map (pair (next_promise st))
                          (snd (_makeRequest T endpoint data (call_method options)
                                             options)))).
  { subst first. rewrite (request_start _ _ _ _ Hc Hq).
    erewrite settle_originated; cycle 1.
    - cbn [promises]. apply lookup_insert_eq.
    - reflexivity.
    - constructor.
    - cbn [cache requestQueue promises next_promise timers now settled next_call network
           run_endpoint run_data run_method run_options run_waiters foldl waiter_call].
      rewrite Hok, Hstores, Httl. change (default 0 (Some ttl)) with ttl.
      rewrite setTimeout_delay_small by lia. reflexivity. }
  assert (Hlookup : forall dt,
             timers (advance dt first) !! length (timers st)
             = Some (now st + ttl, call_key endpoint data options)).
  { intros dt. rewrite Hfirst. cbn [advance timers].
    rewrite lookup_app_r by lia. by rewrite Nat.sub_diag. }
  split; [rewrite Hfirst; cbn [cache]; apply lookup_insert_eq|].
  split; [by rewrite Hfirst|]. split.
  - intros dt Hdt. unfold fire_timer. rewrite Hlookup.
    destruct (Z.leb_spec (now st + ttl) (now (advance dt first))) as [Hle|_]; [|done].
    rewrite Hfirst in Hle. cbn [advance now] in Hle. lia.
  - intros dt Hdt evicted.
    assert (Hev : evicted
                  = set_timers (fun ts => take (length (timers st)) ts
                                          ++ drop (S (length (timers st))) ts)
                      (set_cache (delete (call_key endpoint data options))
                                 (advance dt first))).
    { subst evicted. unfold fire_timer. rewrite Hlookup.
      destruct (Z.leb_spec (now st + ttl) (now (advance dt first))) as [_|Hlt]; [done|].
      rewrite Hfirst in Hlt. cbn [advance now] in Hlt. lia. }
    assert (Hce : cache evicted !! call_key endpoint data options = None).
    { rewrite Hev. cbn [set_timers set_cache cache]. apply lookup_delete_eq. }
    assert (Hqe : requestQueue evicted !! call_key endpoint data options = None).
    { rewrite Hev, Hfirst. cbn [set_timers set_cache advance requestQueue].
      apply lookup_delete_eq. }
    split; [exact Hce|]. split.
    + rewrite Hev, Hfirst. cbn [set_timers set_cache advance timers].
      rewrite take_app_length, drop_ge by (rewrite length_app; cbn; lia).
      apply app_nil_r.
    + rewrite (request_start endpoint data options evicted);
        [|unfold cache_hit; by rewrite Hm|done].
      cbn [requestQueue next_promise]. split; [apply lookup_insert_eq|done].
Qed.

End CacheContents.

Lemma eviction_after_ttl_witness :
  Api.cache (Api.settle 0%nat Scenario.always_ok Scenario.profile_pending)
    !! "profile_a@b.com" = Some Scenario.ok_body /\
  Api.fire_timer 0 (Api.advance 59999
                      (Api.settle 0%nat Scenario.always_ok Scenario.profile_pending))
  = Api.advance 59999 (Api.settle 0%nat Scenario.always_ok Scenario.profile_pending) /\
  Api.cache
    (Api.fire_timer 0 (Api.advance 60000
                         (Api.settle 0%nat Scenario.always_ok Scenario.profile_pending)))
    !! "profile_a@b.com" = None.
Proof.
  destruct (eviction_after_ttl Api.init "user.profile" [("email", JStr "a@b.com")]
              (Api.getUserProfile_options "a@b.com") 60000 Scenario.always_ok
              Scenario.ok_body eq_refl eq_refl) as (H1 & _ & H3 & H4);
    [lia|reflexivity|reflexivity|reflexivity|].
  split; [exact H1|]. split.
  - apply (H3 59999). lia.
  - apply (H4 60000). lia.
Defined.

Section Invalidation.
Import Api.

(** [clearCache] empties the cache but does not touch the runs in flight:
    a [GET] run with a [cacheTime] that was pending when the cache was
    cleared stores its result when it succeeds, so the entry is back
    after the invalidation. The same holds for [clearUserCache]. *)
Theorem clearCache_keeps_runs_in_flight (st : ApiState) (p : nat) (r : Run) (c : nat)
    (key : string) (options : Options) (followers : list Waiter) (T : Transport)
    (v : JsVal) (email : string) :
  promises st !! p = Some (Pending r) ->
  run_waiters r = Originator c key "GET" options :: followers ->
  Forall is_follower followers ->
  truthy_Z (opt_cacheTime options) = true ->
  fst (run_result T r) = Fulfilled v ->
  cache (clearCache st) = ∅ /\
  requestQueue (clearCache st) = requestQueue st /\
  promises (clearCache st) = promises st /\
  cache (settle p T (clearCache st)) !! key = Some v /\
  cache (settle p T (clearUserCache email st)) !! key = Some v.
Proof.
  intros Hp Hw Hf Ht Hres.
  assert (Hstores : stores "GET" options
                      (fst (_makeRequest T (run_endpoint r) (run_data r) (run_method r)
                                         (run_options r))) = Some v).
  { unfold run_result in Hres. rewrite Hres. unfold stores. by rewrite Ht. }
  split; [done|]. split; [done|]. split; [done|]. split.
  - rewrite (settle_originated p T (clearCache st) r c key "GET" options followers Hp Hw Hf).
    cbn [cache]. rewrite Hstores. apply lookup_insert_eq.
  - rewrite (settle_originated p T (clearUserCache email st) r c key "GET" options
               followers Hp Hw Hf).
    cbn [cache]. rewrite Hstores. apply lookup_insert_eq.
Qed.

Lemma clearCache_keeps_runs_in_flight_witness :
  cache (settle 0%nat Scenario.always_ok (clearCache Scenario.profile_pending))
    !! "profile_a@b.com" = Some Scenario.ok_body.
Proof.
  destruct (clearCache_keeps_runs_in_flight Scenario.profile_pending 0%nat
              (mkRun "user.profile" [("email", JStr "a@b.com")] "GET"
                     (getUserProfile_options "a@b.com")
                     [Originator 0%nat "profile_a@b.com" "GET"
                                 (getUserProfile_options "a@b.com")])
              0%nat "profile_a@b.com" (getUserProfile_options "a@b.com") []
              Scenario.always_ok Scenario.ok_body "a@b.com"
              eq_refl eq_refl (Forall_nil_2 _) eq_refl eq_refl)
    as (_ & _ & _ & H & _).
  exact H.
Defined.

(** Every entry stored by the four cached operations ([getUserProfile],
    [getUserTokens], [getUserPosts] with any filters, [getUserStats]) for
    an email has that email in its key, so [clearUserCache(email)]
    removes all of them. *)
Theorem clearUserCache_removes_user_entries (email : string) (filters : Props)
    (st : ApiState) :
  call_key "user.profile" [("email", JStr email)] (getUserProfile_options email)
  = "profile_" +:+ email /\
  call_key "token.list" [("email", JStr email)] (getUserTokens_options email)
  = "tokens_" +:+ email /\
  call_key "post.list" (spread filters [("email", JStr email)])
           (getUserPosts_options email filters)
  = "posts_" +:+ email +:+ "_" +:+ JSON_stringify (JObj filters) /\
  call_key "post.stats" [("email", JStr email)] (getUserStats_options email)
  = "stats_" +:+ email /\
  cache (clearUserCache email st) !! ("profile_" +:+ email) = None /\
  cache (clearUserCache email st) !! ("tokens_" +:+ email) = None /\
  cache (clearUserCache email st)
    !! ("posts_" +:+ email +:+ "_" +:+ JSON_stringify (JObj filters)) = None /\
  cache (clearUserCache email st) !! ("stats_" +:+ email) = None.
Proof.
  assert (Hinc : forall pre post, includes (pre +:+ email +:+ post) email = true).
  { intros pre post. apply includes_spec. by exists pre, post. }
  assert (Hinc0 : forall pre, includes (pre +:+ email) email = true).
  { intros pre. apply includes_spec. exists pre, "".
    assert (E : forall s : string, s +:+ "" = s).
    { clear. induction s as [|a s IH]; [done|].
      change (String a (s +:+ "") = String a s). by rewrite IH. }
    by rewrite E. }
  do 4 (split; [reflexivity|]).
  cbn [clearUserCache set_cache cache]. rewrite !lookup_clearUserCache.
  rewrite (Hinc0 "profile_"), (Hinc0 "tokens_"), (Hinc0 "stats_").
  by rewrite (Hinc "posts_" ("_" +:+ JSON_stringify (JObj filters))).
Qed.

End Invalidation.

(** ** The request queue *)

Section Queue.
Import Api.

(** In every reachable state [requestQueue] holds exactly the runs in
    flight: each entry points to a pending promise whose run was started
    by a call under that key, each pending promise is registered under
    the key of the call that started it, no promise is registered under
    two keys, and when no run is in flight the queue is empty. Settled
    requests leave nothing behind. *)
Theorem requestQueue_mirrors_runs (st : ApiState) :
  reachable st ->
  (forall k p, requestQueue st !! k = Some p ->
               exists r, promises st !! p = Some (Pending r) /\ originated r k) /\
  (forall p r, promises st !! p = Some (Pending r) ->
               exists k, originated r k /\ requestQueue st !! k = Some p) /\
  (forall k k' p, requestQueue st !! k = Some p -> requestQueue st !! k' = Some p ->
                  k = k') /\
  ((forall p r, promises st !! p <> Some (Pending r)) -> requestQueue st = ∅).
Proof.
  intros Hreach. pose proof (reachable_wf st Hreach) as [H1 H2 H3].
  split; [exact H1|]. split; [exact H2|]. split.
  - intros k k' p Hk Hk'.
    destruct (H1 k p Hk) as (r & Hp & Hor), (H1 k' p Hk') as (r' & Hp' & Hor').
    rewrite Hp in Hp'. injection Hp' as <-. by apply (originated_inj r).
  - intros Hnone. apply map_eq. intros k. rewrite lookup_empty.
    destruct (requestQueue st !! k) as [p|] eqn:Hk; [|done].
    destruct (H1 k p Hk) as (r & Hp & _). by destruct (Hnone p r).
Qed.

Lemma requestQueue_mirrors_runs_witness :
  requestQueue (settle 0%nat Scenario.always_fails Scenario.login_pending) = ∅.
Proof.
  apply (requestQueue_mirrors_runs (settle 0%nat Scenario.always_fails Scenario.login_pending)).
  - exists [ACall "user.login" Scenario.alice no_options;
            ASettle 0%nat Scenario.always_fails]. reflexivity.
  - intros p r Hp.
    destruct (settle_pending 0%nat Scenario.always_fails Scenario.login_pending
                (mkRun "user.login" Scenario.alice "POST" no_options
                       [Originator 0%nat (call_key "user.login" Scenario.alice no_options)
                                   "POST" no_options]) eq_refl) as (Hps & _).
    rewrite Hps in Hp. unfold Scenario.login_pending in Hp.
    rewrite (request_start "user.login" Scenario.alice no_options init eq_refl eq_refl) in Hp.
    cbn [promises init next_promise] in Hp.
    destruct (decide (p = 0%nat)) as [->|Hne].
    + by rewrite lookup_insert_eq in Hp.
    + rewrite !lookup_insert_ne in Hp by done. by rewrite lookup_empty in Hp.
Defined.

(** The interceptor of the global instance: a truthy [email] supplied by
    the caller is never replaced; otherwise, when a session email is
    stored, the payload's [email] becomes that email and nothing else in
    the payload changes; without a stored email the payload is untouched;
    and applying the interceptor twice is the same as applying it once. *)
Theorem interceptor_injects_email (userEmail : option string) (data : Props) :
  (truthy (default JUndefined (props_get "email" data)) = true ->
   intercept_data userEmail data = data) /\
  (forall e, userEmail = Some e -> e <> "" ->
             truthy (default JUndefined (props_get "email" data)) = false ->
             props_get "email" (intercept_data userEmail data) = Some (JStr e) /\
             forall k, k <> "email" ->
                       props_get k (intercept_data userEmail data) = props_get k data) /\
  (userEmail = None \/ userEmail = Some "" -> intercept_data userEmail data = data) /\
  intercept_data userEmail (intercept_data userEmail data) = intercept_data userEmail data.
Proof.
  split; [|split; [|split]].
  - intros Ht. unfold intercept_data. destruct userEmail as [e|]; [|done].
    rewrite Ht. by rewrite andb_false_r.
  - intros e -> Hne Hf. unfold intercept_data. rewrite Hf.
    destruct (String.eqb_spec e "") as [->|_]; [done|]. cbn [negb andb].
    split; [apply props_get_set_eq|]. intros k Hk. by apply props_get_set_ne.
  - intros [-> | ->]; reflexivity.
  - unfold intercept_data. destruct userEmail as [e|]; [|done].
    destruct (String.eqb_spec e "") as [->|Hne]; [done|]. cbn [negb andb].
    destruct (truthy (default JUndefined (props_get "email" data))) eqn:Ht; cbn [negb].
    + by rewrite Ht.
    + rewrite props_get_set_eq.
      change (truthy (default JUndefined (Some (JStr e)))) with (negb (String.eqb e "")).
      by destruct (String.eqb_spec e "").
Qed.

Lemma interceptor_injects_email_witness :
  intercept_data (Some "a@b.com") Scenario.alice = Scenario.alice /\
  props_get "email" (intercept_data (Some "a@b.com") [("limit", JNum 50)])
  = Some (JStr "a@b.com") /\
  intercept_data None [("limit", JNum 50)] = [("limit", JNum 50)].
Proof.
  destruct (interceptor_injects_email (Some "a@b.com") Scenario.alice) as (H1 & _).
  destruct (interceptor_injects_email (Some "a@b.com") [("limit", JNum 50)])
    as (_ & H2 & _).
  destruct (interceptor_injects_email None [("limit", JNum 50)]) as (_ & _ & H3 & _).
  split; [apply H1; reflexivity|]. split.
  - apply (H2 "a@b.com"); [reflexivity|discriminate|reflexivity].
  - apply H3. by left.
Defined.

End Queue.

(** ** Each call settles once *)

Section Once.
Import Api.

Lemma ids_ok_init : ids_ok init.
Proof.
  split.
  - intros call [o H]. cbn [init settled] in H. by rewrite lookup_empty in H.
  - intros call p (r & H & _). cbn [init promises] in H. by rewrite lookup_empty in H.
  - intros call p p' (r & H & _). cbn [init promises] in H. by rewrite lookup_empty in H.
Qed.

(** Who waits for what after a step that adds the follower [c] to [p0]. *)
Lemma waiting_join st p0 r0 c call p :
  promises st !! p0 = Some (Pending r0) ->
  waiting
    (mkApi (cache st) (requestQueue st)
           (<[p0 := Pending (mkRun (run_endpoint r0) (run_data r0) (run_method r0)
                                   (run_options r0) (run_waiters r0 ++ [Follower c]))]>
              (promises st))
           (next_promise st) (timers st) (now st) (settled st) (S (next_call st))
           (network st)) call p ->
  waiting st call p \/ (call = c /\ p = p0).
Proof.
  intros Hp0 (r & Hp & Hin). cbn [promises] in Hp.
  destruct (decide (p = p0)) as [->|Hne].
  - rewrite lookup_insert_eq in Hp. injection Hp as <-. cbn [run_waiters] in Hin.
    rewrite map_app in Hin. apply elem_of_app in Hin as [Hin|Hin].
    + left. by exists r0.
    + right. apply list_elem_of_singleton in Hin. by split.
  - rewrite lookup_insert_ne in Hp by done. left. by exists r.
Qed.

Lemma ids_ok_request endpoint data options st :
  wf st -> ids_ok st -> ids_ok (request endpoint data options st).
Proof.
  intros Hwf [Hs Hw H1].
  destruct (cache_hit st (call_key endpoint data options) (call_method options))
    as [v|] eqn:Hc.
  { rewrite (request_cached _ _ _ _ v Hc). split; cbn [settled next_call].
    - intros call Hcall. apply lookup_insert_is_Some' in Hcall as [<-|Hcall]; [lia|].
      specialize (Hs call Hcall). lia.
    - intros call p Hwait. destruct (Hw call p Hwait) as [Hlt Hnone].
      split; [lia|]. rewrite lookup_insert_ne by lia. exact Hnone.
    - exact H1. }
  destruct (requestQueue st !! call_key endpoint data options) as [p0|] eqn:Hq.
  - destruct (wf_queue st Hwf _ _ Hq) as (r0 & Hp0 & _).
    rewrite (request_join _ _ _ _ p0 r0 Hc Hq Hp0). split; cbn [settled next_call].
    + intros call Hcall. specialize (Hs call Hcall). lia.
    + intros call p Hwait.
      destruct (waiting_join st p0 r0 _ call p Hp0 Hwait) as [Hold|[-> ->]].
      * destruct (Hw call p Hold). split; [lia|done].
      * split; [lia|]. destruct (settled st !! next_call st) as [o|] eqn:E; [|done].
        assert (next_call st < next_call st)%nat; [|lia]. apply Hs. by rewrite E.
    + intros call p p' Hwait Hwait'.
      destruct (waiting_join st p0 r0 _ call p Hp0 Hwait) as [Hold|[E1 E2]],
               (waiting_join st p0 r0 _ call p' Hp0 Hwait') as [Hold'|[E1' E2']].
      * by apply (H1 call).
      * subst call. destruct (Hw _ _ Hold). lia.
      * subst call. destruct (Hw _ _ Hold'). lia.
      * congruence.
  - rewrite (request_start _ _ _ _ Hc Hq).
    assert (Hnew : forall call p,
               waiting
                 (mkApi (cache st)
                    (<[call_key endpoint data options := next_promise st]> (requestQueue st))
                    (<[next_promise st :=
                         Pending (mkRun endpoint data (call_method options) options
                                    [Originator (next_call st)
                                       (call_key endpoint data options)
                                       (call_method options) options])]>
                       (promises st))
                    (S (next_promise st)) (timers st) (now st) (settled st)
                    (S (next_call st)) (network st)) call p ->
               waiting st call p \/ (call = next_call st /\ p = next_promise st)).
    { intros call p (r & Hp & Hin). cbn [promises] in Hp.
      destruct (decide (p = next_promise st)) as [->|Hne].
      - rewrite lookup_insert_eq in Hp. injection Hp as <-. cbn in Hin.
        apply list_elem_of_singleton in Hin. by right.
      - rewrite lookup_insert_ne in Hp by done. left. by exists r. }
    split; cbn [settled next_call].
    + intros call Hcall. specialize (Hs call Hcall). lia.
    + intros call p Hwait. destruct (Hnew call p Hwait) as [Hold|[-> ->]].
      * destruct (Hw call p Hold). split; [lia|done].
      * split; [lia|]. destruct (settled st !! next_call st) as [o|] eqn:E; [|done].
        assert (next_call st < next_call st)%nat; [|lia]. apply Hs. by rewrite E.
    + intros call p p' Hwait Hwait'.
      destruct (Hnew call p Hwait) as [Hold|[E1 E2]],
               (Hnew call p' Hwait') as [Hold'|[E1' E2']].
      * by apply (H1 call).
      * subst call. destruct (Hw _ _ Hold). lia.
      * subst call. destruct (Hw _ _ Hold'). lia.
      * congruence.
Qed.

Lemma ids_ok_settle p T st : ids_ok st -> ids_ok (settle p T st).
Proof.
  intros [Hs Hw H1].
  destruct (promises st !! p) as [[r|o]|] eqn:Hp;
    [|rewrite settle_not_pending; [done|intros r1; by rewrite Hp]..].
  destruct (settle_pending p T st r Hp) as (Hps & _ & _ & Hset).
  assert (Hkeep : forall call p', waiting (settle p T st) call p' ->
                                  p' <> p /\ waiting st call p').
  { intros call p' (r' & Hp' & Hin). rewrite Hps in Hp'.
    destruct (decide (p' = p)) as [->|Hne]; [by rewrite lookup_insert_eq in Hp'|].
    rewrite lookup_insert_ne in Hp' by done. split; [done|]. by exists r'. }
  split.
  - intros call Hcall. rewrite settle_next_call. rewrite Hset in Hcall.
    case_decide as Hin; [|by apply Hs].
    by apply (Hw call p); exists r.
  - intros call p' Hwait. destruct (Hkeep call p' Hwait) as [Hne Hold].
    rewrite settle_next_call. destruct (Hw call p' Hold) as [Hlt Hnone].
    split; [done|]. rewrite Hset. case_decide as Hin; [|done].
    exfalso. apply Hne. apply (H1 call); [done|]. by exists r.
  - intros call p1 p2 Hw1 Hw2. destruct (Hkeep _ _ Hw1), (Hkeep _ _ Hw2).
    by apply (H1 call).
Qed.

Lemma ids_ok_step st a : wf st -> ids_ok st -> ids_ok (step st a).
Proof.
  intros Hwf Hids. destruct a as [endpoint data options|p T|i|dt|email|]; cbn [step].
  - by apply ids_ok_request.
  - by apply ids_ok_settle.
  - unfold fire_timer. destruct (timers st !! i) as [[due k]|]; [|done].
    destruct (Z.leb due (now st)); [|done]. by destruct Hids.
  - by destruct Hids.
  - by destruct Hids.
  - by destruct Hids.
Qed.

Lemma ids_ok_reachable st : reachable st -> ids_ok st.
Proof.
  intros [acts ->].
  assert (H : forall acts st, wf st -> ids_ok st -> ids_ok (run st acts)).
  { clear. induction acts as [|a acts IH]; intros st Hwf Hids; [done|].
    cbn [run foldl]. apply IH; [by apply wf_step|by apply ids_ok_step]. }
  apply H; [apply wf_init|apply ids_ok_init].
Qed.

Lemma settled_step_same st a call o :
  ids_ok st -> settled st !! call = Some o -> settled (step st a) !! call = Some o.
Proof.
  intros [Hs Hw _] Hcall.
  assert (Hlt : (call < next_call st)%nat) by (apply Hs; by rewrite Hcall).
  destruct a as [endpoint data options|p T|i|dt|email|]; cbn [step]; try done.
  - unfold request. destruct (cache_hit _ _ _) as [v|].
    { cbn [set_settled settled]. rewrite lookup_insert_ne by lia. exact Hcall. }
    destruct (requestQueue st !! _) as [p|]; [|done].
    destruct (promises st !! p) as [[r|o']|]; [done| |done].
    cbn [set_settled settled]. rewrite lookup_insert_ne by lia. exact Hcall.
  - destruct (promises st !! p) as [[r|o']|] eqn:Hp;
      [|rewrite settle_not_pending; [done|intros r1; by rewrite Hp]..].
    destruct (settle_pending p T st r Hp) as (_ & _ & _ & ->).
    case_decide as Hin; [|done].
    destruct (Hw call p) as [_ Hnone]; [by exists r|]. congruence.
  - by destruct (fire_timer_frame i st) as (_ & _ & _ & -> & _).
Qed.

(** A call settles once: in every history, an outcome that a caller has
    received is never replaced by a later step, a call that has its
    outcome waits for no promise any more, and a call that still waits
    has no outcome and waits for exactly one promise. *)
Theorem outcome_delivered_once (st : ApiState) (acts : list Action) (call : nat)
    (o : Settled) :
  reachable st ->
  settled st !! call = Some o ->
  settled (run st acts) !! call = Some o /\
  (forall p, ~ waiting (run st acts) call p) /\
  (forall call' p p',
      waiting (run st acts) call' p -> waiting (run st acts) call' p' ->
      p = p' /\ settled (run st acts) !! call' = None).
Proof.
  intros Hreach Hcall.
  assert (H : forall acts st,
             wf st -> ids_ok st -> settled st !! call = Some o ->
             wf (run st acts) /\ ids_ok (run st acts) /\
             settled (run st acts) !! call = Some o).
  { clear. induction acts as [|a acts IH]; intros st Hwf Hids Hcall; [done|].
    cbn [run foldl]. apply IH; [by apply wf_step|by apply ids_ok_step|].
    by apply settled_step_same. }
  destruct (H acts st (reachable_wf st Hreach) (ids_ok_reachable st Hreach) Hcall)
    as (_ & [Hs Hw H1] & Hfinal).
  split; [exact Hfinal|]. split.
  - intros p Hwait. destruct (Hw call p Hwait) as [_ Hnone]. congruence.
  - intros call' p p' Hwait Hwait'. split; [by apply (H1 call')|].
    by destruct (Hw call' p Hwait).
Qed.

Lemma outcome_delivered_once_witness :
  settled
    (run (settle 0%nat Scenario.always_ok Scenario.login_pending)
         [ACall "user.login" Scenario.alice no_options;
          ASettle 1%nat Scenario.always_fails]) !! 0%nat
  = Some (Fulfilled Scenario.ok_body).
Proof.
  apply (outcome_delivered_once (settle 0%nat Scenario.always_ok Scenario.login_pending)
           [ACall "user.login" Scenario.alice no_options;
            ASettle 1%nat Scenario.always_fails] 0%nat (Fulfilled Scenario.ok_body)).
  - exists [ACall "user.login" Scenario.alice no_options;
            ASettle 0%nat Scenario.always_ok]. reflexivity.
  - vm_compute. reflexivity.
Defined.

End Once.

(** ** Reading back the persisted expiry *)

Section ParseInt.

Lemma digits_acc_positive (d : Decimal.uint) :
  forall p : positive,
    digits_acc 10 (NilEmpty.string_of_uint d) (Zpos p) true
    = Some (Zpos (Pos.of_uint_acc d p)).
Proof.
  induction d as [|d IH|d IH|d IH|d IH|d IH|d IH|d IH|d IH|d IH|d IH]; intros p;
    [reflexivity|..];
    cbn [NilEmpty.string_of_uint digits_acc Pos.of_uint_acc];
    match goal with
    | |- context [digit_value 10 ?c] =>
        let v := eval vm_compute in (digit_value 10 c) in
        change (digit_value 10 c) with v
    end;
    cbv iota;
    match goal with
    | |- digits_acc 10 _ ?acc true = Some (Zpos (Pos.of_uint_acc d ?q)) =>
        replace acc with (Zpos q) by lia
    end;
    apply IH.
Qed.

Lemma digits_acc_zero (d : Decimal.uint) :
  digits_acc 10 (NilEmpty.string_of_uint d) 0 true = Some (Z.of_N (Pos.of_uint d)).
Proof.
  induction d as [|d IH|d IH|d IH|d IH|d IH|d IH|d IH|d IH|d IH|d IH];
    [reflexivity|exact IH|..];
    cbn [NilEmpty.string_of_uint digits_acc Pos.of_uint];
    match goal with
    | |- context [digit_value 10 ?c] =>
        let v := eval vm_compute in (digit_value 10 c) in
        change (digit_value 10 c) with v
    end;
    cbv iota;
    match goal with
    | |- digits_acc 10 _ ?acc true = Some (Z.of_N (Npos (Pos.of_uint_acc d ?q))) =>
        change acc with (Zpos q)
    end;
    apply digits_acc_positive.
Qed.

(** On the decimal rendering of a natural number [parseInt] reads all the
    digits. *)
Lemma parseInt_unsigned (d : Decimal.uint) :
  parseInt (NilZero.string_of_uint d) = Some (Z.of_uint d) /\
  parseInt (String "-" (NilZero.string_of_uint d)) = Some (- Z.of_uint d).
Proof.
  assert (Hd : d = Decimal.Nil \/
               exists c rest,
                 NilEmpty.string_of_uint d = String c rest /\
                 NilZero.string_of_uint d = String c rest /\
                 trim_start (String c rest) = String c rest /\
                 (c <> "-" /\ c <> "+")%char /\
                 (forall rest', rest <> String "x" rest' /\ rest <> String "X" rest')).
  { destruct d as [|d|d|d|d|d|d|d|d|d|d]; [by left|right..];
      eexists _, _; (split; [reflexivity|]); (split; [reflexivity|]);
      (split; [reflexivity|]); (split; [split; discriminate|]);
      intros rest'; destruct d; split; discriminate. }
  destruct Hd as [->|(c & rest & Hne & Hnz & Htrim & [Hm Hp] & Hx)]; [by split|].
  assert (Hval : digits_acc 10 (String c rest) 0 false = Some (Z.of_uint d)).
  { rewrite <- Hne. unfold Z.of_uint. rewrite <- digits_acc_zero.
    destruct d; try reflexivity. discriminate Hne. }
  assert (Hradix : (let '(radix, s3) :=
                      match String c rest with
                      | String "0" (String "x" r) => (16, r)
                      | String "0" (String "X" r) => (16, r)
                      | _ => (10, String c rest)
                      end in digits_acc radix s3 0 false)
                   = digits_acc 10 (String c rest) 0 false).
  { destruct rest as [|c2 rest2]; [by destruct c as [[|] [|] [|] [|] [|] [|] [|] [|]]|].
    destruct (Hx rest2) as [Hx1 Hx2].
    destruct c as [[|] [|] [|] [|] [|] [|] [|] [|]]; try reflexivity.
    destruct c2 as [[|] [|] [|] [|] [|] [|] [|] [|]]; try reflexivity; congruence. }
  rewrite Hnz. split.
  - unfold parseInt. rewrite Htrim.
    assert (Hsign : match String c rest with
                    | String "-" r => (-1, r)
                    | String "+" r => (1, r)
                    | _ => (1, String c rest)
                    end = (1, String c rest)).
    { destruct c as [[|] [|] [|] [|] [|] [|] [|] [|]]; try reflexivity; congruence. }
    rewrite Hsign.
    transitivity (match digits_acc 10 (String c rest) 0 false with
                  | Some m => Some (1 * m)
                  | None => None
                  end).
    + rewrite <- Hradix.
      by destruct (match String c rest with
                   | String "0" (String "x" r) => (16, r)
                   | String "0" (String "X" r) => (16, r)
                   | _ => (10, String c rest)
                   end).
    + rewrite Hval. f_equal; lia.
  - unfold parseInt.
    change (trim_start (String "-" (String c rest))) with (String "-" (String c rest)).
    cbv iota.
    transitivity (match digits_acc 10 (String c rest) 0 false with
                  | Some m => Some (-1 * m)
                  | None => None
                  end).
    + rewrite <- Hradix.
      by destruct (match String c rest with
                   | String "0" (String "x" r) => (16, r)
                   | String "0" (String "X" r) => (16, r)
                   | _ => (10, String c rest)
                   end).
    + rewrite Hval. f_equal; lia.
Qed.

(** [parseInt] reads back exactly the integer that [toString] wrote:
    [parseInt(n.toString()) = n] for every integer [n]. *)
Theorem parseInt_toString (n : Z) : parseInt (string_of_Z n) = Some n.
Proof.
  unfold string_of_Z. rewrite <- (DecimalZ.of_to n) at 2.
  destruct (Z.to_int n) as [d|d]; cbn [NilZero.string_of_int Z.of_int].
  - apply parseInt_unsigned.
  - apply parseInt_unsigned.
Qed.

End ParseInt.

(** ** The session over time *)

Section SessionLife.
Import Auth.

Lemma string_of_Z_nonempty (n : Z) : string_of_Z n <> "".
Proof.
  intros E. pose proof (parseInt_toString n) as H. rewrite E in H. discriminate H.
Qed.

Lemma isSessionExpired_after_set user email t0 now st :
  js_get user "email" = Some email ->
  _isSessionExpired now (fst (_setUserSession user t0 st))
  = Z.ltb (t0 + sessionTimeout) now.
Proof.
  intros He. rewrite (setUserSession_success user email t0 st He).
  unfold _isSessionExpired. cbn [fst localStorage]. rewrite lookup_insert_eq.
  destruct (String.eqb_spec (string_of_Z (t0 + sessionTimeout)) "") as [E|_].
  - by apply string_of_Z_nonempty in E.
  - by rewrite parseInt_toString.
Qed.

(** How the persisted expiry is read. A missing or empty expiry counts as
    expired. The expiry written by [_setUserSession] at time [t0] is read
    back exactly: the session is expired at time [now] iff
    [now > t0 + sessionTimeout]. A non-empty expiry that [parseInt] cannot
    read never expires, because the comparison with [NaN] is false. *)
Theorem session_expiry_reading (now : Z) (st : AuthState) :
  (sessionExpiry st = None \/ sessionExpiry st = Some "" ->
   _isSessionExpired now st = true) /\
  (forall user email t0,
      js_get user "email" = Some email ->
      _isSessionExpired now (fst (_setUserSession user t0 st)) = true
      <-> t0 + sessionTimeout < now) /\
  (forall x, sessionExpiry st = Some x -> x <> "" -> parseInt x = None ->
             _isSessionExpired now st = false).
Proof.
  split; [|split].
  - unfold sessionExpiry, _isSessionExpired. intros [-> | ->]; reflexivity.
  - intros user email t0 He. rewrite (isSessionExpired_after_set user email t0 now st He).
    apply Z.ltb_lt.
  - unfold sessionExpiry, _isSessionExpired. intros x -> Hne Hnan.
    destruct (String.eqb_spec x ""); [done|]. by rewrite Hnan.
Qed.

Lemma session_expiry_reading_witness :
  _isSessionExpired 5 anonymous = true /\
  (_isSessionExpired 86400001 (fst (_setUserSession Scenario.alice_user 0 anonymous)) = true
   <-> 0 + sessionTimeout < 86400001) /\
  _isSessionExpired 5 (mkAuth JNull (<["sessionExpiry" := "never"]> ∅) []) = false.
Proof.
  split; [|split].
  - apply (proj1 (session_expiry_reading 5 anonymous)). by left.
  - apply (proj1 (proj2 (session_expiry_reading 86400001 anonymous))
                 Scenario.alice_user (JStr "a@b.com") 0). reflexivity.
  - apply (proj2 (proj2 (session_expiry_reading 5
                           (mkAuth JNull (<["sessionExpiry" := "never"]> ∅) [])))
                 "never"); [reflexivity|discriminate|reflexivity].
Defined.

(** A successful [login] or [register] at time [t0] makes the returned
    user the current user, persists the three session fields, reports
    success with that user, and from then on [isAuthenticated] holds
    exactly until [t0 + sessionTimeout] (inclusive), provided the user is
    a truthy value. *)
Theorem login_success_authenticates (email : string) (userData : Props) (t0 : Z)
    (result success uemail : JsVal) (st : AuthState) :
  js_get result "success" = Some success -> truthy success = true ->
  js_get (default JUndefined (js_get result "user")) "email" = Some uemail ->
  let user := default JUndefined (js_get result "user") in
  let stored :=
    <["sessionExpiry" := string_of_Z (t0 + sessionTimeout)]>
      (<["userData" := JSON_stringify user]>
         (<["userEmail" := ToString uemail]> (localStorage st))) in
  (currentUser (fst (login email t0 (Api.Fulfilled result) st)) = user /\
   localStorage (fst (login email t0 (Api.Fulfilled result) st)) = stored /\
   snd (login email t0 (Api.Fulfilled result) st) = AuthSuccess user /\
   forall now, isAuthenticated now (fst (login email t0 (Api.Fulfilled result) st))
               = truthy user && Z.leb now (t0 + sessionTimeout)) /\
  (currentUser (fst (register userData t0 (Api.Fulfilled result) st)) = user /\
   localStorage (fst (register userData t0 (Api.Fulfilled result) st)) = stored /\
   snd (register userData t0 (Api.Fulfilled result) st) = AuthSuccess user /\
   forall now, isAuthenticated now (fst (register userData t0 (Api.Fulfilled result) st))
               = truthy user && Z.leb now (t0 + sessionTimeout)).
Proof.
  intros Hs Ht He user stored.
  assert (Hauth : forall now st0,
             isAuthenticated now
               (mkAuth user
                  (<["sessionExpiry" := string_of_Z (t0 + sessionTimeout)]>
                     (<["userData" := JSON_stringify user]>
                        (<["userEmail" := ToString uemail]> (localStorage st))))
                  st0)
             = truthy user && Z.leb now (t0 + sessionTimeout)).
  { intros now st0. unfold isAuthenticated, _isSessionExpired.
    cbn [currentUser localStorage]. rewrite lookup_insert_eq.
    destruct (String.eqb_spec (string_of_Z (t0 + sessionTimeout)) "") as [E|_];
      [by apply string_of_Z_nonempty in E|].
    rewrite parseInt_toString. f_equal.
    destruct (Z.ltb_spec (t0 + sessionTimeout) now), (Z.leb_spec now (t0 + sessionTimeout));
      cbn [negb]; try reflexivity; lia. }
  split.
  - unfold login. rewrite Hs, Ht. fold user.
    rewrite (setUserSession_success user uemail t0 _ He).
    cbn [fst snd add_effect currentUser localStorage effects].
    repeat split. intros now. apply Hauth.
  - unfold register. rewrite Hs, Ht. fold user.
    rewrite (setUserSession_success user uemail t0 _ He).
    cbn [fst snd add_effect currentUser localStorage effects].
    repeat split. intros now. apply Hauth.
Qed.

Lemma login_success_authenticates_witness :
  isAuthenticated 86400000 Scenario.logged_in = true /\
  isAuthenticated 86400001 Scenario.logged_in = false.
Proof.
  destruct (login_success_authenticates "a@b.com" [] 0 Scenario.ok_body (JBool true)
              (JStr "a@b.com") anonymous eq_refl eq_refl eq_refl)
    as ((_ & _ & _ & H) & _).
  split; [exact (H 86400000)|exact (H 86400001)].
Defined.

End SessionLife.

Section SessionEnd.
Import Auth.

Lemma isAuthenticated_logout now st : isAuthenticated now (logout st) = false.
Proof. reflexivity. Qed.

(** [logout] ends the session whatever the state: no current user, the
    three session keys gone from the store and every other key kept,
    [isAuthenticated] false at any time; it asks for the API cache to be
    cleared and for the redirect; and a second [logout] changes neither
    the user nor the store. *)
Theorem logout_clears_session (st : AuthState) :
  currentUser (logout st) = JNull /\
  localStorage (logout st) !! "userEmail" = None /\
  localStorage (logout st) !! "userData" = None /\
  localStorage (logout st) !! "sessionExpiry" = None /\
  (forall k, k <> "userEmail" -> k <> "userData" -> k <> "sessionExpiry" ->
             localStorage (logout st) !! k = localStorage st !! k) /\
  (forall now, isAuthenticated now (logout st) = false) /\
  effects (logout st) = effects st ++ [ApiClearCache; Redirect "login.html"] /\
  currentUser (logout (logout st)) = currentUser (logout st) /\
  localStorage (logout (logout st)) = localStorage (logout st).
Proof.
  unfold logout. cbn [currentUser localStorage effects].
  split; [done|]. split; [by rewrite lookup_delete_ne, lookup_delete_ne, lookup_delete_eq|].
  split; [by rewrite lookup_delete_ne, lookup_delete_eq|].
  split; [apply lookup_delete_eq|]. split.
  { intros k H1 H2 H3. by rewrite !lookup_delete_ne. }
  split; [done|]. split; [done|]. split; [done|].
  apply map_eq. intros k.
  destruct (decide (k = "sessionExpiry")) as [->|H3]; [by rewrite !lookup_delete_eq|].
  rewrite (lookup_delete_ne _ "sessionExpiry" k) by done.
  destruct (decide (k = "userData")) as [->|H2].
  { rewrite lookup_delete_eq. rewrite lookup_delete_ne by done.
    by rewrite lookup_delete_eq. }
  rewrite (lookup_delete_ne _ "userData" k) by done.
  destruct (decide (k = "userEmail")) as [->|H1].
  { rewrite lookup_delete_eq. rewrite !lookup_delete_ne by done.
    by rewrite lookup_delete_eq. }
  by rewrite !lookup_delete_ne.
Qed.

(** [requireAuth] answers [isAuthenticated]; when the answer is yes the
    state is untouched, when it is no the session is ended by [logout],
    so that afterwards the user is absent and nothing of the session is
    persisted. *)
Theorem requireAuth_logs_out (now : Z) (st : AuthState) :
  snd (requireAuth now st) = isAuthenticated now st /\
  (isAuthenticated now st = true -> fst (requireAuth now st) = st) /\
  (isAuthenticated now st = false ->
   fst (requireAuth now st) = logout st /\
   currentUser (fst (requireAuth now st)) = JNull /\
   sessionExpiry (fst (requireAuth now st)) = None /\
   forall later, isAuthenticated later (fst (requireAuth now st)) = false).
Proof.
  unfold requireAuth. destruct (isAuthenticated now st) eqn:E; cbn [negb fst snd].
  - by repeat split.
  - split; [done|]. split; [done|]. intros _. split; [done|]. split; [done|].
    split; [apply lookup_delete_eq|done].
Qed.

Lemma requireAuth_logs_out_witness :
  fst (requireAuth 5 Scenario.logged_in) = Scenario.logged_in /\
  fst (requireAuth 86400001 Scenario.logged_in) = logout Scenario.logged_in.
Proof.
  split.
  - apply (proj1 (proj2 (requireAuth_logs_out 5 Scenario.logged_in))). reflexivity.
  - apply (proj2 (proj2 (requireAuth_logs_out 86400001 Scenario.logged_in))). reflexivity.
Defined.

(** The periodic expiry check. It does nothing unless a truthy current
    user has an expired session, in which case it warns and logs out.
    After the check, a truthy current user is an authenticated one. A
    session left without current user (for instance restored from a store
    that lacks a field) is not cleaned up by the check. *)
Theorem checkSessionExpiry_effect (now : Z) (st : AuthState) :
  (isAuthenticated now st = true -> _checkSessionExpiry now st = st) /\
  (truthy (currentUser st) = false -> _checkSessionExpiry now st = st) /\
  (truthy (currentUser st) = true -> _isSessionExpired now st = true ->
   currentUser (_checkSessionExpiry now st) = JNull /\
   localStorage (_checkSessionExpiry now st) = localStorage (logout st) /\
   effects (_checkSessionExpiry now st)
   = effects st
       ++ [ShowNotification "Your session has expired. Please login again." "warning";
           ApiClearCache; Redirect "login.html"]) /\
  (truthy (currentUser (_checkSessionExpiry now st)) = true ->
   isAuthenticated now (_checkSessionExpiry now st) = true).
Proof.
  unfold _checkSessionExpiry, isAuthenticated.
  destruct (truthy (currentUser st)) eqn:Hu, (_isSessionExpired now st) eqn:He;
    cbn [andb negb]; repeat split; try done.
  - cbn [logout add_effect effects]. by rewrite <- app_assoc.
  - intros _. by rewrite Hu, He.
  - intros H. by rewrite Hu in H.
  - intros H. by rewrite Hu in H.
Qed.

Lemma checkSessionExpiry_effect_witness :
  _checkSessionExpiry 5 Scenario.logged_in = Scenario.logged_in /\
  _checkSessionExpiry 5 anonymous = anonymous /\
  currentUser (_checkSessionExpiry 86400001 Scenario.logged_in) = JNull /\
  isAuthenticated 5 (_checkSessionExpiry 5 Scenario.logged_in) = true.
Proof.
  destruct (checkSessionExpiry_effect 5 Scenario.logged_in) as (H1 & _ & _ & H4).
  destruct (checkSessionExpiry_effect 5 anonymous) as (_ & H2 & _).
  destruct (checkSessionExpiry_effect 86400001 Scenario.logged_in) as (_ & _ & H3 & _).
  split; [apply H1; reflexivity|]. split; [apply H2; reflexivity|].
  split; [apply H3; reflexivity|apply H4; reflexivity].
Defined.

End SessionEnd.

Section SessionFailures.
Import Auth.

(** When [API.registerUser] rejects, or resolves with a falsy [success],
    [register] leaves the current user and the persisted fields as they
    were and returns the failure with its message; in particular a
    registration that fails while somebody is logged in does not end
    that session. *)
Theorem register_failure_keeps_state (userData : Props) (now : Z) (st : AuthState) :
  (forall message,
      currentUser (fst (register userData now (Api.Rejected message) st)) = currentUser st /\
      localStorage (fst (register userData now (Api.Rejected message) st))
      = localStorage st /\
      snd (register userData now (Api.Rejected message) st) = AuthFailure message) /\
  (forall result success,
      js_get result "success" = Some success -> truthy success = false ->
      currentUser (fst (register userData now (Api.Fulfilled result) st))
      = currentUser st /\
      localStorage (fst (register userData now (Api.Fulfilled result) st))
      = localStorage st /\
      snd (register userData now (Api.Fulfilled result) st)
      = AuthFailure (Error_message (default JUndefined (js_get result "message")))) /\
  (forall later message,
      isAuthenticated later (fst (register userData now (Api.Rejected message) st))
      = isAuthenticated later st).
Proof.
  split; [|split].
  - intros message. by repeat split.
  - intros result success Hs Ht. unfold register. rewrite Hs, Ht. by repeat split.
  - intros later message. reflexivity.
Qed.

Lemma register_failure_keeps_state_witness :
  currentUser (fst (register Scenario.signup_email_first 5
                             (Api.Fulfilled Scenario.denied_body) Scenario.logged_in))
  = currentUser Scenario.logged_in /\
  localStorage (fst (register Scenario.signup_email_first 5
                              (Api.Fulfilled Scenario.denied_body) Scenario.logged_in))
  = localStorage Scenario.logged_in /\
  snd (register Scenario.signup_email_first 5 (Api.Fulfilled Scenario.denied_body)
                Scenario.logged_in)
  = AuthFailure (Error_message (default JUndefined (js_get Scenario.denied_body "message"))).
Proof.
  apply (proj1 (proj2 (register_failure_keeps_state Scenario.signup_email_first 5
                         Scenario.logged_in))
               Scenario.denied_body (JBool false)); reflexivity.
Defined.

(** [refreshUserData] swallows failures. Without a truthy current user it
    does nothing at all. When the profile call rejects, or resolves with
    a falsy [success], or with no [profile], the user and the persisted
    fields stay as they were. But a body with [success] and a [profile]
    that carries no [user] loses the current user: [_setUserSession] has
    assigned [undefined] before [user.email] throws, the persisted fields
    staying in place, so [isAuthenticated] is false from then on. *)
Theorem refresh_failure_behaviour (now : Z) (st : AuthState) :
  (truthy (currentUser st) = false ->
   forall api, refreshUserData now api st = st) /\
  (forall message,
      currentUser (refreshUserData now (Api.Rejected message) st) = currentUser st /\
      localStorage (refreshUserData now (Api.Rejected message) st) = localStorage st) /\
  (forall result success,
      js_get result "success" = Some success ->
      truthy success = false \/ js_get (default JUndefined (js_get result "profile")) "user"
                                = None ->
      currentUser (refreshUserData now (Api.Fulfilled result) st) = currentUser st /\
      localStorage (refreshUserData now (Api.Fulfilled result) st) = localStorage st) /\
  (forall result success,
      truthy (currentUser st) = true ->
      js_get result "success" = Some success -> truthy success = true ->
      js_get (default JUndefined (js_get result "profile")) "user" = Some JUndefined ->
      currentUser (refreshUserData now (Api.Fulfilled result) st) = JUndefined /\
      localStorage (refreshUserData now (Api.Fulfilled result) st) = localStorage st /\
      forall later,
        isAuthenticated later (refreshUserData now (Api.Fulfilled result) st) = false).
Proof.
  split; [|split; [|split]].
  - intros Hu api. unfold refreshUserData. by rewrite Hu.
  - intros message. unfold refreshUserData.
    by destruct (negb (truthy (currentUser st))).
  - intros result success Hs Hcase. unfold refreshUserData.
    destruct (negb (truthy (currentUser st))); [done|]. rewrite Hs.
    destruct (truthy success); [|done].
    destruct Hcase as [Hf|Hn]; [done|]. by rewrite Hn.
  - intros result success Hu Hs Ht Hp. unfold refreshUserData.
    rewrite Hu, Hs, Ht, Hp. cbn [negb]. by repeat split.
Qed.

Lemma refresh_failure_behaviour_witness :
  refreshUserData 5 (Api.Fulfilled Scenario.profile_body) anonymous = anonymous /\
  currentUser (refreshUserData 5 (Api.Fulfilled Scenario.denied_body) Scenario.logged_in)
  = currentUser Scenario.logged_in /\
  currentUser
    (refreshUserData 5
       (Api.Fulfilled (JObj [("success", JBool true); ("profile", JObj [])]))
       Scenario.logged_in) = JUndefined.
Proof.
  destruct (refresh_failure_behaviour 5 anonymous) as (H1 & _).
  destruct (refresh_failure_behaviour 5 Scenario.logged_in) as (_ & _ & H3 & H4).
  split; [apply H1; reflexivity|]. split.
  - apply (H3 Scenario.denied_body (JBool false)); [reflexivity|by left].
  - apply (H4 (JObj [("success", JBool true); ("profile", JObj [])]) (JBool true));
      reflexivity.
Defined.

(** The refresh interval only calls [refreshUserData] for an authenticated
    session: once the session has expired, or without a user, a tick
    changes nothing, so an expired session is never revived by the
    background refresh. *)
Theorem refresh_tick_needs_session (now : Z) (api : Api.Settled) (st : AuthState) :
  (isAuthenticated now st = false -> refresh_tick now api st = st) /\
  (isAuthenticated now st = true ->
   refresh_tick now api st = refreshUserData now api st) /\
  (_isSessionExpired now st = true ->
   sessionExpiry (refresh_tick now api st) = sessionExpiry st).
Proof.
  unfold refresh_tick, isAuthenticated. split; [|split].
  - by intros ->.
  - by intros ->.
  - intros ->. by rewrite andb_false_r.
Qed.

Lemma refresh_tick_needs_session_witness :
  refresh_tick 86400001 (Api.Fulfilled Scenario.profile_body) Scenario.logged_in
  = Scenario.logged_in.
Proof.
  apply (proj1 (refresh_tick_needs_session 86400001 (Api.Fulfilled Scenario.profile_body)
                  Scenario.logged_in)). reflexivity.
Defined.

End SessionFailures.

Section Restart.
Import Auth.

Variable JSON_parse : string -> option JsVal.

Lemma JSON_stringify_nonempty (v : JsVal) : JSON_stringify v <> "".
Proof.
  destruct v as [| |[|]|n|s|items|props]; try discriminate.
  apply string_of_Z_nonempty.
Qed.

(** Construction over a persistent store ([constructor], [init],
    [_loadUserFromStorage]). Over the store left by a session written at
    [t0] for a truthy user with a non-empty email, and provided
    [JSON.parse] reads the stored user back, a new instance has that user
    and is authenticated as long as [now <= t0 + sessionTimeout]; after
    that the constructor logs out and the three fields are removed. A
    store that lacks one of the three fields gives an instance without
    user whose other fields stay in the store. A stored user that
    [JSON.parse] rejects makes the constructor throw. *)
Theorem construct_restores_session (storage : gmap string string) (now : Z) :
  (forall user uemail t0 st0,
      js_get user "email" = Some uemail -> ToString uemail <> "" ->
      truthy user = true ->
      JSON_parse (JSON_stringify user) = Some user ->
      storage = localStorage (fst (_setUserSession user t0 st0)) ->
      (now <= t0 + sessionTimeout ->
       construct JSON_parse storage now = Some (mkAuth user storage []) /\
       isAuthenticated now (mkAuth user storage []) = true) /\
      (t0 + sessionTimeout < now ->
       exists st,
         construct JSON_parse storage now = Some st /\
         currentUser st = JNull /\
         localStorage st !! "userEmail" = None /\
         localStorage st !! "userData" = None /\
         localStorage st !! "sessionExpiry" = None)) /\
  (storage !! "userEmail" = None \/ storage !! "userData" = None \/
   storage !! "sessionExpiry" = None ->
   construct JSON_parse storage now = Some (mkAuth JNull storage []) /\
   isAuthenticated now (mkAuth JNull storage []) = false) /\
  (forall e d x,
      storage !! "userEmail" = Some e -> storage !! "userData" = Some d ->
      storage !! "sessionExpiry" = Some x ->
      e <> "" -> d <> "" -> x <> "" -> JSON_parse d = None ->
      construct JSON_parse storage now = None).
Proof.
  split; [|split].
  - intros user uemail t0 st0 He Hne Hu Hparse ->.
    rewrite (setUserSession_success user uemail t0 st0 He). cbn [fst localStorage].
    set (stored := <["sessionExpiry" := string_of_Z (t0 + sessionTimeout)]>
                     (<["userData" := JSON_stringify user]>
                        (<["userEmail" := ToString uemail]> (localStorage st0)))).
    assert (Hload : _loadUserFromStorage JSON_parse (mkAuth JNull stored [])
                    = Some (mkAuth user stored [])).
    { unfold _loadUserFromStorage. cbn [localStorage effects]. subst stored.
      rewrite lookup_insert_eq.
      rewrite (lookup_insert_ne _ "sessionExpiry" "userData") by done.
      rewrite lookup_insert_eq.
      rewrite (lookup_insert_ne _ "sessionExpiry" "userEmail") by done.
      rewrite (lookup_insert_ne _ "userData" "userEmail") by done.
      rewrite lookup_insert_eq.
      destruct (String.eqb_spec (ToString uemail) ""); [done|].
      destruct (String.eqb_spec (JSON_stringify user) "") as [E|_];
        [by apply JSON_stringify_nonempty in E|].
      destruct (String.eqb_spec (string_of_Z (t0 + sessionTimeout)) "") as [E|_];
        [by apply string_of_Z_nonempty in E|].
      cbn [negb andb from_option id]. by rewrite Hparse. }
    assert (Hexp : _isSessionExpired now (mkAuth user stored [])
                   = Z.ltb (t0 + sessionTimeout) now).
    { unfold _isSessionExpired. cbn [localStorage]. subst stored.
      rewrite lookup_insert_eq.
      destruct (String.eqb_spec (string_of_Z (t0 + sessionTimeout)) "") as [E|_];
        [by apply string_of_Z_nonempty in E|].
      by rewrite parseInt_toString. }
    unfold construct. rewrite Hload. unfold _checkSessionExpiry, isAuthenticated.
    rewrite Hexp. cbn [currentUser]. rewrite Hu. split.
    + intros Hle. destruct (Z.ltb_spec (t0 + sessionTimeout) now); [lia|]. by split.
    + intros Hlt. destruct (Z.ltb_spec (t0 + sessionTimeout) now); [|lia].
      cbn [andb]. eexists. split; [reflexivity|].
      cbn [logout add_effect currentUser localStorage]. split; [done|].
      split; [by rewrite lookup_delete_ne, lookup_delete_ne, lookup_delete_eq|].
      split; [by rewrite lookup_delete_ne, lookup_delete_eq|apply lookup_delete_eq].
  - intros Hmiss.
    assert (Hload : _loadUserFromStorage JSON_parse (mkAuth JNull storage [])
                    = Some (mkAuth JNull storage [])).
    { unfold _loadUserFromStorage. cbn [localStorage].
      destruct Hmiss as [-> | [-> | ->]]; cbn [andb]; rewrite ?andb_false_r; done. }
    unfold construct. rewrite Hload. unfold _checkSessionExpiry. cbn [currentUser truthy].
    rewrite andb_false_r. by split.
  - intros e d x He Hd Hx Hne Hnd Hnx Hparse.
    unfold construct, _loadUserFromStorage. cbn [localStorage]. rewrite He, Hd, Hx.
    destruct (String.eqb_spec e ""); [done|]. destruct (String.eqb_spec d ""); [done|].
    destruct (String.eqb_spec x ""); [done|]. cbn [negb andb from_option id]. by rewrite Hparse.
Qed.

End Restart.

Lemma construct_restores_session_witness :
  Auth.construct Scenario.parse_alice (Auth.localStorage Scenario.logged_in) 5
  = Some (Auth.mkAuth Scenario.alice_user (Auth.localStorage Scenario.logged_in) []) /\
  Auth.construct Scenario.parse_alice ∅ 5 = Some (Auth.mkAuth JNull ∅ []) /\
  Auth.construct (fun _ => None) (Auth.localStorage Scenario.logged_in) 5 = None.
Proof.
  split; [|split].
  - destruct (proj1 (construct_restores_session Scenario.parse_alice
                       (Auth.localStorage Scenario.logged_in) 5)
                    Scenario.alice_user (JStr "a@b.com") 0
                    (Auth.add_effect (Auth.ShowLoading "loginBtn") Auth.anonymous)
                    eq_refl) as [H _]; [discriminate|reflexivity|reflexivity|reflexivity|].
    apply H. unfold Auth.sessionTimeout. lia.
  - apply (proj1 (proj2 (construct_restores_session Scenario.parse_alice ∅ 5))).
    by left.
  - apply (proj2 (proj2 (construct_restores_session (fun _ => None)
                           (Auth.localStorage Scenario.logged_in) 5))
                 "a@b.com" (JSON_stringify Scenario.alice_user) "86400000");
      try reflexivity; discriminate.
Defined.

(** ** Utils: truncation, relative times and the email pattern *)


Section Truncate.
Import Js Utils.

(** With a limit of at least 3, [truncateText] returns a string within
    the limit: the text itself when it fits, and otherwise exactly
    [maxLength] code units, the first [maxLength - 3] of the text
    followed by three dots. Truncating the result again changes
    nothing. *)
Theorem truncateText_fits (text : string) (maxLength : Z) :
  3 <= maxLength ->
  let out := truncateText text maxLength in
  Z.of_nat (String.length out) <= maxLength /\
  (Z.of_nat (String.length text) <= maxLength -> out = text) /\
  (maxLength < Z.of_nat (String.length text) ->
     Z.of_nat (String.length out) = maxLength /\
     exists kept rest,
       text = kept +:+ rest /\ Z.of_nat (String.length kept) = maxLength - 3 /\
       out = kept +:+ "...") /\
  truncateText out maxLength = out.
Proof.
  intros Hmax out.
  assert (Hlong : maxLength < Z.of_nat (String.length text) ->
            out = substring_to (maxLength - 3) text +:+ "..." /\
            Z.of_nat (String.length (substring_to (maxLength - 3) text)) = maxLength - 3).
  { intros Hlt. split.
    - unfold out, truncateText.
      destruct text as [|a text]; [cbn in Hlt; lia|].
      change (String.eqb (String a text) "") with false. cbn [orb].
      by rewrite (proj2 (Z.leb_gt _ _) Hlt).
    - unfold substring_to. rewrite substring0_length. lia. }
  assert (Hshort : Z.of_nat (String.length text) <= maxLength -> out = text).
  { intros Hle. unfold out, truncateText.
    by rewrite (proj2 (Z.leb_le _ _) Hle), orb_true_r. }
  assert (Hlen : Z.of_nat (String.length out) <= maxLength).
  { destruct (Z.le_gt_cases (Z.of_nat (String.length text)) maxLength) as [Hle|Hlt].
    - by rewrite (Hshort Hle).
    - destruct (Hlong Hlt) as [-> Hk]. rewrite append_length. cbn. lia. }
  split; [done|]. split; [done|]. split.
  - intros Hlt. destruct (Hlong Hlt) as [E Hk]. split.
    + rewrite E, append_length. cbn. lia.
    + destruct (substring0_prefix (Z.to_nat (maxLength - 3)) text) as [rest Hrest].
      exists (substring_to (maxLength - 3) text), rest. by repeat split.
  - unfold truncateText at 1.
    by rewrite (proj2 (Z.leb_le _ _) Hlen), orb_true_r.
Qed.

Lemma truncateText_fits_witness :
  3 <= 8 /\
  Z.of_nat (String.length (truncateText "abcdefghij" 8)) <= 8.
Proof.
  split; [lia|]. apply (truncateText_fits "abcdefghij" 8). lia.
Defined.

(** With a limit below 3 (a negative one too), a text that is not empty
    and longer than the limit is replaced by three dots alone: nothing
    of the text is kept and the result is longer than the limit. *)
Theorem truncateText_small_limit (text : string) (maxLength : Z) :
  text <> "" ->
  maxLength < 3 ->
  maxLength < Z.of_nat (String.length text) ->
  truncateText text maxLength = "..." /\
  maxLength < Z.of_nat (String.length (truncateText text maxLength)).
Proof.
  intros Hne Hmax Hlt.
  assert (E : truncateText text maxLength = "...").
  { unfold truncateText.
    destruct text as [|a text]; [done|].
    change (String.eqb (String a text) "") with false. cbn [orb].
    rewrite (proj2 (Z.leb_gt _ _) Hlt). unfold substring_to.
    replace (Z.to_nat (maxLength - 3)) with 0%nat by lia. done. }
  rewrite E. split; [done|]. cbn. lia.
Qed.

Lemma truncateText_small_limit_witness :
  truncateText "abcd" 2 = "..." /\
  2 < Z.of_nat (String.length (truncateText "abcd" 2)).
Proof. apply truncateText_small_limit; [done|lia|reflexivity]. Defined.

End Truncate.

Section Relative.
Import Js Utils.
Variable formatDate : string -> string.

(** For a date string that is not empty and a difference of [d] ms
    between now and the date, [formatRelativeTime] answers by the range
    of [d]: below one minute (a date in the future too) [Just now]; then
    1 to 59 minutes, 1 to 23 hours and 1 to 6 days, each rounded down,
    with [day] in the singular for one day only; from seven days on, and
    for a string that is no date, the result of [formatDate]. *)
Theorem formatRelativeTime_ranges (dateString : string) (d : Z) :
  dateString <> "" ->
  let out := formatRelativeTime formatDate dateString (Some d) in
  (d < 60000 -> out = "Just now") /\
  (60000 <= d < 3600000 ->
     1 <= d / 60000 <= 59 /\ out = string_of_Z (d / 60000) +:+ " min ago") /\
  (3600000 <= d < 86400000 ->
     1 <= d / 3600000 <= 23 /\ out = string_of_Z (d / 3600000) +:+ " hr ago") /\
  (86400000 <= d < 172800000 -> out = "1 day ago") /\
  (172800000 <= d < 604800000 ->
     2 <= d / 86400000 <= 6 /\ out = string_of_Z (d / 86400000) +:+ " days ago") /\
  (604800000 <= d -> out = formatDate dateString) /\
  formatRelativeTime formatDate dateString None = formatDate dateString.
Proof.
  intros Hne out.
  assert (E : String.eqb dateString "" = false).
  { destruct dateString; [done|reflexivity]. }
  unfold out, formatRelativeTime. rewrite E.
  repeat split.
  - intros H. assert (d / 60000 < 1) by (apply Z.div_lt_upper_bound; lia).
    by rewrite (proj2 (Z.ltb_lt _ _)).
  - apply Z.div_le_lower_bound; lia.
  - assert (d / 60000 < 60) by (apply Z.div_lt_upper_bound; lia). lia.
  - assert (1 <= d / 60000) by (apply Z.div_le_lower_bound; lia).
    assert (d / 60000 < 60) by (apply Z.div_lt_upper_bound; lia).
    rewrite (proj2 (Z.ltb_ge _ _)) by lia. by rewrite (proj2 (Z.ltb_lt _ _)).
  - apply Z.div_le_lower_bound; lia.
  - assert (d / 3600000 < 24) by (apply Z.div_lt_upper_bound; lia). lia.
  - assert (60 <= d / 60000) by (apply Z.div_le_lower_bound; lia).
    assert (d / 3600000 < 24) by (apply Z.div_lt_upper_bound; lia).
    rewrite (proj2 (Z.ltb_ge (d / 60000) 1)) by lia.
    rewrite (proj2 (Z.ltb_ge (d / 60000) 60)) by lia.
    by rewrite (proj2 (Z.ltb_lt _ _)).
  - intros H.
    assert (60 <= d / 60000) by (apply Z.div_le_lower_bound; lia).
    assert (24 <= d / 3600000) by (apply Z.div_le_lower_bound; lia).
    assert (1 <= d / 86400000) by (apply Z.div_le_lower_bound; lia).
    assert (d / 86400000 < 2) by (apply Z.div_lt_upper_bound; lia).
    assert (Ed : d / 86400000 = 1) by lia.
    rewrite (proj2 (Z.ltb_ge (d / 60000) 1)) by lia.
    rewrite (proj2 (Z.ltb_ge (d / 60000) 60)) by lia.
    rewrite (proj2 (Z.ltb_ge (d / 3600000) 24)) by lia.
    rewrite Ed. reflexivity.
  - apply Z.div_le_lower_bound; lia.
  - assert (d / 86400000 < 7) by (apply Z.div_lt_upper_bound; lia). lia.
  - assert (60 <= d / 60000) by (apply Z.div_le_lower_bound; lia).
    assert (24 <= d / 3600000) by (apply Z.div_le_lower_bound; lia).
    assert (2 <= d / 86400000) by (apply Z.div_le_lower_bound; lia).
    assert (d / 86400000 < 7) by (apply Z.div_lt_upper_bound; lia).
    rewrite (proj2 (Z.ltb_ge (d / 60000) 1)) by lia.
    rewrite (proj2 (Z.ltb_ge (d / 60000) 60)) by lia.
    rewrite (proj2 (Z.ltb_ge (d / 3600000) 24)) by lia.
    rewrite (proj2 (Z.ltb_lt (d / 86400000) 7)) by lia.
    rewrite (proj2 (Z.ltb_lt 1 (d / 86400000))) by lia.
    reflexivity.
  - intros H.
    assert (60 <= d / 60000) by (apply Z.div_le_lower_bound; lia).
    assert (24 <= d / 3600000) by (apply Z.div_le_lower_bound; lia).
    assert (7 <= d / 86400000) by (apply Z.div_le_lower_bound; lia).
    rewrite (proj2 (Z.ltb_ge (d / 60000) 1)) by lia.
    rewrite (proj2 (Z.ltb_ge (d / 60000) 60)) by lia.
    rewrite (proj2 (Z.ltb_ge (d / 3600000) 24)) by lia.
    by rewrite (proj2 (Z.ltb_ge (d / 86400000) 7)) by lia.
Qed.

End Relative.

Lemma formatRelativeTime_ranges_witness :
  "2024-01-01" <> "" /\
  (90000000 < 172800000 ->
   Utils.formatRelativeTime (fun s => s) "2024-01-01" (Some 90000000) = "1 day ago").
Proof.
  split; [done|]. intros H.
  apply (formatRelativeTime_ranges (fun s => s) "2024-01-01" 90000000); [done|lia].
Defined.

Section Regex.
Import Js Utils.

Lemma Matches_nullable (r : regex) : Matches r "" -> nullable r = true.
Proof.
  intros H. remember "" as s eqn:E.
  induction H as [|f c Hf|r1 r2 s1 s2 H1 IH1 H2 IH2|r1 r2 s H1 IH1|r1 r2 s H2 IH2
                 |r|r s1 s2 H1 IH1 H2 IH2]; cbn [nullable]; try done.
  - destruct (append_eq_empty _ _ E) as [E1 E2].
    by rewrite (IH1 E1), (IH2 E2).
  - by rewrite (IH1 E).
  - by rewrite (IH2 E), orb_true_r.
Qed.

Lemma nullable_Matches (r : regex) : nullable r = true -> Matches r "".
Proof.
  induction r as [| |f|r1 IH1 r2 IH2|r1 IH1 r2 IH2|r1 IH1]; cbn [nullable]; intros H.
  - done.
  - constructor.
  - done.
  - apply andb_true_iff in H as [H1 H2].
    change "" with ("" +:+ ""). constructor; auto.
  - apply orb_true_iff in H as [H1|H2]; [apply MAltL|apply MAltR]; auto.
  - constructor.
Qed.

Lemma deriv_sound (c : ascii) (r : regex) (s : string) :
  Matches (deriv c r) s -> Matches r (String c s).
Proof.
  revert s.
  induction r as [| |f|r1 IH1 r2 IH2|r1 IH1 r2 IH2|r1 IH1]; intros s H; cbn [deriv] in H.
  - inversion H.
  - inversion H.
  - destruct (f c) eqn:Hf; inversion H; subst. by constructor.
  - assert (Hcat : forall u, Matches (Cat (deriv c r1) r2) u -> Matches (Cat r1 r2) (String c u)).
    { intros u Hu. inversion Hu as [| |? ? s1 s2 Ha Hb| | | |]; subst.
      change (String c (s1 +:+ s2)) with (String c s1 +:+ s2).
      constructor; auto. }
    destruct (nullable r1) eqn:Hn; [|by apply Hcat].
    inversion H as [| | |? ? ? Ha|? ? ? Hb| |]; subst; [by apply Hcat|].
    change (String c s) with ("" +:+ String c s).
    constructor; [by apply nullable_Matches|auto].
  - inversion H as [| | |? ? ? Ha|? ? ? Hb| |]; subst;
      [apply MAltL|apply MAltR]; auto.
  - inversion H as [| |? ? s1 s2 Ha Hb| | | |]; subst.
    change (String c (s1 +:+ s2)) with (String c s1 +:+ s2).
    apply MStarS; auto.
Qed.

Lemma deriv_complete_gen (r : regex) (u : string) :
  Matches r u -> forall c s, u = String c s -> Matches (deriv c r) s.
Proof.
  induction 1 as [|f c0 Hf|r1 r2 s1 s2 H1 IH1 H2 IH2|r1 r2 u H1 IH1|r1 r2 u H2 IH2
                 |r|r s1 s2 H1 IH1 H2 IH2]; intros c s E; cbn [deriv].
  - discriminate.
  - injection E as -> <-. rewrite Hf. constructor.
  - destruct s1 as [|a s1].
    + change ("" +:+ s2) with s2 in E.
      rewrite (Matches_nullable _ H1). apply MAltR. by apply IH2.
    + change (String a s1 +:+ s2) with (String a (s1 +:+ s2)) in E.
      injection E as -> <-.
      assert (Hc : Matches (Cat (deriv c r1) r2) (s1 +:+ s2)).
      { constructor; [by apply IH1|done]. }
      destruct (nullable r1); [by apply MAltL|done].
  - apply MAltL. by apply IH1.
  - apply MAltR. by apply IH2.
  - discriminate.
  - destruct s1 as [|a s1].
    + change ("" +:+ s2) with s2 in E. by apply IH2.
    + change (String a s1 +:+ s2) with (String a (s1 +:+ s2)) in E.
      injection E as -> <-.
      constructor; [by apply IH1|done].
Qed.

(** The derivative matcher accepts exactly the strings the expression
    denotes. *)
Lemma test_Matches (r : regex) (s : string) : test r s = true <-> Matches r s.
Proof.
  revert r. induction s as [|c s IH]; intros r; cbn [test].
  - split; [apply nullable_Matches|apply Matches_nullable].
  - rewrite IH. split; [apply deriv_sound|].
    intros H. by apply (deriv_complete_gen _ _ H).
Qed.

Lemma Matches_star_class (f : ascii -> bool) (w : string) :
  Matches (Star (Class f)) w <-> all_chars f w = true.
Proof.
  split.
  - intros H. remember (Star (Class f)) as r eqn:E.
    induction H as [|g c Hg|r1 r2 s1 s2 H1 IH1 H2 IH2|r1 r2 s H1 IH1|r1 r2 s H2 IH2
                   |r|r s1 s2 H1 IH1 H2 IH2]; try discriminate; [done|].
    injection E as ->. inversion H1 as [|? c Hc| | | | |]; subst.
    change (String c "" +:+ s2) with (String c s2). cbn [all_chars].
    by rewrite Hc, IH2.
  - induction w as [|c w IH]; cbn [all_chars]; intros H; [constructor|].
    apply andb_true_iff in H as [Hc Hw].
    change (String c w) with (String c "" +:+ w).
    apply MStarS; [by constructor|auto].
Qed.

Lemma Matches_plus_class (f : ascii -> bool) (w : string) :
  Matches (Plus (Class f)) w <-> w <> "" /\ all_chars f w = true.
Proof.
  unfold Plus. split.
  - intros H. inversion H as [| |? ? s1 s2 H1 H2| | | |]; subst.
    inversion H1 as [|? c Hc| | | | |]; subst.
    apply Matches_star_class in H2.
    change (String c "" +:+ s2) with (String c s2). cbn [all_chars].
    by rewrite Hc, H2.
  - intros [Hne Hall]. destruct w as [|c w]; [done|].
    cbn [all_chars] in Hall. apply andb_true_iff in Hall as [Hc Hw].
    change (String c w) with (String c "" +:+ w).
    constructor; [by constructor|by apply Matches_star_class].
Qed.

Lemma word_Matches (w : string) :
  word w = true <-> Matches (Plus (Class not_space_at)) w.
Proof.
  rewrite Matches_plus_class. unfold word. rewrite andb_true_iff, negb_true_iff.
  split; intros [H1 H2]; split; try done.
  - intros ->. done.
  - destruct w; [done|reflexivity].
Qed.

Lemma Matches_char (c : ascii) (s : string) :
  Matches (Class (Ascii.eqb c)) s <-> s = String c "".
Proof.
  split.
  - intros H. inversion H as [|? d Hd| | | | |]; subst.
    by apply Ascii.eqb_eq in Hd as ->.
  - intros ->. constructor. apply Ascii.eqb_refl.
Qed.

(** [isValidEmail] accepts exactly the strings of the form
    [local@domain.tail] whose three parts are not empty and hold neither
    white space nor [@]; the parts may hold dots. *)
Theorem isValidEmail_shape (email : string) :
  isValidEmail email = true <->
  exists l d t,
    email = l +:+ "@" +:+ d +:+ "." +:+ t /\
    word l = true /\ word d = true /\ word t = true.
Proof.
  unfold isValidEmail, emailRegex. rewrite test_Matches. split.
  - intros H.
    inversion H as [| |? ? l s1 Hl H1| | | |]; subst.
    inversion H1 as [| |? ? a s2 Ha H2| | | |]; subst.
    inversion H2 as [| |? ? d s3 Hd H3| | | |]; subst.
    inversion H3 as [| |? ? p t Hp Ht| | | |]; subst.
    apply Matches_char in Ha as ->. apply Matches_char in Hp as ->.
    exists l, d, t. by rewrite !word_Matches.
  - intros (l & d & t & -> & Hl & Hd & Ht).
    apply word_Matches in Hl, Hd, Ht.
    constructor; [done|].
    constructor; [by apply Matches_char|].
    constructor; [done|].
    constructor; [by apply Matches_char|done].
Qed.

Lemma all_chars_append (f : ascii -> bool) (s t : string) :
  all_chars f (s +:+ t) = all_chars f s && all_chars f t.
Proof.
  induction s as [|a s IH]; [done|].
  change (all_chars f (String a (s +:+ t)) = all_chars f (String a s) && all_chars f t).
  cbn [all_chars]. by rewrite IH, andb_assoc.
Qed.

Lemma count_char_append (c : ascii) (s t : string) :
  count_char c (s +:+ t) = (count_char c s + count_char c t)%nat.
Proof.
  induction s as [|a s IH]; [done|].
  change (count_char c (String a (s +:+ t)) = (count_char c (String a s) + count_char c t)%nat).
  cbn [count_char]. rewrite IH. lia.
Qed.

Lemma word_no_space (w : string) :
  word w = true -> all_chars (fun c => negb (is_whitespace c)) w = true.
Proof.
  unfold word. rewrite andb_true_iff. intros [_ H].
  induction w as [|c w IH]; [done|]. cbn [all_chars] in *.
  apply andb_true_iff in H as [Hc Hw]. unfold not_space_at in Hc.
  apply andb_true_iff in Hc as [Hc _]. by rewrite Hc, IH.
Qed.

Lemma word_no_at (w : string) : word w = true -> count_char "@" w = 0%nat.
Proof.
  unfold word. rewrite andb_true_iff. intros [_ H].
  induction w as [|c w IH]; [done|]. cbn [all_chars count_char] in *.
  apply andb_true_iff in H as [Hc Hw]. unfold not_space_at in Hc.
  apply andb_true_iff in Hc as [_ Hc]. apply negb_true_iff in Hc.
  by rewrite Hc, IH.
Qed.

Lemma trim_end_no_space (s : string) :
  all_chars (fun c => negb (is_whitespace c)) s = true -> trim_end s = s.
Proof.
  induction s as [|c s IH]; [done|]. cbn [all_chars trim_end].
  intros H. apply andb_true_iff in H as [Hc Hs]. apply negb_true_iff in Hc.
  by rewrite Hc, (IH Hs).
Qed.

Lemma trim_no_space (s : string) :
  all_chars (fun c => negb (is_whitespace c)) s = true -> trim s = s.
Proof.
  intros H. unfold trim.
  assert (E : trim_start s = s).
  { destruct s as [|c s]; [done|]. cbn [all_chars] in H.
    apply andb_true_iff in H as [Hc _]. apply negb_true_iff in Hc.
    cbn [trim_start]. by rewrite Hc. }
  rewrite E. by apply trim_end_no_space.
Qed.

(** An accepted email address holds no white space, so trimming leaves
    it as it is, and it holds exactly one [@]. *)
Theorem valid_email_one_at_no_space (email : string) :
  isValidEmail email = true ->
  all_chars (fun c => negb (is_whitespace c)) email = true /\
  count_char "@" email = 1%nat /\
  trim email = email.
Proof.
  intros H. apply isValidEmail_shape in H as (l & d & t & -> & Hl & Hd & Ht).
  assert (Hns : all_chars (fun c => negb (is_whitespace c))
                  (l +:+ "@" +:+ d +:+ "." +:+ t) = true).
  { rewrite !all_chars_append, (word_no_space _ Hl), (word_no_space _ Hd),
      (word_no_space _ Ht). reflexivity. }
  split; [done|]. split; [|by apply trim_no_space].
  rewrite !count_char_append, (word_no_at _ Hl), (word_no_at _ Hd), (word_no_at _ Ht).
  reflexivity.
Qed.

Lemma valid_email_one_at_no_space_witness :
  count_char "@" "a.b@c.d" = 1%nat.
Proof. by apply (valid_email_one_at_no_space "a.b@c.d"). Defined.

Lemma lower_char_cases (c : ascii) :
  lower_char (lower_char c) = lower_char c /\
  not_space_at (lower_char c) = not_space_at c /\
  Ascii.eqb "@" (lower_char c) = Ascii.eqb "@" c /\
  Ascii.eqb "." (lower_char c) = Ascii.eqb "." c /\
  is_whitespace (lower_char c) = is_whitespace c.
Proof.
  destruct c as [[] [] [] [] [] [] [] []]; vm_compute; repeat split.
Qed.

Lemma case_blind_deriv (c : ascii) (r : regex) :
  case_blind r -> case_blind (deriv c r) /\ deriv (lower_char c) r = deriv c r.
Proof.
  induction r as [| |f|r1 IH1 r2 IH2|r1 IH1 r2 IH2|r1 IH1]; cbn [case_blind deriv].
  - done.
  - done.
  - intros Hf. rewrite Hf. by destruct (f c).
  - intros [H1 H2]. destruct (IH1 H1) as [B1 E1], (IH2 H2) as [B2 E2].
    rewrite E1, E2. by destruct (nullable r1).
  - intros [H1 H2]. destruct (IH1 H1) as [B1 E1], (IH2 H2) as [B2 E2].
    by rewrite E1, E2.
  - intros H1. destruct (IH1 H1) as [B1 E1]. by rewrite E1.
Qed.

Lemma test_toLowerCase (r : regex) (s : string) :
  case_blind r -> test r (toLowerCase s) = test r s.
Proof.
  revert r. induction s as [|c s IH]; intros r Hr; [done|].
  cbn [toLowerCase test]. destruct (case_blind_deriv c r Hr) as [B E].
  rewrite E. by apply IH.
Qed.

(** The pages validate the trimmed text and send its lower-case form:
    lowering the case of a string changes neither whether
    [isValidEmail] accepts it nor, done twice, the string. *)
Theorem isValidEmail_toLowerCase (email : string) :
  isValidEmail (toLowerCase email) = isValidEmail email /\
  toLowerCase (toLowerCase email) = toLowerCase email.
Proof.
  split.
  - apply test_toLowerCase. cbn [emailRegex case_blind Plus].
    repeat split; intros c; apply lower_char_cases.
  - induction email as [|c s IH]; [done|]. cbn [toLowerCase].
    by rewrite IH, (proj1 (lower_char_cases c)).
Qed.

End Regex.

Section Pages.
Import Js Utils.

Lemma trim_end_idem (s : string) : trim_end (trim_end s) = trim_end s.
Proof.
  induction s as [|c s IH]; [done|]. cbn [trim_end].
  destruct (is_whitespace c && String.eqb (trim_end s) "") eqn:E; [done|].
  cbn [trim_end]. by rewrite IH, E.
Qed.

Lemma trim_idem (s : string) : trim (trim s) = trim s.
Proof.
  unfold trim.
  assert (E : trim_start (trim_end (trim_start s)) = trim_end (trim_start s)).
  { assert (H : trim_start s = "" \/
                exists c r, trim_start s = String c r /\ is_whitespace c = false).
    { induction s as [|c s IH]; [by left|]. cbn [trim_start].
      destruct (is_whitespace c) eqn:Hc; [done|]. right. by exists c, s. }
    destruct H as [->|(c & r & -> & Hc)]; [done|].
    cbn [trim_end]. rewrite Hc. cbn [andb trim_start]. by rewrite Hc. }
  rewrite E. apply trim_end_idem.
Qed.

(** [LoginPage.handleLogin] calls [Auth.login] exactly when the trimmed
    text of the input is an accepted email address; the address it
    passes is the lower-case form of that text, is itself accepted, and
    is left unchanged by trimming and by lowering the case again. A
    rejected input shows one error on the email field and the
    notification. *)
Theorem login_sends_checked_email (emailValue : string) :
  (isValidEmail (trim emailValue) = true ->
     exists email,
       Login.handleLogin_email emailValue = Some email /\
       email = toLowerCase (trim emailValue) /\
       isValidEmail email = true /\ trim email = email /\ toLowerCase email = email /\
       shown (Login.validateForm emailValue) = []) /\
  (isValidEmail (trim emailValue) = false ->
     Login.handleLogin_email emailValue = None /\
     (exists message, shown (Login.validateForm emailValue) = [("email", message)]) /\
     notification (Login.validateForm emailValue) = Some "Please fix the errors above").
Proof.
  unfold Login.handleLogin_email, Login.validateForm. split; intros Hv.
  - assert (Hne : String.eqb (trim emailValue) "" = false).
    { destruct (trim emailValue); [discriminate Hv|reflexivity]. }
    rewrite Hne, Hv. cbn [negb isValid valid_so_far shown].
    exists (toLowerCase (trim emailValue)).
    destruct (isValidEmail_toLowerCase (trim emailValue)) as [E1 E2].
    assert (Hlow : isValidEmail (toLowerCase (trim emailValue)) = true) by by rewrite E1.
    repeat split; try done.
    by apply valid_email_one_at_no_space.
  - rewrite Hv. cbn [negb].
    destruct (String.eqb (trim emailValue) ""); cbn; repeat split; eauto.
Qed.

(** [SignupPage.validateForm] returns true exactly when the trimmed name
    has between 2 and 100 code units, both bounds included (a name of
    exactly 100 passes, although the message of the upper check reads
    [less than 100]), the trimmed email is accepted by [isValidEmail]
    and the terms box is checked. It shows no error exactly when it
    returns true, and the notification exactly when it returns false. *)
Theorem signup_validateForm_accepts (nameValue emailValue : string) (checked : bool) :
  let v := Signup.validateForm nameValue emailValue checked in
  (isValid v = true <->
     (2 <= String.length (trim nameValue) <= 100)%nat /\
     isValidEmail (trim emailValue) = true /\ checked = true) /\
  (isValid v = true <-> shown v = []) /\
  (isValid v = false <-> notification v = Some "Please fix the errors above").
Proof.
  intros v. unfold v, Signup.validateForm, Signup.check_terms, Signup.check_email,
    Signup.check_name, notification.
  assert (Hn : String.eqb (trim nameValue) "" = true -> String.length (trim nameValue) = 0%nat).
  { intros H. by rewrite (proj1 (eqb_empty _) H). }
  assert (He : String.eqb (trim emailValue) "" = true -> isValidEmail (trim emailValue) = false).
  { intros H. by rewrite (proj1 (eqb_empty _) H). }
  destruct (String.eqb (trim nameValue) "") eqn:E0;
    [specialize (Hn eq_refl)|clear Hn];
    destruct (Nat.ltb_spec (String.length (trim nameValue)) 2) as [E1|E1];
    destruct (Nat.ltb_spec 100 (String.length (trim nameValue))) as [E2|E2];
    (destruct (String.eqb (trim emailValue) "") eqn:E3;
      [specialize (He eq_refl)|clear He]);
    destruct (isValidEmail (trim emailValue)) eqn:E4; try discriminate He;
    destruct checked; cbn;
    (repeat split; try done; try lia; try (intros (? & ? & ?); (done || lia))).
Qed.

(** [SignupPage.handleSignup] calls [Auth.register] only with checked
    data: the name is the trimmed text, 2 to 100 code units long; the
    email is the lower-case form of the trimmed text and is an accepted
    address; both are unchanged by trimming again; and the terms box
    was checked. *)
Theorem signup_sends_checked_data (nameValue emailValue : string) (checked : bool)
    (name email : string) :
  Signup.handleSignup_userData nameValue emailValue checked = Some (name, email) ->
  name = trim nameValue /\ trim name = name /\
  (2 <= String.length name <= 100)%nat /\
  email = toLowerCase (trim emailValue) /\
  isValidEmail email = true /\ trim email = email /\
  checked = true.
Proof.
  unfold Signup.handleSignup_userData. intros H.
  destruct (signup_validateForm_accepts nameValue emailValue checked) as [[Hacc _] _].
  destruct (isValid (Signup.validateForm nameValue emailValue checked)); [|discriminate H].
  cbn [negb] in H. injection H as <- <-.
  destruct (Hacc eq_refl) as (Hlen & Hmail & Hchk).
  destruct (isValidEmail_toLowerCase (trim emailValue)) as [E1 _].
  assert (Hlow : isValidEmail (toLowerCase (trim emailValue)) = true) by by rewrite E1.
  repeat split; try done; try lia.
  - apply trim_idem.
  - by apply valid_email_one_at_no_space.
Qed.

Lemma signup_sends_checked_data_witness :
  (2 <= String.length "Al" <= 100)%nat /\ Utils.isValidEmail "al@x.io" = true.
Proof.
  destruct (signup_sends_checked_data "  Al " " Al@X.io " true "Al" "al@x.io" eq_refl)
    as (_ & _ & H1 & _ & H2 & _).
  by split.
Defined.

End Pages.

Lemma isValidEmail_shape_witness : Utils.isValidEmail "ann.lee@mail.example.org" = true.
Proof.
  apply (proj2 (isValidEmail_shape "ann.lee@mail.example.org")).
  exists "ann.lee", "mail.example", "org". by repeat split.
Defined.

Lemma login_sends_checked_email_witness :
  Login.handleLogin_email "  Ann@Mail.org " = Some "ann@mail.org" /\
  Login.handleLogin_email "ann@mail" = None.
Proof.
  destruct (login_sends_checked_email "  Ann@Mail.org ") as [H _].
  destruct (H eq_refl) as (email & E & -> & _).
  destruct (login_sends_checked_email "ann@mail") as [_ H'].
  destruct (H' eq_refl) as (E' & _).
  split; [exact E|exact E'].
Defined.

Lemma signup_validateForm_accepts_witness :
  isValid (Signup.validateForm " Al " "al@x.io" true) = true /\
  isValid (Signup.validateForm "A" "al@x.io" true) = false.
Proof.
  split.
  - apply (proj1 (signup_validateForm_accepts " Al " "al@x.io" true)).
    repeat split; vm_compute; (reflexivity || lia).
  - destruct (isValid (Signup.validateForm "A" "al@x.io" true)) eqn:E; [|done].
    apply (proj1 (signup_validateForm_accepts "A" "al@x.io" true)) in E.
    destruct E as [[E _] _]. vm_compute in E. lia.
Defined.

Lemma payload_action_witness :
  Js.props_get "email"
    (Js.props_set "action" (JStr "user.login")
       [("action", JStr "other"); ("email", JStr "a@b.com")])
  = Some (JStr "a@b.com").
Proof.
  rewrite (proj1 (proj2 (payload_action "user.login"
                           [("action", JStr "other"); ("email", JStr "a@b.com")]))
             "email") by done.
  reflexivity.
Defined.

Lemma logout_clears_session_witness :
  Auth.localStorage (Auth.logout Scenario.logged_in) !! "theme"
  = Auth.localStorage Scenario.logged_in !! "theme".
Proof.
  by apply (proj1 (proj2 (proj2 (proj2 (proj2 (logout_clears_session Scenario.logged_in)))))).
Defined.
